(** * The runtime-security probe (pkg/security/probe/probe_bpf.go)

    A shallow embedding of the userspace side of the eBPF probe: the
    dispatcher [handleEvent], the discarder and approver engines, the policy
    applier and the statistics export.

    The Go methods mutate the probe, call into kernel tables and call back
    into registered functions.  They are embedded in a small monad [M] that
    threads the probe, the package-level registries, an opaque external world
    and a trace of every call that leaves the file, and that has Go's [return]
    and run-time panics as outcomes. *)

From Stdlib Require Import ZArith String.
From Stdlib Require Strings.Byte.
From stdpp Require Import gmap strings list fin_maps.

Local Open Scope Z_scope.
Local Open Scope string_scope.
Local Open Scope list_scope.

(** ** Plain data *)

(** A Go [error] value, identified with its message. *)
Definition error := string.

(** [int64] counters: two's complement wrap-around of [atomic.AddInt64]. *)
Definition wrap64 (z : Z) : Z := (z + 2 ^ 63) mod 2 ^ 64 - 2 ^ 63.

(** [data[offset:]]: a run-time panic ([None]) when the offset is past the end. *)
Definition slice_from {A} (data : list A) (offset : nat) : option (list A) :=
  if decide (offset ≤ length data)%nat then Some (drop offset data) else None.

(** [FilterPolicy] as built by [ApplyFilterPolicy]; [PolicyMode] and
    [PolicyFlag] are small unsigned integers declared outside the file. *)
Record FilterPolicy := { Mode : Z; Flags : Z }.

(** Modelled from the spec: [ebpf.ZeroUint32MapItem], the fixed sentinel key
    of a single-slot policy table (declared in the ebpf package). *)
Definition ZeroUint32MapItem : Z := 0.

Definition MetricPrefix : string := "datadog.runtime_security".

(** [config.Config], the fields the probe reads. *)
Record Config := {
  EnableKernelFilters : bool;
  EnableDiscarders : bool;
  SyscallMonitor : bool;
}.

(** The levels of the agent's logger. *)
Inductive LogLevel := TraceLvl | InfoLvl | WarnLvl | ErrorLvl.

(** ** Types declared outside the file *)

(** The payload structs of the variants that the dispatcher only decodes, the
    value carried by a discarder, the rule-engine types and the ordinals of
    the event-type constants are declared in other files of the package. *)
Class Schema := {
  Payload : Type;
  payloadZero : Payload;
  Value : Type;
  RuleSet : Type;
  Approvers : Type;
  FileOpenEventType : nat;
  FileMkdirEventType : nat;
  FileRmdirEventType : nat;
  FileUnlinkEventType : nat;
  FileRenameEventType : nat;
  FileChmodEventType : nat;
  FileChownEventType : nat;
  FileUtimeEventType : nat;
  FileLinkEventType : nat;
  FileMountEventType : nat;
  FileUmountEventType : nat;
  FileSetXAttrEventType : nat;
  FileRemoveXAttrEventType : nat;
  EventType_String : nat → string;
  PolicyModeAccept : Z;
}.

(** The tags of the switch of [handleEvent], in the order of its cases. *)
Definition supportedEventTypes `{Schema} : list nat :=
  [ FileOpenEventType; FileMkdirEventType; FileRmdirEventType;
    FileUnlinkEventType; FileRenameEventType; FileChmodEventType;
    FileChownEventType; FileUtimeEventType; FileLinkEventType;
    FileMountEventType; FileUmountEventType; FileSetXAttrEventType;
    FileRemoveXAttrEventType ].

(** Modelled from the spec: [MountEvent], the MountEntry of the data model
    (mount identifier, parent mount id, device, mount point path, root path);
    the struct is declared in the model file. *)
Record MountEvent := {
  NewMountID : Z;
  ParentMountID : Z;
  NewDevice : Z;
  MountPointStr : string;
  RootStr : string;
}.

Definition mountZero : MountEvent :=
  {| NewMountID := 0; ParentMountID := 0; NewDevice := 0;
     MountPointStr := ""; RootStr := "" |}.

(** [UmountEvent]: the dispatcher reads its [MountID]. *)
Record UmountEvent := { MountID : Z }.

Definition umountZero : UmountEvent := {| MountID := 0 |}.

Section Embedding.
Context `{Schema}.

(** [Event]: the header tag, one payload slot per variant, and whether the
    container is bound to the probe's resolvers ([event.resolvers]). *)
Record Event := {
  Type' : nat;
  Open : Payload;
  Mkdir : Payload;
  Rmdir : Payload;
  Unlink : Payload;
  Rename : Payload;
  Chmod : Payload;
  Chown : Payload;
  Utimes : Payload;
  Link : Payload;
  Mount : MountEvent;
  Umount : UmountEvent;
  SetXAttr : Payload;
  RemoveXAttr : Payload;
  event_resolvers : bool;
}.

(** [var eventZero Event] *)
Definition eventZero : Event :=
  {| Type' := 0%nat; Open := payloadZero; Mkdir := payloadZero;
     Rmdir := payloadZero; Unlink := payloadZero; Rename := payloadZero;
     Chmod := payloadZero; Chown := payloadZero; Utimes := payloadZero;
     Link := payloadZero; Mount := mountZero; Umount := umountZero;
     SetXAttr := payloadZero; RemoveXAttr := payloadZero;
     event_resolvers := false |}.

Definition set_event_resolvers (b : bool) (e : Event) : Event :=
  {| Type' := Type' e; Open := Open e; Mkdir := Mkdir e; Rmdir := Rmdir e;
     Unlink := Unlink e; Rename := Rename e; Chmod := Chmod e;
     Chown := Chown e; Utimes := Utimes e; Link := Link e; Mount := Mount e;
     Umount := Umount e; SetXAttr := SetXAttr e;
     RemoveXAttr := RemoveXAttr e; event_resolvers := b |}.

Definition set_Open (x : Payload) (e : Event) : Event :=
  {| Type' := Type' e; Open := x; Mkdir := Mkdir e; Rmdir := Rmdir e;
     Unlink := Unlink e; Rename := Rename e; Chmod := Chmod e;
     Chown := Chown e; Utimes := Utimes e; Link := Link e; Mount := Mount e;
     Umount := Umount e; SetXAttr := SetXAttr e;
     RemoveXAttr := RemoveXAttr e; event_resolvers := event_resolvers e |}.

Definition set_Mkdir (x : Payload) (e : Event) : Event :=
  {| Type' := Type' e; Open := Open e; Mkdir := x; Rmdir := Rmdir e;
     Unlink := Unlink e; Rename := Rename e; Chmod := Chmod e;
     Chown := Chown e; Utimes := Utimes e; Link := Link e; Mount := Mount e;
     Umount := Umount e; SetXAttr := SetXAttr e;
     RemoveXAttr := RemoveXAttr e; event_resolvers := event_resolvers e |}.

Definition set_Rmdir (x : Payload) (e : Event) : Event :=
  {| Type' := Type' e; Open := Open e; Mkdir := Mkdir e; Rmdir := x;
     Unlink := Unlink e; Rename := Rename e; Chmod := Chmod e;
     Chown := Chown e; Utimes := Utimes e; Link := Link e; Mount := Mount e;
     Umount := Umount e; SetXAttr := SetXAttr e;
     RemoveXAttr := RemoveXAttr e; event_resolvers := event_resolvers e |}.

Definition set_Unlink (x : Payload) (e : Event) : Event :=
  {| Type' := Type' e; Open := Open e; Mkdir := Mkdir e; Rmdir := Rmdir e;
     Unlink := x; Rename := Rename e; Chmod := Chmod e;
     Chown := Chown e; Utimes := Utimes e; Link := Link e; Mount := Mount e;
     Umount := Umount e; SetXAttr := SetXAttr e;
     RemoveXAttr := RemoveXAttr e; event_resolvers := event_resolvers e |}.

Definition set_Rename (x : Payload) (e : Event) : Event :=
  {| Type' := Type' e; Open := Open e; Mkdir := Mkdir e; Rmdir := Rmdir e;
     Unlink := Unlink e; Rename := x; Chmod := Chmod e;
     Chown := Chown e; Utimes := Utimes e; Link := Link e; Mount := Mount e;
     Umount := Umount e; SetXAttr := SetXAttr e;
     RemoveXAttr := RemoveXAttr e; event_resolvers := event_resolvers e |}.

Definition set_Chmod (x : Payload) (e : Event) : Event :=
  {| Type' := Type' e; Open := Open e; Mkdir := Mkdir e; Rmdir := Rmdir e;
     Unlink := Unlink e; Rename := Rename e; Chmod := x;
     Chown := Chown e; Utimes := Utimes e; Link := Link e; Mount := Mount e;
     Umount := Umount e; SetXAttr := SetXAttr e;
     RemoveXAttr := RemoveXAttr e; event_resolvers := event_resolvers e |}.

Definition set_Chown (x : Payload) (e : Event) : Event :=
  {| Type' := Type' e; Open := Open e; Mkdir := Mkdir e; Rmdir := Rmdir e;
     Unlink := Unlink e; Rename := Rename e; Chmod := Chmod e;
     Chown := x; Utimes := Utimes e; Link := Link e; Mount := Mount e;
     Umount := Umount e; SetXAttr := SetXAttr e;
     RemoveXAttr := RemoveXAttr e; event_resolvers := event_resolvers e |}.

Definition set_Utimes (x : Payload) (e : Event) : Event :=
  {| Type' := Type' e; Open := Open e; Mkdir := Mkdir e; Rmdir := Rmdir e;
     Unlink := Unlink e; Rename := Rename e; Chmod := Chmod e;
     Chown := Chown e; Utimes := x; Link := Link e; Mount := Mount e;
     Umount := Umount e; SetXAttr := SetXAttr e;
     RemoveXAttr := RemoveXAttr e; event_resolvers := event_resolvers e |}.

Definition set_Link (x : Payload) (e : Event) : Event :=
  {| Type' := Type' e; Open := Open e; Mkdir := Mkdir e; Rmdir := Rmdir e;
     Unlink := Unlink e; Rename := Rename e; Chmod := Chmod e;
     Chown := Chown e; Utimes := Utimes e; Link := x; Mount := Mount e;
     Umount := Umount e; SetXAttr := SetXAttr e;
     RemoveXAttr := RemoveXAttr e; event_resolvers := event_resolvers e |}.

Definition set_Mount (x : MountEvent) (e : Event) : Event :=
  {| Type' := Type' e; Open := Open e; Mkdir := Mkdir e; Rmdir := Rmdir e;
     Unlink := Unlink e; Rename := Rename e; Chmod := Chmod e;
     Chown := Chown e; Utimes := Utimes e; Link := Link e; Mount := x;
     Umount := Umount e; SetXAttr := SetXAttr e;
     RemoveXAttr := RemoveXAttr e; event_resolvers := event_resolvers e |}.

Definition set_Umount (x : UmountEvent) (e : Event) : Event :=
  {| Type' := Type' e; Open := Open e; Mkdir := Mkdir e; Rmdir := Rmdir e;
     Unlink := Unlink e; Rename := Rename e; Chmod := Chmod e;
     Chown := Chown e; Utimes := Utimes e; Link := Link e; Mount := Mount e;
     Umount := x; SetXAttr := SetXAttr e;
     RemoveXAttr := RemoveXAttr e; event_resolvers := event_resolvers e |}.

Definition set_SetXAttr (x : Payload) (e : Event) : Event :=
  {| Type' := Type' e; Open := Open e; Mkdir := Mkdir e; Rmdir := Rmdir e;
     Unlink := Unlink e; Rename := Rename e; Chmod := Chmod e;
     Chown := Chown e; Utimes := Utimes e; Link := Link e; Mount := Mount e;
     Umount := Umount e; SetXAttr := x;
     RemoveXAttr := RemoveXAttr e; event_resolvers := event_resolvers e |}.

Definition set_RemoveXAttr (x : Payload) (e : Event) : Event :=
  {| Type' := Type' e; Open := Open e; Mkdir := Mkdir e; Rmdir := Rmdir e;
     Unlink := Unlink e; Rename := Rename e; Chmod := Chmod e;
     Chown := Chown e; Utimes := Utimes e; Link := Link e; Mount := Mount e;
     Umount := Umount e; SetXAttr := SetXAttr e;
     RemoveXAttr := x; event_resolvers := event_resolvers e |}.

(** [Discarder]: a field and the value observed for it. *)
Record Discarder := { Field : string; DValue : Value }.

(** ** Statistics *)

(** Modelled from the spec: [EventsStats], an array of counters indexed by
    event-type ordinal and one lost-event counter; the struct and its atomic
    accessors are declared in another file of the package. *)
Record EventsStats := { Lost : Z; PerEventType : list Z }.

(** Modelled from the spec: [count_lost], a monotonic increment. *)
Definition CountLost (count : Z) (e : EventsStats) : EventsStats :=
  {| Lost := wrap64 (Lost e + count); PerEventType := PerEventType e |}.

(** Modelled from the spec: the non-destructive read of the lost counter. *)
Definition GetLost (e : EventsStats) : Z := Lost e.

(** Modelled from the spec: the destructive read of the lost counter, which
    reads then zeroes. *)
Definition GetAndResetLost (e : EventsStats) : Z * EventsStats :=
  (Lost e, {| Lost := 0; PerEventType := PerEventType e |}).

(** Modelled from the spec: [count_event], a monotonic increment of the
    counter of one event type.  The Go array has a slot for every ordinal the
    dispatcher can pass; an ordinal without a slot leaves the array as it is. *)
Definition CountEventType (eventType : nat) (count : Z) (e : EventsStats)
  : EventsStats :=
  {| Lost := Lost e;
     PerEventType := alter (λ c, wrap64 (c + count)) eventType (PerEventType e) |}.

(** Modelled from the spec: [get], the non-destructive read of one counter. *)
Definition GetEventCount (eventType : nat) (e : EventsStats) : Z :=
  default 0 (PerEventType e !! eventType).

(** Modelled from the spec: [get_and_reset], which reads one counter then
    zeroes it. *)
Definition GetAndResetEventCount (eventType : nat) (e : EventsStats)
  : Z * EventsStats :=
  (default 0 (PerEventType e !! eventType),
   {| Lost := Lost e; PerEventType := alter (λ _, 0) eventType (PerEventType e) |}).

(** ** The mount resolution cache *)

(** Modelled from the spec: the mount resolver, a cache keyed by mount id;
    the resolver is declared in another file of the package. *)
Record Resolvers := { MountResolver : gmap Z MountEvent }.

(** Modelled from the spec: [insert], an unconditional upsert keyed by mount
    id. *)
Definition MountResolver_Insert (e : MountEvent) (r : Resolvers) : Resolvers :=
  {| MountResolver := <[NewMountID e := e]> (MountResolver r) |}.

(** Modelled from the spec: [delete], which removes the entry and returns a
    distinguishable not-found error when the id is unknown, leaving the cache
    as it is. *)
Definition MountResolver_Delete (mountID : Z) (r : Resolvers)
  : option error * Resolvers :=
  match MountResolver r !! mountID with
  | Some _ => (None, {| MountResolver := delete mountID (MountResolver r) |})
  | None => (Some "mount not found", r)
  end.

End Embedding.

(** ** The libraries the probe calls *)

(** The eBPF manager and its tables, the statsd client and the syscall
    monitor are external: their state is the opaque world [W], and a call is
    a function of the world that may fail. *)
Class Kernel := {
  W : Type;
  Manager : Type;
  lib_Map : Type;
  Manager_GetMap : Manager → string → option lib_Map * bool * option error;
  Map_Put : lib_Map → Z → FilterPolicy → W → option error * W;
  StatsdClient : Type;
  Client_Count : StatsdClient → string → Z → list string → W → option error * W;
  SyscallMonitorT : Type;
  SyscallStats : Type;
  SyscallMonitor_SendStats : SyscallMonitorT → StatsdClient → W → option error * W;
  SyscallMonitor_GetStats : SyscallMonitorT → W → option SyscallStats * option error;
  ProbesSelector : Type;
  NewDefaultOptions : list ProbesSelector;
  SyscallMonitorSelectors : list ProbesSelector;
}.

(** [onApproversFnc] and [onDiscarderFnc]: the probe argument gives the
    function access to the kernel tables, which live in the world. *)
Definition onApproversFnc `{Schema, Kernel} : Type :=
  Approvers → W → option error * W.

Definition onDiscarderFnc `{Schema, Kernel} : Type :=
  RuleSet → Event → Discarder → W → option error * W.

(** [EventHandler], the interface of the consumer of decoded events. *)
Record EventHandler `{Schema, Kernel} := { HandleEvent : Event → W → W }.

(** ** The rest of the package *)

(** The binary decoders of the header and of each variant, the resolution of
    a mount's paths, the field accessors of an event and the functions that
    [init] registers are defined in other files of the package.  A decoder
    works in place: it returns the container it wrote, the number of bytes
    read and the error. *)
Class Package `{Schema, Kernel} := {
  Event_UnmarshalBinary : Event → list Byte.byte → Event * nat * option error;
  OpenEvent_UnmarshalBinary : Payload → list Byte.byte → Payload * nat * option error;
  MkdirEvent_UnmarshalBinary : Payload → list Byte.byte → Payload * nat * option error;
  RmdirEvent_UnmarshalBinary : Payload → list Byte.byte → Payload * nat * option error;
  UnlinkEvent_UnmarshalBinary : Payload → list Byte.byte → Payload * nat * option error;
  RenameEvent_UnmarshalBinary : Payload → list Byte.byte → Payload * nat * option error;
  ChmodEvent_UnmarshalBinary : Payload → list Byte.byte → Payload * nat * option error;
  ChownEvent_UnmarshalBinary : Payload → list Byte.byte → Payload * nat * option error;
  UtimesEvent_UnmarshalBinary : Payload → list Byte.byte → Payload * nat * option error;
  LinkEvent_UnmarshalBinary : Payload → list Byte.byte → Payload * nat * option error;
  MountEvent_UnmarshalBinary : MountEvent → list Byte.byte → MountEvent * nat * option error;
  UmountEvent_UnmarshalBinary : UmountEvent → list Byte.byte → UmountEvent * nat * option error;
  SetXAttrEvent_UnmarshalBinary : Payload → list Byte.byte → Payload * nat * option error;
  RemoveXAttrEvent_UnmarshalBinary : Payload → list Byte.byte → Payload * nat * option error;
  MountEvent_ResolveMountPoint : Resolvers → MountEvent → MountEvent;
  MountEvent_ResolveRoot : Resolvers → MountEvent → MountEvent;
  Event_GetFieldEventType : Event → string → string * option error;
  Event_GetFieldValue : Event → string → Value * option error;
  openOnNewApprovers : onApproversFnc;
  openOnNewDiscarder : onDiscarderFnc;
  unlinkOnNewDiscarder : onDiscarderFnc;
}.

Section Machine.
Context `{Schema, Kernel}.

(** ** The probe *)

Record Probe := {
  manager : option Manager;
  managerOptions : list ProbesSelector;
  config : Config;
  handler : option EventHandler;
  resolvers : Resolvers;
  onDiscardersFncs : gmap string (list onDiscarderFnc);
  syscallMonitor : option SyscallMonitorT;
  eventsStats : EventsStats;
  event : Event;
}.

Definition set_managerOptions (x : list ProbesSelector) (p : Probe) : Probe :=
  {| manager := manager p; managerOptions := x; config := config p;
     handler := handler p; resolvers := resolvers p;
     onDiscardersFncs := onDiscardersFncs p;
     syscallMonitor := syscallMonitor p; eventsStats := eventsStats p;
     event := event p |}.

Definition set_config (x : Config) (p : Probe) : Probe :=
  {| manager := manager p; managerOptions := managerOptions p;
     config := x; handler := handler p; resolvers := resolvers p;
     onDiscardersFncs := onDiscardersFncs p;
     syscallMonitor := syscallMonitor p; eventsStats := eventsStats p;
     event := event p |}.

Definition set_handler (x : option EventHandler) (p : Probe) : Probe :=
  {| manager := manager p; managerOptions := managerOptions p;
     config := config p; handler := x; resolvers := resolvers p;
     onDiscardersFncs := onDiscardersFncs p;
     syscallMonitor := syscallMonitor p; eventsStats := eventsStats p;
     event := event p |}.

Definition set_resolvers (x : Resolvers) (p : Probe) : Probe :=
  {| manager := manager p; managerOptions := managerOptions p;
     config := config p; handler := handler p; resolvers := x;
     onDiscardersFncs := onDiscardersFncs p;
     syscallMonitor := syscallMonitor p; eventsStats := eventsStats p;
     event := event p |}.

Definition set_onDiscardersFncs (x : gmap string (list onDiscarderFnc))
    (p : Probe) : Probe :=
  {| manager := manager p; managerOptions := managerOptions p;
     config := config p; handler := handler p; resolvers := resolvers p;
     onDiscardersFncs := x;
     syscallMonitor := syscallMonitor p; eventsStats := eventsStats p;
     event := event p |}.

Definition set_eventsStats (x : EventsStats) (p : Probe) : Probe :=
  {| manager := manager p; managerOptions := managerOptions p;
     config := config p; handler := handler p; resolvers := resolvers p;
     onDiscardersFncs := onDiscardersFncs p;
     syscallMonitor := syscallMonitor p; eventsStats := x;
     event := event p |}.

Definition set_event (x : Event) (p : Probe) : Probe :=
  {| manager := manager p; managerOptions := managerOptions p;
     config := config p; handler := handler p; resolvers := resolvers p;
     onDiscardersFncs := onDiscardersFncs p;
     syscallMonitor := syscallMonitor p; eventsStats := eventsStats p;
     event := x |}.

(** ** Observable calls *)

Inductive LogArg :=
| ArgS (s : string)
| ArgN (n : nat)
| ArgZ (z : Z)
| ArgE (e : Event).

(** Every call that leaves the file, in the order it is made. *)
Inductive Action :=
| Log (level : LogLevel) (format : string) (args : list LogArg)
| CallResolveMountPoint (m : MountEvent)
| CallResolveRoot (m : MountEvent)
| CallInsert (m : MountEvent)
| CallDelete (mountID : Z)
| CallCountEventType (eventType : nat) (count : Z)
| CallGetEventCount (eventType : nat)
| CallGetAndResetEventCount (eventType : nat)
| CallCountLost (count : Z)
| CallGetLost
| CallGetAndResetLost
| CallHandleEvent (h : EventHandler) (e : Event)
| CallDiscarderFnc (fnc : onDiscarderFnc) (d : Discarder)
| CallApproversFnc (fnc : onApproversFnc) (a : Approvers)
| CallPut (table : lib_Map) (key : Z) (policy : FilterPolicy)
| CallCount (name : string) (value : Z) (tags : list string)
| CallSyscallSendStats
| CallSyscallGetStats.

(** ** The state threaded by the methods *)

(** The probe, the two package-level registries, the external world and the
    trace of calls. *)
Record State := {
  probe : Probe;
  allApproversFncs : gmap string onApproversFnc;
  allDiscarderFncs : gmap string onDiscarderFnc;
  world : W;
  trace : list Action;
}.

Definition set_probe (x : Probe) (s : State) : State :=
  {| probe := x; allApproversFncs := allApproversFncs s;
     allDiscarderFncs := allDiscarderFncs s; world := world s;
     trace := trace s |}.

Definition set_allApproversFncs (x : gmap string onApproversFnc) (s : State)
  : State :=
  {| probe := probe s; allApproversFncs := x;
     allDiscarderFncs := allDiscarderFncs s; world := world s;
     trace := trace s |}.

Definition set_allDiscarderFncs (x : gmap string onDiscarderFnc) (s : State)
  : State :=
  {| probe := probe s; allApproversFncs := allApproversFncs s;
     allDiscarderFncs := x; world := world s; trace := trace s |}.

Definition set_world (x : W) (s : State) : State :=
  {| probe := probe s; allApproversFncs := allApproversFncs s;
     allDiscarderFncs := allDiscarderFncs s; world := x; trace := trace s |}.

Definition set_trace (x : list Action) (s : State) : State :=
  {| probe := probe s; allApproversFncs := allApproversFncs s;
     allDiscarderFncs := allDiscarderFncs s; world := world s; trace := x |}.

(** ** The monad *)

(** The outcome of a statement inside a function body whose result type is
    [R]: it falls through with a value, executes [return r], or panics. *)
Inductive Res (R A : Type) :=
| Val (a : A)
| Return (r : R)
| Panic.
Global Arguments Val {R A} a.
Global Arguments Return {R A} r.
Global Arguments Panic {R A}.

Definition M (R A : Type) : Type := State → Res R A * State.

Definition ret {R A} (a : A) : M R A := λ s, (Val a, s).

Definition bind {R A B} (m : M R A) (k : A → M R B) : M R B :=
  λ s, match m s with
       | (Val a, s') => k a s'
       | (Return r, s') => (Return r, s')
       | (Panic, s') => (Panic, s')
       end.

(** [return r] *)
Definition returns {R A} (r : R) : M R A := λ s, (Return r, s).

Definition panic {R A} : M R A := λ s, (Panic, s).

(** A function body: [return r] and falling off the end both hand the
    result to the caller; a panic unwinds through the caller. *)
Definition func {R R'} (body : M R R) : M R' R :=
  λ s, match body s with
       | (Val r, s') => (Val r, s')
       | (Return r, s') => (Val r, s')
       | (Panic, s') => (Panic, s')
       end.

End Machine.

Declare Scope go_scope.
Delimit Scope go_scope with go.
Notation "x <- m ;; k" := (bind m (λ x, k))
  (at level 100, m at next level, k at level 200, right associativity,
   format "'[v' x  <-  m  ;;  '/' k ']'") : go_scope.
Notation "m ;;; k" := (bind m (λ _, k))
  (at level 100, k at level 200, right associativity) : go_scope.

Section Methods.
Context `{Schema, Kernel, !Package}.
Local Open Scope go_scope.

(** ** Statements *)

Definition getProbe {R} : M R Probe := λ s, (Val (probe s), s).

Definition modifyProbe {R} (f : Probe → Probe) : M R unit :=
  λ s, (Val tt, set_probe (f (probe s)) s).

Definition getState {R} : M R State := λ s, (Val s, s).

(** Record a call in the trace. *)
Definition emit {R} (a : Action) : M R unit :=
  λ s, (Val tt, set_trace (trace s ++ [a]) s).

(** Run a call of an external library or of a registered function on the
    world. *)
Definition external {R A} (f : W → A * W) : M R A :=
  λ s, let '(a, w) := f (world s) in (Val a, set_world w s).

(** [log.Tracef], [log.Infof], [log.Warn], [log.Errorf]: the level, the
    format string (without its final line feed, if any) and the arguments. *)
Definition logf {R} (level : LogLevel) (format : string) (args : list LogArg)
  : M R unit :=
  emit (Log level format args).

(** [for _, x := range l { body }] *)
Fixpoint forRange {R A} (l : list A) (body : A → M R unit) : M R unit :=
  match l with
  | [] => ret tt
  | x :: l' => body x ;;; forRange l' body
  end.

(** A loop that updates a local variable [acc]. *)
Fixpoint forRangeAcc {R A B} (l : list A) (acc : B) (body : A → B → M R B)
  : M R B :=
  match l with
  | [] => ret acc
  | x :: l' => acc' <- body x acc ;; forRangeAcc l' acc' body
  end.

(** [data[offset:]] *)
Definition slice {R} (data : list Byte.byte) (offset : nat)
  : M R (list Byte.byte) :=
  match slice_from data offset with
  | Some d => ret d
  | None => panic
  end.

(** A decoder called on the probe's event container, [p.event]. *)
Definition unmarshal {R} (dec : Event → Event * nat * option error)
  : M R (nat * option error) :=
  p <- getProbe ;;
  let '(e, read, err) := dec (event p) in
  modifyProbe (set_event e) ;;;
  ret (read, err).

(** A decoder called on one field of the event container. *)
Definition onField {P} (get : Event → P) (set : P → Event → Event)
    (dec : P → list Byte.byte → P * nat * option error)
    (data : list Byte.byte) (e : Event) : Event * nat * option error :=
  let '(x, read, err) := dec (get e) data in (set x e, read, err).

(** ** Calls that leave the file *)

Definition EventsStats_CountEventType {R} (eventType : nat) (count : Z)
  : M R unit :=
  emit (CallCountEventType eventType count) ;;;
  modifyProbe (λ p, set_eventsStats (CountEventType eventType count (eventsStats p)) p).

Definition EventsStats_GetEventCount {R} (eventType : nat) : M R Z :=
  emit (CallGetEventCount eventType) ;;;
  p <- getProbe ;;
  ret (GetEventCount eventType (eventsStats p)).

Definition EventsStats_GetAndResetEventCount {R} (eventType : nat) : M R Z :=
  emit (CallGetAndResetEventCount eventType) ;;;
  p <- getProbe ;;
  let '(value, stats) := GetAndResetEventCount eventType (eventsStats p) in
  modifyProbe (set_eventsStats stats) ;;;
  ret value.

Definition EventsStats_CountLost {R} (count : Z) : M R unit :=
  emit (CallCountLost count) ;;;
  modifyProbe (λ p, set_eventsStats (CountLost count (eventsStats p)) p).

Definition EventsStats_GetLost {R} : M R Z :=
  emit CallGetLost ;;;
  p <- getProbe ;;
  ret (GetLost (eventsStats p)).

Definition EventsStats_GetAndResetLost {R} : M R Z :=
  emit CallGetAndResetLost ;;;
  p <- getProbe ;;
  let '(value, stats) := GetAndResetLost (eventsStats p) in
  modifyProbe (set_eventsStats stats) ;;;
  ret value.

(** [event.Mount.ResolveMountPoint(p.resolvers)] *)
Definition ResolveMountPoint {R} : M R unit :=
  p <- getProbe ;;
  emit (CallResolveMountPoint (Mount (event p))) ;;;
  modifyProbe (set_event
    (set_Mount (MountEvent_ResolveMountPoint (resolvers p) (Mount (event p)))
       (event p))).

(** [event.Mount.ResolveRoot(p.resolvers)] *)
Definition ResolveRoot {R} : M R unit :=
  p <- getProbe ;;
  emit (CallResolveRoot (Mount (event p))) ;;;
  modifyProbe (set_event
    (set_Mount (MountEvent_ResolveRoot (resolvers p) (Mount (event p)))
       (event p))).

(** [p.resolvers.MountResolver.Insert(&event.Mount)] *)
Definition Insert {R} : M R unit :=
  p <- getProbe ;;
  emit (CallInsert (Mount (event p))) ;;;
  modifyProbe (set_resolvers (MountResolver_Insert (Mount (event p)) (resolvers p))).

(** [p.resolvers.MountResolver.Delete(mountID)] *)
Definition Delete {R} (mountID : Z) : M R (option error) :=
  p <- getProbe ;;
  emit (CallDelete mountID) ;;;
  let '(err, r) := MountResolver_Delete mountID (resolvers p) in
  modifyProbe (set_resolvers r) ;;;
  ret err.

(** [table.Put(key, policy)] *)
Definition Put {R} (table : lib_Map) (key : Z) (policy : FilterPolicy)
  : M R (option error) :=
  emit (CallPut table key policy) ;;;
  external (Map_Put table key policy).

(** [statsdClient.Count(name, value, tags, 1.0)] *)
Definition Count {R} (statsdClient : StatsdClient) (name : string) (value : Z)
    (tags : list string) : M R (option error) :=
  emit (CallCount name value tags) ;;;
  external (Client_Count statsdClient name value tags).

(** ** The methods of [Probe] *)

(** [Map] returns a map by its name *)
Definition Map {R} (name : string) : M R (option lib_Map) := func (
  p <- getProbe ;;
  match manager p with
  | None => returns None
  | Some mgr =>
      let '(m, ok, err) := Manager_GetMap mgr name in
      if negb ok || bool_decide (err ≠ None) then returns None
      else returns m
  end).

(** [RegisterProbesSelectors] register the given probes selectors *)
Definition RegisterProbesSelectors {R} (selectors : list ProbesSelector)
  : M R (option error) := func (
  modifyProbe (λ p, set_managerOptions (managerOptions p ++ selectors) p) ;;;
  returns None).

(** [Init] initialises the probe *)
Definition Init {R} : M R (option error) := func (
  p <- getProbe ;;
  (if negb (EnableKernelFilters (config p))
   then logf WarnLvl
          "Forcing in-kernel filter policy to `pass`: filtering not enabled" []
   else ret tt) ;;;
  modifyProbe (set_managerOptions NewDefaultOptions) ;;;
  (if SyscallMonitor (config p)
   then err <- RegisterProbesSelectors SyscallMonitorSelectors ;;
        match err with
        | Some e => returns (Some e)
        | None => ret tt
        end
   else ret tt) ;;;
  s <- getState ;;
  modifyProbe (λ p,
    set_onDiscardersFncs
      (map_fold (λ eventType fnc acc,
                   <[eventType := default [] (acc !! eventType) ++ [fnc]]> acc)
                (onDiscardersFncs p) (allDiscarderFncs s)) p) ;;;
  returns None).

(** [SetEventHandler] set the probe event handler *)
Definition SetEventHandler {R} (h : option EventHandler) : M R unit := func (
  modifyProbe (set_handler h)).

(** [DispatchEvent] sends an event to probe event handler *)
Definition DispatchEvent {R} (event : Event) : M R unit := func (
  p <- getProbe ;;
  match handler p with
  | Some h =>
      emit (CallHandleEvent h event) ;;;
      external (λ w, (tt, HandleEvent h event w))
  | None => ret tt
  end).

(** [zeroEvent] *)
Definition zeroEvent {R} : M R unit := func (
  modifyProbe (set_event eventZero) ;;;
  modifyProbe (λ p, set_event (set_event_resolvers true (event p)) p)).

(** [handleLostEvents] *)
Definition handleLostEvents {R} (CPU : Z) (count : Z) : M R unit := func (
  logf WarnLvl "lost %d events" [ArgZ count] ;;;
  EventsStats_CountLost (wrap64 count)).

(** One case of the switch of [handleEvent] that only decodes:
    [if _, err := event.X.UnmarshalBinary(data[offset:]); err != nil]
    logs and returns. *)
Definition unmarshalPayload {P} (name : string) (get : Event → P)
    (set : P → Event → Event)
    (dec : P → list Byte.byte → P * nat * option error)
    (data : list Byte.byte) (offset : nat) : M unit unit :=
  payload <- slice data offset ;;
  r <- unmarshal (onField get set dec payload) ;;
  match r.2 with
  | Some err =>
      logf ErrorLvl
        ("failed to decode " +:+ name +:+ " event: %s (offset %d, len %d)")
        [ArgS err; ArgN offset; ArgN (length data)] ;;;
      returns tt
  | None => ret tt
  end.

(** [handleEvent], the data handler of every perf map *)
Definition handleEvent (CPU : Z) (data : list Byte.byte) : M unit unit := func (
  let offset := 0%nat in
  zeroEvent ;;;
  r <- unmarshal (λ e, Event_UnmarshalBinary e data) ;;
  let '(read, err) := r in
  match err with
  | Some err =>
      logf ErrorLvl "failed to decode event: %s" [ArgS err] ;;;
      returns tt
  | None =>
  let offset := (offset + read)%nat in
  p <- getProbe ;;
  let eventType := Type' (event p) in
  logf TraceLvl "Decoding event %s" [ArgS (EventType_String eventType)] ;;;
  (if decide (eventType = FileOpenEventType) then
     unmarshalPayload "open" Open set_Open OpenEvent_UnmarshalBinary data offset
   else if decide (eventType = FileMkdirEventType) then
     unmarshalPayload "mkdir" Mkdir set_Mkdir MkdirEvent_UnmarshalBinary data offset
   else if decide (eventType = FileRmdirEventType) then
     unmarshalPayload "rmdir" Rmdir set_Rmdir RmdirEvent_UnmarshalBinary data offset
   else if decide (eventType = FileUnlinkEventType) then
     unmarshalPayload "unlink" Unlink set_Unlink UnlinkEvent_UnmarshalBinary data offset
   else if decide (eventType = FileRenameEventType) then
     unmarshalPayload "rename" Rename set_Rename RenameEvent_UnmarshalBinary data offset
   else if decide (eventType = FileChmodEventType) then
     unmarshalPayload "chmod" Chmod set_Chmod ChmodEvent_UnmarshalBinary data offset
   else if decide (eventType = FileChownEventType) then
     unmarshalPayload "chown" Chown set_Chown ChownEvent_UnmarshalBinary data offset
   else if decide (eventType = FileUtimeEventType) then
     unmarshalPayload "utime" Utimes set_Utimes UtimesEvent_UnmarshalBinary data offset
   else if decide (eventType = FileLinkEventType) then
     unmarshalPayload "link" Link set_Link LinkEvent_UnmarshalBinary data offset
   else if decide (eventType = FileMountEventType) then
     unmarshalPayload "mount" Mount set_Mount MountEvent_UnmarshalBinary data offset ;;;
     ResolveMountPoint ;;;
     ResolveRoot ;;;
     Insert
   else if decide (eventType = FileUmountEventType) then
     unmarshalPayload "umount" Umount set_Umount UmountEvent_UnmarshalBinary data offset ;;;
     p <- getProbe ;;
     err <- Delete (MountID (Umount (event p))) ;;
     match err with
     | Some err =>
         logf ErrorLvl "failed to delete mount point %d from cache: %s"
           [ArgZ (MountID (Umount (event p))); ArgS err]
     | None => ret tt
     end
   else if decide (eventType = FileSetXAttrEventType) then
     unmarshalPayload "setxattr" SetXAttr set_SetXAttr SetXAttrEvent_UnmarshalBinary data offset
   else if decide (eventType = FileRemoveXAttrEventType) then
     unmarshalPayload "removexattr" RemoveXAttr set_RemoveXAttr RemoveXAttrEvent_UnmarshalBinary data offset
   else
     logf ErrorLvl "unsupported event type %d" [ArgN eventType] ;;;
     returns tt) ;;;
  EventsStats_CountEventType eventType 1 ;;;
  p <- getProbe ;;
  logf TraceLvl "Dispatching event %+v" [ArgE (event p)] ;;;
  DispatchEvent (event p)
  end).

(** [OnNewDiscarder] is called when a new discarder is found *)
Definition OnNewDiscarder {R} (rs : RuleSet) (event : Event) (field : string)
  : M R (option error) := func (
  p <- getProbe ;;
  if negb (EnableDiscarders (config p)) then returns None else
  logf TraceLvl "New discarder event %+v for field %s" [ArgE event; ArgS field] ;;;
  let '(eventType, err) := Event_GetFieldEventType event field in
  match err with
  | Some err => returns (Some err)
  | None =>
  forRange (default [] (onDiscardersFncs p !! eventType)) (λ fnc,
    let '(value, err) := Event_GetFieldValue event field in
    match err with
    | Some err => returns (Some err)
    | None =>
    let discarder := {| Field := field; DValue := value |} in
    emit (CallDiscarderFnc fnc discarder) ;;;
    err <- external (fnc rs event discarder) ;;
    match err with
    | Some err => returns (Some err)
    | None => ret tt
    end
    end) ;;;
  returns None
  end).

(** [ApplyFilterPolicy] is called when a passing policy for an event type is
    applied *)
Definition ApplyFilterPolicy {R} (eventType : string) (tableName : string)
    (mode : Z) (flags : Z) : M R (option error) := func (
  logf InfoLvl "Setting in-kernel filter policy to `%s` for `%s`"
    [ArgZ mode; ArgS eventType] ;;;
  table <- Map tableName ;;
  match table with
  | None =>
      returns (Some ("unable to find policy table `" +:+ tableName +:+ "`"))
  | Some table =>
      let policy := {| Mode := mode; Flags := flags |} in
      err <- Put table ZeroUint32MapItem policy ;;
      returns err
  end).

(** [ApplyApprovers] applies approvers *)
Definition ApplyApprovers {R} (eventType : string) (approvers : Approvers)
  : M R (option error) := func (
  s <- getState ;;
  match allApproversFncs s !! eventType with
  | None => returns None
  | Some fnc =>
      emit (CallApproversFnc fnc approvers) ;;;
      err <- external (fnc approvers) ;;
      match err with
      | Some e =>
          logf ErrorLvl
            "Error while adding approvers fallback in-kernel policy to `%s` for `%s`: %s"
            [ArgZ PolicyModeAccept; ArgS eventType; ArgS e]
      | None => ret tt
      end ;;;
      returns err
  end).

(** [SendStats] sends statistics about the probe to Datadog *)
Definition SendStats {R} (statsdClient : StatsdClient) : M R (option error) :=
  func (
  p <- getProbe ;;
  match syscallMonitor p with
  | Some sm =>
      emit CallSyscallSendStats ;;;
      err <- external (SyscallMonitor_SendStats sm statsdClient) ;;
      match err with
      | Some err => returns (Some err)
      | None => ret tt
      end
  | None => ret tt
  end ;;;
  lost <- EventsStats_GetAndResetLost ;;
  err <- Count statsdClient (MetricPrefix +:+ ".events.lost") lost [] ;;
  match err with
  | Some err => returns (Some err)
  | None => ret tt
  end ;;;
  let receivedEvents := MetricPrefix +:+ ".events.received" in
  p <- getProbe ;;
  forRange (seq 0 (length (PerEventType (eventsStats p)))) (λ i,
    if decide (i = 0%nat) then ret tt else
    let eventType := i in
    let tags := ["event_type:" +:+ EventType_String eventType] in
    value <- EventsStats_GetAndResetEventCount eventType ;;
    if decide (value > 0) then
      err <- Count statsdClient receivedEvents value tags ;;
      match err with
      | Some err => returns (Some err)
      | None => ret tt
      end
    else ret tt) ;;;
  returns None).

(** The nested map returned by [GetStats]. *)
Record Stats := {
  events_lost : Z;
  events_syscalls : option SyscallStats;
  per_event_type : gmap string Z;
}.

(** [GetStats] returns Stats according to the system-probe module format *)
Definition GetStats {R} : M R (Stats * option error) := func (
  p <- getProbe ;;
  r <- match syscallMonitor p with
       | Some sm =>
           emit CallSyscallGetStats ;;;
           external (λ w, (SyscallMonitor_GetStats sm w, w))
       | None => ret (None, None)
       end ;;
  let '(syscalls, err) := r in
  lost <- EventsStats_GetLost ;;
  perEventType <-
    forRangeAcc (seq 0 (length (PerEventType (eventsStats p)))) ∅
      (λ i (perEventType : gmap string Z),
         if decide (i = 0%nat) then ret perEventType else
         let eventType := i in
         value <- EventsStats_GetEventCount eventType ;;
         ret (<[EventType_String eventType := value]> perEventType)) ;;
  returns ({| events_lost := lost; events_syscalls := syscalls;
              per_event_type := perEventType |}, err)).

(** [init]: the registrations made when the package is loaded. *)
Definition init {R} : M R unit := func (
  λ s, (Val tt,
        set_allDiscarderFncs
          (<["unlink" := unlinkOnNewDiscarder]>
             (<["open" := openOnNewDiscarder]> (allDiscarderFncs s)))
          (set_allApproversFncs
             (<["open" := openOnNewApprovers]> (allApproversFncs s)) s))).

End Methods.

(** ** A concrete package and kernel

    A small instance of the external parts, used to run the methods on
    concrete buffers: one byte of header holding the tag, payloads that must
    not be empty, tables named by strings and a world that journals the
    calls made on it. *)
Module Fixture.

Definition set_Type' `{Schema} (t : nat) (e : Event) : Event :=
  {| Type' := t; Open := Open e; Mkdir := Mkdir e; Rmdir := Rmdir e;
     Unlink := Unlink e; Rename := Rename e; Chmod := Chmod e;
     Chown := Chown e; Utimes := Utimes e; Link := Link e; Mount := Mount e;
     Umount := Umount e; SetXAttr := SetXAttr e;
     RemoveXAttr := RemoveXAttr e; event_resolvers := event_resolvers e |}.

Definition eventTypeName (t : nat) : string :=
  nth t ["unknown"; "open"; "mkdir"; "rmdir"; "unlink"; "rename"; "chmod";
         "chown"; "utimes"; "link"; "mount"; "umount"; "setxattr";
         "removexattr"] "unknown".

#[export] Instance schema : Schema := {|
  Payload := list Byte.byte;
  payloadZero := [];
  Value := string;
  RuleSet := unit;
  Approvers := unit;
  FileOpenEventType := 1;
  FileMkdirEventType := 2;
  FileRmdirEventType := 3;
  FileUnlinkEventType := 4;
  FileRenameEventType := 5;
  FileChmodEventType := 6;
  FileChownEventType := 7;
  FileUtimeEventType := 8;
  FileLinkEventType := 9;
  FileMountEventType := 10;
  FileUmountEventType := 11;
  FileSetXAttrEventType := 12;
  FileRemoveXAttrEventType := 13;
  EventType_String := eventTypeName;
  PolicyModeAccept := 1;
|}.

(** The world journals the calls made on it, latest first. *)
#[export] Instance kernel : Kernel := {|
  W := list string;
  Manager := list string;
  lib_Map := string;
  Manager_GetMap := λ mgr name,
    if decide (name ∈ mgr) then (Some name, true, None)
    else (None, false, None);
  Map_Put := λ table key policy w, (None, ("put " +:+ table) :: w);
  StatsdClient := bool;
  Client_Count := λ up name value tags w,
    if up then (None, ("count " +:+ name) :: w)
    else (Some "statsd: client closed", w);
  SyscallMonitorT := unit;
  SyscallStats := unit;
  SyscallMonitor_SendStats := λ _ _ w, (None, w);
  SyscallMonitor_GetStats := λ _ _, (Some tt, None);
  ProbesSelector := string;
  NewDefaultOptions := [];
  SyscallMonitorSelectors := ["syscall_monitor"];
|}.

Definition decodeHeader (e : Event) (data : list Byte.byte)
  : Event * nat * option error :=
  match data with
  | [] => (e, 0%nat, Some "not enough data")
  | b :: _ => (set_Type' (Byte.to_nat b) e, 1%nat, None)
  end.

Definition decodePayload (x : list Byte.byte) (data : list Byte.byte)
  : list Byte.byte * nat * option error :=
  match data with
  | [] => (x, 0%nat, Some "not enough data")
  | _ => (data, length data, None)
  end.

Definition decodeMount (m : MountEvent) (data : list Byte.byte)
  : MountEvent * nat * option error :=
  match data with
  | id :: parent :: _ =>
      ({| NewMountID := Z.of_nat (Byte.to_nat id);
          ParentMountID := Z.of_nat (Byte.to_nat parent);
          NewDevice := NewDevice m; MountPointStr := MountPointStr m;
          RootStr := RootStr m |}, 2%nat, None)
  | _ => (m, 0%nat, Some "not enough data")
  end.

Definition decodeUmount (u : UmountEvent) (data : list Byte.byte)
  : UmountEvent * nat * option error :=
  match data with
  | id :: _ => ({| MountID := Z.of_nat (Byte.to_nat id) |}, 1%nat, None)
  | [] => (u, 0%nat, Some "not enough data")
  end.

Definition resolveMountPoint (r : Resolvers) (m : MountEvent) : MountEvent :=
  {| NewMountID := NewMountID m; ParentMountID := ParentMountID m;
     NewDevice := NewDevice m;
     MountPointStr :=
       match MountResolver r !! ParentMountID m with
       | Some parent => MountPointStr parent +:+ "/mnt"
       | None => "/mnt"
       end;
     RootStr := RootStr m |}.

Definition resolveRoot (r : Resolvers) (m : MountEvent) : MountEvent :=
  {| NewMountID := NewMountID m; ParentMountID := ParentMountID m;
     NewDevice := NewDevice m; MountPointStr := MountPointStr m;
     RootStr := "/" |}.

Definition fieldEventType (e : Event) (field : string)
  : string * option error :=
  if decide (field = "open.filename") then ("open", None)
  else if decide (field = "open.basename") then ("open", None)
  else ("", Some "field not found").

(** The value of "open.basename" cannot be read. *)
Definition fieldValue (e : Event) (field : string) : string * option error :=
  if decide (field = "open.filename") then ("/etc/passwd", None)
  else if decide (field = "open.basename") then ("", Some "value not readable")
  else ("", Some "field not found").

(** Registered functions: one that succeeds and one that fails. *)
Definition okDiscarder : onDiscarderFnc :=
  λ rs e d w, (None, "discard" :: w).

Definition failingDiscarder : onDiscarderFnc :=
  λ rs e d w, (Some "discarder table full", w).

Definition okApprovers : onApproversFnc :=
  λ a w, (None, "approve" :: w).

Definition failingApprovers : onApproversFnc :=
  λ a w, (Some "approver table full", w).

#[export] Instance package : Package := {|
  Event_UnmarshalBinary := decodeHeader;
  OpenEvent_UnmarshalBinary := decodePayload;
  MkdirEvent_UnmarshalBinary := decodePayload;
  RmdirEvent_UnmarshalBinary := decodePayload;
  UnlinkEvent_UnmarshalBinary := decodePayload;
  RenameEvent_UnmarshalBinary := decodePayload;
  ChmodEvent_UnmarshalBinary := decodePayload;
  ChownEvent_UnmarshalBinary := decodePayload;
  UtimesEvent_UnmarshalBinary := decodePayload;
  LinkEvent_UnmarshalBinary := decodePayload;
  MountEvent_UnmarshalBinary := decodeMount;
  UmountEvent_UnmarshalBinary := decodeUmount;
  SetXAttrEvent_UnmarshalBinary := decodePayload;
  RemoveXAttrEvent_UnmarshalBinary := decodePayload;
  MountEvent_ResolveMountPoint := resolveMountPoint;
  MountEvent_ResolveRoot := resolveRoot;
  Event_GetFieldEventType := fieldEventType;
  Event_GetFieldValue := fieldValue;
  openOnNewApprovers := okApprovers;
  openOnNewDiscarder := okDiscarder;
  unlinkOnNewDiscarder := okDiscarder;
|}.

Definition consumer : EventHandler :=
  {| HandleEvent := λ e w, ("event " +:+ eventTypeName (Type' e)) :: w |}.

(** A probe as [NewProbe] and [InitManager] leave it, with one policy
    table, fourteen counters and a registered consumer. *)
Definition probe0 : Probe :=
  {| manager := Some ["open_policy"];
     managerOptions := [];
     config := {| EnableKernelFilters := true; EnableDiscarders := true;
                  SyscallMonitor := false |};
     handler := Some consumer;
     resolvers := {| MountResolver := ∅ |};
     onDiscardersFncs := ∅;
     syscallMonitor := None;
     eventsStats := {| Lost := 0; PerEventType := replicate 14 0 |};
     event := eventZero |}.

Definition state0 : State :=
  {| probe := probe0; allApproversFncs := ∅; allDiscarderFncs := ∅;
     world := []; trace := [] |}.

Definition with_probe (p : Probe) : State := set_probe p state0.

(** Buffers: an open event, a mount of id 3 under parent 1, an unmount of
    id 3, a truncated open event and an unknown tag. *)
Definition openBuffer : list Byte.byte := [Byte.x01; Byte.x2f].
Definition mkdirBuffer : list Byte.byte := [Byte.x02; Byte.x2f].
Definition mountBuffer : list Byte.byte := [Byte.x0a; Byte.x03; Byte.x01].
Definition umountBuffer : list Byte.byte := [Byte.x0b; Byte.x03].
Definition truncatedBuffer : list Byte.byte := [Byte.x01].
Definition unknownBuffer : list Byte.byte := [Byte.x63; Byte.x00].

(** The mount of [mountBuffer] as decoded, with its mount point resolved,
    and with its root resolved too. *)
Definition mountRaw : MountEvent :=
  {| NewMountID := 3; ParentMountID := 1; NewDevice := 0;
     MountPointStr := ""; RootStr := "" |}.
Definition mountPointed : MountEvent :=
  {| NewMountID := 3; ParentMountID := 1; NewDevice := 0;
     MountPointStr := "/mnt"; RootStr := "" |}.
Definition mountResolved : MountEvent :=
  {| NewMountID := 3; ParentMountID := 1; NewDevice := 0;
     MountPointStr := "/mnt"; RootStr := "/" |}.

(** The event of [umountBuffer] as decoded. *)
Definition umountDecoded : Event :=
  set_Umount {| MountID := 3 |} (set_Type' 11 (set_event_resolvers true eventZero)).

(** A probe with kernel-side filtering disabled. *)
Definition noFilterState : State :=
  with_probe
    (Build_Probe (manager probe0) (managerOptions probe0)
       {| EnableKernelFilters := false; EnableDiscarders := true;
          SyscallMonitor := false |}
       (handler probe0) (resolvers probe0) (onDiscardersFncs probe0)
       (syscallMonitor probe0) (eventsStats probe0) (event probe0)).

(** A probe with two discarder functions registered for "open", of which
    the first fails. *)
Definition discarderState : State :=
  with_probe
    (set_onDiscardersFncs {["open" := [failingDiscarder; okDiscarder]]} probe0).

Definition openDiscarder : Discarder :=
  {| Field := "open.filename"; DValue := "/etc/passwd" |}.

(** A probe that has counted five open events and two mkdir events. *)
Definition countedState : State :=
  with_probe
    (set_eventsStats
       {| Lost := 0; PerEventType := [0; 5; 2; 0; 0; 0; 0; 0; 0; 0; 0; 0; 0; 0] |}
       probe0).

(** The probe once the mount of [mountBuffer] is cached. *)
Definition mountedState : State := (handleEvent 0 mountBuffer state0).2.

(** A probe with discarders disabled. *)
Definition disabledState : State :=
  with_probe
    (set_config {| EnableKernelFilters := true; EnableDiscarders := false;
                   SyscallMonitor := false |} probe0).

(** The state once the package is loaded: [init] has run. *)
Definition loadedState : State := (init (R := unit) state0).2.

(** A sequence of buffers: two open events, one mkdir event and one buffer
    that is dropped. *)
Definition stream : list (list Byte.byte) :=
  [openBuffer; unknownBuffer; openBuffer; mkdirBuffer].

End Fixture.

(** ** What a trace shows *)

Section Observations.
Context `{Schema, Kernel, !Package}.

(** The increments of per-type counters, in order. *)
Definition countedEventTypes (t : list Action) : list (nat * Z) :=
  omap (λ a, match a with
             | CallCountEventType eventType count => Some (eventType, count)
             | _ => None
             end) t.

(** The invocations of a consumer, in order. *)
Definition handlerCalls (t : list Action) : list (EventHandler * Event) :=
  omap (λ a, match a with
             | CallHandleEvent h e => Some (h, e)
             | _ => None
             end) t.

(** The calls to the resolution of a mount and to the mount cache, in
    order. *)
Definition cacheCalls (t : list Action) : list Action :=
  omap (λ a, match a with
             | CallResolveMountPoint _ | CallResolveRoot _
             | CallInsert _ | CallDelete _ => Some a
             | _ => None
             end) t.

(** The invocations of registered discarder functions, in order. *)
Definition discarderCalls (t : list Action)
  : list (onDiscarderFnc * Discarder) :=
  omap (λ a, match a with
             | CallDiscarderFnc fnc d => Some (fnc, d)
             | _ => None
             end) t.

(** The invocations of registered approver functions, in order. *)
Definition approversCalls (t : list Action)
  : list (onApproversFnc * Approvers) :=
  omap (λ a, match a with
             | CallApproversFnc fnc a => Some (fnc, a)
             | _ => None
             end) t.

(** The writes to kernel tables, in order. *)
Definition putCalls (t : list Action) : list (lib_Map * Z * FilterPolicy) :=
  omap (λ a, match a with
             | CallPut table key policy => Some (table, key, policy)
             | _ => None
             end) t.

(** The discarder engine in the words of the spec: the registered functions
    are invoked in registration order and the first failure aborts the
    remaining invocations and is the result.  Returns the functions invoked,
    the result, and the world they leave. *)
Fixpoint notifyInOrder (fncs : list onDiscarderFnc) (rs : RuleSet)
    (ev : Event) (d : Discarder) (w : W)
  : list onDiscarderFnc * option error * W :=
  match fncs with
  | [] => ([], None, w)
  | fnc :: fncs' =>
      match fnc rs ev d w with
      | (Some err, w') => ([fnc], Some err, w')
      | (None, w') =>
          let '(called, err, w'') := notifyInOrder fncs' rs ev d w' in
          (fnc :: called, err, w'')
      end
  end.

(** The destructive reads of per-type counters, in order. *)
Definition resetCalls (t : list Action) : list nat :=
  omap (λ a, match a with
             | CallGetAndResetEventCount eventType => Some eventType
             | _ => None
             end) t.

(** The non-destructive reads of per-type counters, in order. *)
Definition readCalls (t : list Action) : list nat :=
  omap (λ a, match a with
             | CallGetEventCount eventType => Some eventType
             | _ => None
             end) t.

(** The metrics handed to the statsd client, in order. *)
Definition countCalls (t : list Action) : list (string * Z * list string) :=
  omap (λ a, match a with
             | CallCount name value tags => Some (name, value, tags)
             | _ => None
             end) t.

(** The metric of the counter of one event type, when it is positive. *)
Definition receivedMetric (counters : list Z) (i : nat)
  : option (string * Z * list string) :=
  let value := default 0 (counters !! i) in
  if decide (value > 0)
  then Some (MetricPrefix +:+ ".events.received", value,
             ["event_type:" +:+ EventType_String i])
  else None.

(** The calls of one turn of the loop of [SendStats]. *)
Definition exportOf (counters : list Z) (i : nat) : list Action :=
  CallGetAndResetEventCount i ::
  match receivedMetric counters i with
  | Some (name, value, tags) => [CallCount name value tags]
  | None => []
  end.

(** The counters once those of [done] are reset. *)
Definition resetAll (done : list nat) (counters : list Z) : list Z :=
  foldl (λ c i, alter (λ _, 0) i c) counters done.

(** The per-event-type map of [GetStats] for given counters: one entry per
    ordinal from 1 on, later ordinals overwriting earlier ones of the same
    name. *)
Definition perEventTypeOf (counters : list Z) : gmap string Z :=
  foldl (λ m i, <[EventType_String i := default 0 (counters !! i)]> m) ∅
    (seq 1 (length counters - 1)).

(** The container the decoders are run on: [zeroEvent] leaves the zero event
    bound to the probe's resolvers. *)
Definition freshEvent : Event := set_event_resolvers true eventZero.

(** The error of the variant decoder that the switch of [handleEvent]
    selects for a tag; [None] when no case matches the tag. *)
Definition variantError (eventType : nat) (e : Event)
    (payload : list Byte.byte) : option (option error) :=
  if decide (eventType = FileOpenEventType) then
    Some (OpenEvent_UnmarshalBinary (Open e) payload).2
  else if decide (eventType = FileMkdirEventType) then
    Some (MkdirEvent_UnmarshalBinary (Mkdir e) payload).2
  else if decide (eventType = FileRmdirEventType) then
    Some (RmdirEvent_UnmarshalBinary (Rmdir e) payload).2
  else if decide (eventType = FileUnlinkEventType) then
    Some (UnlinkEvent_UnmarshalBinary (Unlink e) payload).2
  else if decide (eventType = FileRenameEventType) then
    Some (RenameEvent_UnmarshalBinary (Rename e) payload).2
  else if decide (eventType = FileChmodEventType) then
    Some (ChmodEvent_UnmarshalBinary (Chmod e) payload).2
  else if decide (eventType = FileChownEventType) then
    Some (ChownEvent_UnmarshalBinary (Chown e) payload).2
  else if decide (eventType = FileUtimeEventType) then
    Some (UtimesEvent_UnmarshalBinary (Utimes e) payload).2
  else if decide (eventType = FileLinkEventType) then
    Some (LinkEvent_UnmarshalBinary (Link e) payload).2
  else if decide (eventType = FileMountEventType) then
    Some (MountEvent_UnmarshalBinary (Mount e) payload).2
  else if decide (eventType = FileUmountEventType) then
    Some (UmountEvent_UnmarshalBinary (Umount e) payload).2
  else if decide (eventType = FileSetXAttrEventType) then
    Some (SetXAttrEvent_UnmarshalBinary (SetXAttr e) payload).2
  else if decide (eventType = FileRemoveXAttrEventType) then
    Some (RemoveXAttrEvent_UnmarshalBinary (RemoveXAttr e) payload).2
  else None.

(** Decoding succeeds on a buffer, and yields an event of type [t], when the
    header decoder succeeds and reads the tag [t], the payload starts inside
    the buffer, [t] is the tag of a case of the switch and the decoder of
    that case succeeds on the payload. *)
Definition decodedType (data : list Byte.byte) : option nat :=
  let '(e, read, err) := Event_UnmarshalBinary freshEvent data in
  match err with
  | Some _ => None
  | None =>
      match variantError (Type' e) e (drop read data) with
      | Some None =>
          if decide (read ≤ length data)%nat then Some (Type' e) else None
      | _ => None
      end
  end.

(** The switch of [handleEvent] on its own. *)
Definition switchOf (eventType : nat) (data : list Byte.byte) (offset : nat)
  : M unit unit :=
  (if decide (eventType = FileOpenEventType) then
     unmarshalPayload "open" Open set_Open OpenEvent_UnmarshalBinary data offset
   else if decide (eventType = FileMkdirEventType) then
     unmarshalPayload "mkdir" Mkdir set_Mkdir MkdirEvent_UnmarshalBinary data offset
   else if decide (eventType = FileRmdirEventType) then
     unmarshalPayload "rmdir" Rmdir set_Rmdir RmdirEvent_UnmarshalBinary data offset
   else if decide (eventType = FileUnlinkEventType) then
     unmarshalPayload "unlink" Unlink set_Unlink UnlinkEvent_UnmarshalBinary data offset
   else if decide (eventType = FileRenameEventType) then
     unmarshalPayload "rename" Rename set_Rename RenameEvent_UnmarshalBinary data offset
   else if decide (eventType = FileChmodEventType) then
     unmarshalPayload "chmod" Chmod set_Chmod ChmodEvent_UnmarshalBinary data offset
   else if decide (eventType = FileChownEventType) then
     unmarshalPayload "chown" Chown set_Chown ChownEvent_UnmarshalBinary data offset
   else if decide (eventType = FileUtimeEventType) then
     unmarshalPayload "utime" Utimes set_Utimes UtimesEvent_UnmarshalBinary data offset
   else if decide (eventType = FileLinkEventType) then
     unmarshalPayload "link" Link set_Link LinkEvent_UnmarshalBinary data offset
   else if decide (eventType = FileMountEventType) then
     unmarshalPayload "mount" Mount set_Mount MountEvent_UnmarshalBinary data offset ;;;
     ResolveMountPoint ;;;
     ResolveRoot ;;;
     Insert
   else if decide (eventType = FileUmountEventType) then
     unmarshalPayload "umount" Umount set_Umount UmountEvent_UnmarshalBinary data offset ;;;
     p <- getProbe ;;
     err <- Delete (MountID (Umount (event p))) ;;
     match err with
     | Some err =>
         logf ErrorLvl "failed to delete mount point %d from cache: %s"
           [ArgZ (MountID (Umount (event p))); ArgS err]
     | None => ret tt
     end
   else if decide (eventType = FileSetXAttrEventType) then
     unmarshalPayload "setxattr" SetXAttr set_SetXAttr SetXAttrEvent_UnmarshalBinary data offset
   else if decide (eventType = FileRemoveXAttrEventType) then
     unmarshalPayload "removexattr" RemoveXAttr set_RemoveXAttr RemoveXAttrEvent_UnmarshalBinary data offset
   else
     logf ErrorLvl "unsupported event type %d" [ArgN eventType] ;;;
     returns tt)%go.

(** The state after [zeroEvent] and the header decoder. *)
Definition afterHeader (e : Event) (s : State) : State :=
  set_probe (set_event e (probe s)) s.

Definition addTrace (t : list Action) (s : State) : State :=
  set_trace (trace s ++ t) s.

(** What is left of [handleEvent] after a successful switch. *)
Definition countAndDispatch (eventType : nat) : M unit unit :=
  (EventsStats_CountEventType eventType 1 ;;;
   p <- getProbe ;;
   logf TraceLvl "Dispatching event %+v" [ArgE (event p)] ;;;
   DispatchEvent (event p))%go.

(** What the claims about counters and the consumer observe of a state. *)
Definition observed (s : State) :=
  (eventsStats (probe s), handler (probe s), world s,
   countedEventTypes (trace s), handlerCalls (trace s)).

(** The body of the loop of [SendStats]. *)
Definition sendBody (statsdClient : StatsdClient) (i : nat)
  : M (option error) unit :=
  (if decide (i = 0%nat) then ret tt else
   let eventType := i in
   let tags := ["event_type:" +:+ EventType_String eventType] in
   value <- EventsStats_GetAndResetEventCount eventType ;;
   if decide (value > 0) then
     err <- Count statsdClient (MetricPrefix +:+ ".events.received") value tags ;;
     match err with
     | Some err => returns (Some err)
     | None => ret tt
     end
   else ret tt)%go.

(** What the loop of [SendStats] leaves after the ordinals [done]. *)
Definition loopPost (l : list nat) (s : State) (done : list nat)
    (r : Res (option error) unit * State) : Prop :=
  let old := PerEventType (eventsStats (probe s)) in
  done `prefix_of` l ∧
  (r.1 = Val tt ∧ done = l ∨ ∃ err, r.1 = Return (Some err)) ∧
  trace r.2 = trace s ++ flat_map (exportOf old) done ∧
  PerEventType (eventsStats (probe r.2)) = resetAll done old ∧
  Lost (eventsStats (probe r.2)) = Lost (eventsStats (probe s)).

(** [wp m s Q]: running [m] from [s] gives an outcome and a state that
    satisfy [Q]. *)
Definition wp {R A} (m : M R A) (s : State)
    (Q : Res R A → State → Prop) : Prop :=
  Q (m s).1 (m s).2.
Global Arguments wp : simpl never.

Definition lostMetric (s : State) : string * Z * list string :=
  (MetricPrefix +:+ ".events.lost", Lost (eventsStats (probe s)), []).

(** The body of the loop of [GetStats]. *)
Definition readBody (i : nat) (perEventType : gmap string Z)
  : M (Stats * option error) (gmap string Z) :=
  (if decide (i = 0%nat) then ret perEventType else
   let eventType := i in
   value <- EventsStats_GetEventCount eventType ;;
   ret (<[EventType_String eventType := value]> perEventType))%go.

End Observations.

(** ** More observations *)

Section Coverage.
Context `{Schema, Kernel, !Package}.

(** What a callback of the event source has no business with: the manager
    and its options, the configuration, the consumer, the registries and the
    syscall monitor. *)
Definition setup (s : State) :=
  (manager (probe s), managerOptions (probe s), config (probe s),
   handler (probe s), onDiscardersFncs (probe s), syscallMonitor (probe s),
   allApproversFncs s, allDiscarderFncs s).

(** The errors logged, in order. *)
Definition errorLogs (t : list Action) : list (string * list LogArg) :=
  omap (λ a, match a with
             | Log ErrorLvl format args => Some (format, args)
             | _ => None
             end) t.

(** The calls [handleEvent] may make: logs, the resolution and the cache of
    mounts, the counter of an event type and the consumer. *)
Definition isDispatcherCall (a : Action) : bool :=
  match a with
  | Log _ _ _ | CallResolveMountPoint _ | CallResolveRoot _ | CallInsert _
  | CallDelete _ | CallCountEventType _ _ | CallHandleEvent _ _ => true
  | _ => false
  end.

(** The calls of the switch of [handleEvent] that falls through: none for a
    case that only decodes, the resolutions and the insert of a mount, the
    delete of an unmount with the log of its failure. *)
Inductive switchCalls (eventType : nat) (r r' : Resolvers)
  : list Action → Prop :=
| switchCalls_decode : r' = r → switchCalls eventType r r' []
| switchCalls_mount m0 :
    eventType = FileMountEventType →
    let m1 := MountEvent_ResolveMountPoint r m0 in
    let m2 := MountEvent_ResolveRoot r m1 in
    r' = MountResolver_Insert m2 r →
    switchCalls eventType r r'
      [CallResolveMountPoint m0; CallResolveRoot m1; CallInsert m2]
| switchCalls_umount mountID :
    eventType = FileUmountEventType →
    r' = (MountResolver_Delete mountID r).2 →
    switchCalls eventType r r'
      (CallDelete mountID ::
       match (MountResolver_Delete mountID r).1 with
       | Some err =>
           [Log ErrorLvl "failed to delete mount point %d from cache: %s"
              [ArgZ mountID; ArgS err]]
       | None => []
       end).

(** What the switch of [handleEvent] leaves: the statistics, the world and
    the setup as they were, and calls according to its outcome. *)
Definition switchPost (eventType : nat) (data : list Byte.byte) (offset : nat)
    (s : State) (r : Res unit unit * State) : Prop :=
  setup r.2 = setup s ∧
  eventsStats (probe r.2) = eventsStats (probe s) ∧
  world r.2 = world s ∧
  ∃ t,
    trace r.2 = trace s ++ t ∧
    match r.1 with
    | Val _ =>
        switchCalls eventType (resolvers (probe s)) (resolvers (probe r.2)) t
    | Return _ =>
        resolvers (probe r.2) = resolvers (probe s) ∧
        (eventType ∈ supportedEventTypes → (offset ≤ length data)%nat) ∧
        ∃ format args, t = [Log ErrorLvl format args]
    | Panic =>
        t = [] ∧ resolvers (probe r.2) = resolvers (probe s) ∧
        eventType ∈ supportedEventTypes ∧ ¬ (offset ≤ length data)%nat
    end.

(** The callbacks for a sequence of buffers, one after the other: a panic
    of one callback ends the sequence. *)
Definition handleEvents (CPU : Z) (buffers : list (list Byte.byte))
  : M unit unit :=
  forRange buffers (handleEvent CPU).

(** The number of buffers of a sequence that decode to an event type. *)
Definition decodedCount (eventType : nat) (buffers : list (list Byte.byte))
  : nat :=
  length (filter (λ data, decodedType data = Some eventType) buffers).

(** The export of the per-type counters in the words of the claim: the
    counters of the ordinals are read and reset in order, a positive value
    is handed to the statsd client, and the first submission that fails
    ends the export with its error.  Returns the ordinals read, the result
    and the world the submissions leave. *)
Fixpoint exportInOrder (statsdClient : StatsdClient) (counters : list Z)
    (l : list nat) (w : W) : list nat * option error * W :=
  match l with
  | [] => ([], None, w)
  | i :: l' =>
      match receivedMetric counters i with
      | None =>
          let '(done, err, w') := exportInOrder statsdClient counters l' w in
          (i :: done, err, w')
      | Some (name, value, tags) =>
          match Client_Count statsdClient name value tags w with
          | (Some err, w') => ([i], Some err, w')
          | (None, w') =>
              let '(done, err, w'') :=
                exportInOrder statsdClient counters l' w' in
              (i :: done, err, w'')
          end
      end
  end.

(** What [SendStats] leaves, told by the results of the submissions. *)
Definition exportPost (R : Type) (statsdClient : StatsdClient) (s : State)
    (res : Res R (option error)) (s' : State) : Prop :=
  let old := PerEventType (eventsStats (probe s)) in
  let monitor :=
    match syscallMonitor (probe s) with
    | Some sm => SyscallMonitor_SendStats sm statsdClient (world s)
    | None => (None, world s)
    end in
  let sub := Client_Count statsdClient (MetricPrefix +:+ ".events.lost")
               (Lost (eventsStats (probe s))) [] monitor.2 in
  let n := exportInOrder statsdClient old (seq 1 (length old - 1)) sub.2 in
  let pre :=
    match syscallMonitor (probe s) with
    | Some _ => [CallSyscallSendStats]
    | None => []
    end
    ++ [CallGetAndResetLost;
        CallCount (MetricPrefix +:+ ".events.lost")
          (Lost (eventsStats (probe s))) []] in
  match monitor.1 with
  | Some err =>
      res = Val (Some err) ∧
      trace s' = trace s ++ [CallSyscallSendStats] ∧
      PerEventType (eventsStats (probe s')) = old ∧
      world s' = monitor.2
  | None =>
      match sub.1 with
      | Some err =>
          res = Val (Some err) ∧
          trace s' = trace s ++ pre ∧
          PerEventType (eventsStats (probe s')) = old ∧
          world s' = sub.2
      | None =>
          res = Val n.1.2 ∧
          trace s' = trace s ++ pre ++ flat_map (exportOf old) n.1.1 ∧
          PerEventType (eventsStats (probe s')) = resetAll n.1.1 old ∧
          world s' = n.2
      end
  end.

(** What [SendStats] does with the lost counter once the syscall monitor
    has sent its statistics; [w0] is the world the lost metric is submitted
    in. *)
Definition lostPost (R : Type) (statsdClient : StatsdClient) (s : State)
    (w0 : W) (res : Res R (option error)) (s' : State) : Prop :=
  let sub := Client_Count statsdClient (MetricPrefix +:+ ".events.lost")
               (Lost (eventsStats (probe s))) [] w0 in
  Lost (eventsStats (probe s')) = 0 ∧
  (∃ rest, countCalls (trace s') = countCalls (trace s) ++ lostMetric s :: rest) ∧
  (∀ err, sub.1 = Some err →
          res = Val (Some err) ∧
          PerEventType (eventsStats (probe s'))
          = PerEventType (eventsStats (probe s)) ∧
          countCalls (trace s') = countCalls (trace s) ++ [lostMetric s] ∧
          world s' = sub.2).

End Coverage.

(** ** Reasoning about runs *)

Section Reasoning.
Context `{Schema, Kernel}.

Lemma wp_bind {R A B} (m : M R A) (k : A → M R B) s Q :
  wp m s (λ r s', match r with
                  | Val a => wp (k a) s' Q
                  | Return x => Q (Return x) s'
                  | Panic => Q Panic s'
                  end) →
  wp (bind m k) s Q.
Proof. unfold wp, bind. by destruct (m s) as [[a|x|] s']. Qed.

Lemma wp_func {R R'} (body : M R R) s (Q : Res R' R → State → Prop) :
  wp body s (λ r s', match r with
                     | Val x | Return x => Q (Val x) s'
                     | Panic => Q Panic s'
                     end) →
  wp (func body) s Q.
Proof. unfold wp, func. by destruct (body s) as [[a|x|] s']. Qed.

Lemma wp_mono {R A} (m : M R A) s (Q Q' : Res R A → State → Prop) :
  wp m s Q → (∀ r s', Q r s' → Q' r s') → wp m s Q'.
Proof. unfold wp. auto. Qed.

Lemma wp_ret {R A} (a : A) s (Q : Res R A → State → Prop) :
  Q (Val a) s → wp (ret a) s Q.
Proof. done. Qed.

Lemma wp_returns {R A} (x : R) s (Q : Res R A → State → Prop) :
  Q (Return x) s → wp (returns x) s Q.
Proof. done. Qed.

Lemma wp_getProbe {R} s (Q : Res R Probe → State → Prop) :
  Q (Val (probe s)) s → wp getProbe s Q.
Proof. done. Qed.

Lemma wp_emit {R} a s (Q : Res R unit → State → Prop) :
  Q (Val tt) (set_trace (trace s ++ [a]) s) → wp (emit a) s Q.
Proof. done. Qed.

Lemma wp_modifyProbe {R} f s (Q : Res R unit → State → Prop) :
  Q (Val tt) (set_probe (f (probe s)) s) → wp (modifyProbe f) s Q.
Proof. done. Qed.

Lemma wp_external {R A} (f : W → A * W) s (Q : Res R A → State → Prop) :
  Q (Val (f (world s)).1) (set_world (f (world s)).2 s) →
  wp (external f) s Q.
Proof. unfold wp, external. by destruct (f (world s)). Qed.

End Reasoning.

Ltac wp_step :=
  lazymatch goal with
  | |- wp (bind _ _) _ _ => apply wp_bind
  | |- wp (func _) _ _ => apply wp_func
  | |- wp (ret _) _ _ => apply wp_ret
  | |- wp (returns _) _ _ => apply wp_returns
  | |- wp getProbe _ _ => apply wp_getProbe
  | |- wp (emit _) _ _ => apply wp_emit
  | |- wp (logf _ _ _) _ _ => unfold logf; apply wp_emit
  | |- wp (modifyProbe _) _ _ => apply wp_modifyProbe
  | |- wp (external _) _ _ => apply wp_external
  end; cbn beta iota.

(** ** The dispatcher *)

Section Dispatcher.
Context `{Schema, Kernel, !Package}.

Lemma countedEventTypes_app (t1 t2 : list Action) :
  countedEventTypes (t1 ++ t2) = countedEventTypes t1 ++ countedEventTypes t2.
Proof. apply omap_app. Qed.

Lemma handlerCalls_app (t1 t2 : list Action) :
  handlerCalls (t1 ++ t2) = handlerCalls t1 ++ handlerCalls t2.
Proof. apply omap_app. Qed.

Lemma handleEvent_unfold CPU data s :
  handleEvent CPU data s =
  let '(e, read, err) := Event_UnmarshalBinary freshEvent data in
  match err with
  | Some err =>
      (Val tt, addTrace [Log ErrorLvl "failed to decode event: %s" [ArgS err]]
                 (afterHeader e s))
  | None =>
      func (bind (switchOf (Type' e) data read)
                 (λ _, countAndDispatch (Type' e)))
        (addTrace [Log TraceLvl "Decoding event %s"
                     [ArgS (EventType_String (Type' e))]]
           (afterHeader e s))
  end.
Proof.
  unfold handleEvent, func at 1, bind at 1, zeroEvent, func at 1, bind at 1.
  unfold modifyProbe. cbn [fst snd].
  unfold bind at 1, unmarshal, bind at 1, getProbe.
  cbn [probe set_probe event set_event].
  fold freshEvent.
  destruct (Event_UnmarshalBinary freshEvent data) as [[e read] [err|]].
  - reflexivity.
  - reflexivity.
Qed.

Lemma unmarshalPayload_run {P} name (get : Event → P) set dec data offset s :
  unmarshalPayload name get set dec data offset s =
  match slice_from data offset with
  | None => (Panic, s)
  | Some d =>
      let r := dec (get (event (probe s))) d in
      let s1 := afterHeader (set r.1.1 (event (probe s))) s in
      match r.2 with
      | Some err =>
          (Return tt,
           addTrace [Log ErrorLvl
                       ("failed to decode " +:+ name
                          +:+ " event: %s (offset %d, len %d)")
                       [ArgS err; ArgN offset; ArgN (length data)]] s1)
      | None => (Val tt, s1)
      end
  end.
Proof.
  unfold unmarshalPayload, bind at 1, slice.
  destruct (slice_from data offset) as [d|]; [|reflexivity].
  unfold ret at 1, bind at 1, unmarshal, bind at 1, getProbe, onField.
  destruct (dec (get (event (probe s))) d) as [[x n] [err|]]; reflexivity.
Qed.

Lemma observed_log level format args e s :
  observed (addTrace [Log level format args] (afterHeader e s)) = observed s.
Proof.
  unfold observed, addTrace, afterHeader.
  cbn [trace probe world eventsStats handler set_trace set_probe set_event].
  rewrite countedEventTypes_app, handlerCalls_app. cbn.
  by rewrite !app_nil_r.
Qed.

(** A case that only decodes changes the event container and the log. *)
Lemma unmarshalPayload_observed {P} name (get : Event → P) set dec data offset s :
  (∀ x e, Type' (set x e) = Type' e) →
  let r := unmarshalPayload name get set dec data offset s in
  observed r.2 = observed s ∧
  Type' (event (probe r.2)) = Type' (event (probe s)) ∧
  (r.1 = Val tt ↔
     (dec (get (event (probe s))) (drop offset data)).2 = None
     ∧ (offset ≤ length data)%nat).
Proof.
  intros Hset r. subst r. rewrite unmarshalPayload_run. unfold slice_from.
  case_decide.
  - cbn zeta.
    destruct (dec (get (event (probe s))) (drop offset data)) as [[x n] [err|]];
      cbn [fst snd].
    + rewrite observed_log. repeat split; try done.
      * apply Hset.
      * by intros [? _].
    + repeat split; try done. apply Hset.
  - repeat split; try done. intros [_ ?]. lia.
Qed.

Lemma mount_case_run data offset s :
  (unmarshalPayload "mount" Mount set_Mount MountEvent_UnmarshalBinary data offset ;;;
   ResolveMountPoint ;;; ResolveRoot ;;; Insert)%go s =
  match slice_from data offset with
  | None => (Panic, s)
  | Some d =>
      let r := MountEvent_UnmarshalBinary (Mount (event (probe s))) d in
      let s1 := afterHeader (set_Mount r.1.1 (event (probe s))) s in
      match r.2 with
      | Some err =>
          (Return tt,
           addTrace [Log ErrorLvl
                       "failed to decode mount event: %s (offset %d, len %d)"
                       [ArgS err; ArgN offset; ArgN (length data)]] s1)
      | None =>
          let m0 := r.1.1 in
          let m1 := MountEvent_ResolveMountPoint (resolvers (probe s)) m0 in
          let m2 := MountEvent_ResolveRoot (resolvers (probe s)) m1 in
          (Val tt,
           set_probe
             (set_resolvers (MountResolver_Insert m2 (resolvers (probe s)))
                (set_event (set_Mount m2 (event (probe s))) (probe s)))
             (addTrace [CallResolveMountPoint m0; CallResolveRoot m1;
                        CallInsert m2] s))
      end
  end.
Proof.
  unfold bind at 1. rewrite unmarshalPayload_run.
  destruct (slice_from data offset) as [d|]; [|reflexivity].
  cbn zeta.
  destruct (MountEvent_UnmarshalBinary (Mount (event (probe s))) d)
    as [[m n] [err|]]; cbn [fst snd]; [reflexivity|].
  unfold bind, ResolveMountPoint, ResolveRoot, Insert, bind, getProbe, emit,
    modifyProbe, addTrace, afterHeader.
  cbn. rewrite <- !app_assoc. reflexivity.
Qed.

Lemma umount_case_run data offset s :
  (unmarshalPayload "umount" Umount set_Umount UmountEvent_UnmarshalBinary data offset ;;;
   p <- getProbe ;;
   err <- Delete (MountID (Umount (event p))) ;;
   match err with
   | Some err =>
       logf ErrorLvl "failed to delete mount point %d from cache: %s"
         [ArgZ (MountID (Umount (event p))); ArgS err]
   | None => ret tt
   end)%go s =
  match slice_from data offset with
  | None => (Panic, s)
  | Some d =>
      let r := UmountEvent_UnmarshalBinary (Umount (event (probe s))) d in
      let s1 := afterHeader (set_Umount r.1.1 (event (probe s))) s in
      match r.2 with
      | Some err =>
          (Return tt,
           addTrace [Log ErrorLvl
                       "failed to decode umount event: %s (offset %d, len %d)"
                       [ArgS err; ArgN offset; ArgN (length data)]] s1)
      | None =>
          let id := MountID r.1.1 in
          let d := MountResolver_Delete id (resolvers (probe s)) in
          (Val tt,
           set_probe
             (set_resolvers d.2
                (set_event (set_Umount r.1.1 (event (probe s))) (probe s)))
             (addTrace
                (CallDelete id ::
                 match d.1 with
                 | Some err =>
                     [Log ErrorLvl
                        "failed to delete mount point %d from cache: %s"
                        [ArgZ id; ArgS err]]
                 | None => []
                 end) s))
      end
  end.
Proof.
  unfold bind at 1. rewrite unmarshalPayload_run.
  destruct (slice_from data offset) as [d|]; [|reflexivity].
  cbn zeta.
  destruct (UmountEvent_UnmarshalBinary (Umount (event (probe s))) d)
    as [[u n] [err|]]; cbn [fst snd]; [reflexivity|].
  unfold bind, Delete, bind, getProbe, emit, modifyProbe, addTrace, afterHeader.
  cbn.
  destruct (MountResolver_Delete (MountID u) (resolvers (probe s)))
    as [[err|] r]; cbn.
  - unfold logf, emit. cbn. rewrite <- !app_assoc. reflexivity.
  - reflexivity.
Qed.

Ltac observe :=
  unfold observed, addTrace, afterHeader;
  cbn [trace probe world eventsStats handler event set_trace set_probe
       set_event set_resolvers set_eventsStats set_world fst snd];
  rewrite ?countedEventTypes_app, ?handlerCalls_app; cbn;
  rewrite ?app_nil_r.

(** The switch leaves the counters, the consumer and the world alone, keeps
    the tag, and falls through exactly when the selected decoder succeeds
    on a payload that starts inside the buffer. *)
Lemma switchOf_observed eventType data offset s :
  let r := switchOf eventType data offset s in
  observed r.2 = observed s ∧
  Type' (event (probe r.2)) = Type' (event (probe s)) ∧
  (r.1 = Val tt ↔
     variantError eventType (event (probe s)) (drop offset data) = Some None
     ∧ (offset ≤ length data)%nat).
Proof.
  unfold switchOf, variantError.
  repeat case_decide;
    try (lazymatch goal with
         | |- context [unmarshalPayload ?n ?g ?st ?d data offset s] =>
             pose proof (unmarshalPayload_observed n g st d data offset s)
               as Hp;
             cbn zeta in Hp; destruct Hp as (Ho & Ht & Hv); [done|]
         end;
         cbn zeta; split; [done|split; [done|]];
         rewrite Hv; split; intros [Hr ?]; (split; [congruence|done])).
  - (* mount *)
    cbn zeta. rewrite mount_case_run. unfold slice_from. case_decide.
    + cbn zeta.
      destruct (MountEvent_UnmarshalBinary (Mount (event (probe s)))
                  (drop offset data)) as [[m n] [err|]]; cbn [fst snd].
      * rewrite observed_log. repeat split; try done. by intros [? _].
      * repeat split; try done. observe. done.
    + repeat split; try done. intros [_ ?]. lia.
  - (* umount *)
    cbn zeta. rewrite umount_case_run. unfold slice_from. case_decide.
    + cbn zeta.
      destruct (UmountEvent_UnmarshalBinary (Umount (event (probe s)))
                  (drop offset data)) as [[u n] [err|]]; cbn [fst snd].
      * rewrite observed_log. repeat split; try done. by intros [? _].
      * repeat split; try done.
        destruct (MountResolver_Delete (MountID u) (resolvers (probe s)))
          as [[e|] r]; observe; done.
    + repeat split; try done. intros [_ ?]. lia.
  - (* default *)
    cbn zeta. unfold bind, logf, emit, returns. cbn [fst snd].
    repeat split; try done.
    + observe. done.
    + by intros [? _].
Qed.

Lemma countAndDispatch_run eventType s :
  countAndDispatch eventType s =
  (Val tt,
   let p := set_eventsStats (CountEventType eventType 1 (eventsStats (probe s)))
              (probe s) in
   let t := [CallCountEventType eventType 1;
             Log TraceLvl "Dispatching event %+v" [ArgE (event (probe s))]] in
   match handler (probe s) with
   | Some h =>
       set_world (HandleEvent h (event (probe s)) (world s))
         (addTrace (t ++ [CallHandleEvent h (event (probe s))]) (set_probe p s))
   | None => addTrace t (set_probe p s)
   end).
Proof.
  unfold countAndDispatch, EventsStats_CountEventType, DispatchEvent, func,
    bind, getProbe, logf, emit, modifyProbe, external, ret, addTrace.
  cbn [fst snd probe set_probe set_trace handler set_eventsStats trace event].
  destruct (handler (probe s)) as [h|]; cbn.
  - rewrite <- !app_assoc. reflexivity.
  - rewrite <- !app_assoc. reflexivity.
Qed.


Lemma supported_distinct (i j x y : nat) :
  NoDup supportedEventTypes →
  supportedEventTypes !! i = Some x →
  supportedEventTypes !! j = Some y →
  i ≠ j → x ≠ y.
Proof.
  intros Hnd Hi Hj Hne ->. apply Hne. eapply NoDup_lookup; eauto.
Qed.

Ltac other_case Hnd i j :=
  rewrite decide_False
    by (eapply (supported_distinct i j); [exact Hnd|reflexivity|reflexivity|lia]).

Lemma switchOf_mount data offset :
  NoDup supportedEventTypes →
  switchOf FileMountEventType data offset =
  (unmarshalPayload "mount" Mount set_Mount MountEvent_UnmarshalBinary data offset ;;;
   ResolveMountPoint ;;; ResolveRoot ;;; Insert)%go.
Proof.
  intros Hnd. unfold switchOf.
  other_case Hnd 9%nat 0%nat. other_case Hnd 9%nat 1%nat.
  other_case Hnd 9%nat 2%nat. other_case Hnd 9%nat 3%nat.
  other_case Hnd 9%nat 4%nat. other_case Hnd 9%nat 5%nat.
  other_case Hnd 9%nat 6%nat. other_case Hnd 9%nat 7%nat.
  other_case Hnd 9%nat 8%nat.
  by rewrite decide_True.
Qed.

Lemma switchOf_umount data offset :
  NoDup supportedEventTypes →
  switchOf FileUmountEventType data offset =
  (unmarshalPayload "umount" Umount set_Umount UmountEvent_UnmarshalBinary data offset ;;;
   p <- getProbe ;;
   err <- Delete (MountID (Umount (event p))) ;;
   match err with
   | Some err =>
       logf ErrorLvl "failed to delete mount point %d from cache: %s"
         [ArgZ (MountID (Umount (event p))); ArgS err]
   | None => ret tt
   end)%go.
Proof.
  intros Hnd. unfold switchOf.
  other_case Hnd 10%nat 0%nat. other_case Hnd 10%nat 1%nat.
  other_case Hnd 10%nat 2%nat. other_case Hnd 10%nat 3%nat.
  other_case Hnd 10%nat 4%nat. other_case Hnd 10%nat 5%nat.
  other_case Hnd 10%nat 6%nat. other_case Hnd 10%nat 7%nat.
  other_case Hnd 10%nat 8%nat. other_case Hnd 10%nat 9%nat.
  by rewrite decide_True.
Qed.

Lemma cacheCalls_app (t1 t2 : list Action) :
  cacheCalls (t1 ++ t2) = cacheCalls t1 ++ cacheCalls t2.
Proof. apply omap_app. Qed.

(** C2. For a buffer whose header decodes to a mount event, [handleEvent]
    calls the resolution of the mount point, then the resolution of the root,
    then inserts the resolved entry in the mount cache, in that order and
    with nothing else done on the cache, when the mount payload decodes
    without error; the inserted entry is the decoded one with both paths
    resolved against the cache as it was before the insert.  When the mount
    payload fails to decode, no resolution and no insert is made and the
    cache is left as it was. *)
Theorem handleEvent_mount_resolves_then_inserts
    (CPU : Z) (data : list Byte.byte) (s : State)
    (e : Event) (read : nat) (m : MountEvent) (n : nat) (err : option error) :
  NoDup supportedEventTypes →
  Event_UnmarshalBinary freshEvent data = (e, read, None) →
  Type' e = FileMountEventType →
  (read ≤ length data)%nat →
  MountEvent_UnmarshalBinary (Mount e) (drop read data) = (m, n, err) →
  let m1 := MountEvent_ResolveMountPoint (resolvers (probe s)) m in
  let m2 := MountEvent_ResolveRoot (resolvers (probe s)) m1 in
  let r := handleEvent CPU data s in
  match err with
  | None =>
      cacheCalls (trace r.2)
        = cacheCalls (trace s)
            ++ [CallResolveMountPoint m; CallResolveRoot m1; CallInsert m2] ∧
      resolvers (probe r.2) = MountResolver_Insert m2 (resolvers (probe s)) ∧
      MountResolver (resolvers (probe r.2)) !! NewMountID m2 = Some m2 ∧
      Mount (event (probe r.2)) = m2
  | Some _ =>
      cacheCalls (trace r.2) = cacheCalls (trace s) ∧
      resolvers (probe r.2) = resolvers (probe s)
  end.
Proof.
  intros Hnd Hh Ht Hle Hm m1 m2 r.
  pose proof (handleEvent_unfold CPU data s) as Hr. fold r in Hr.
  rewrite Hh, Ht, switchOf_mount in Hr by done.
  set (s1 := addTrace _ (afterHeader e s)) in Hr.
  unfold func, bind at 1 in Hr. rewrite mount_case_run in Hr.
  unfold slice_from in Hr. rewrite decide_True in Hr by done.
  cbn zeta in Hr.
  change (event (probe s1)) with e in Hr.
  change (resolvers (probe s1)) with (resolvers (probe s)) in Hr.
  rewrite Hm in Hr. cbn [fst snd] in Hr. fold m1 m2 in Hr.
  destruct err as [err|].
  - rewrite Hr. unfold s1, addTrace, afterHeader.
    cbn [fst snd trace probe set_probe set_trace set_event resolvers].
    rewrite !cacheCalls_app. cbn. by rewrite !app_nil_r.
  - rewrite countAndDispatch_run in Hr. rewrite Hr. cbn [fst snd].
    destruct (handler _) as [h|];
      unfold s1, addTrace, afterHeader;
      cbn [fst snd trace probe set_probe set_trace set_event resolvers
           set_resolvers set_eventsStats set_world event Mount set_Mount];
      rewrite !cacheCalls_app; cbn; rewrite ?app_nil_r;
      (repeat split; try done; apply lookup_insert_eq).
Qed.

Lemma MountResolver_Delete_unknown (mountID : Z) (r : Resolvers) :
  MountResolver r !! mountID = None →
  ∃ err, MountResolver_Delete mountID r = (Some err, r).
Proof. intros Hid. unfold MountResolver_Delete. rewrite Hid. by eexists. Qed.

(** C4. For a buffer that decodes to an unmount event whose mount id is not
    in the cache, [handleEvent] calls the delete, logs its failure as an
    error, and goes on: it returns normally, increments the counter of the
    unmount type once and notifies the registered consumer with the decoded
    event; the cache is left as it was. *)
Theorem handleEvent_umount_unknown_id_goes_on
    (CPU : Z) (data : list Byte.byte) (s : State)
    (e : Event) (read : nat) (u : UmountEvent) (n : nat) :
  NoDup supportedEventTypes →
  Event_UnmarshalBinary freshEvent data = (e, read, None) →
  Type' e = FileUmountEventType →
  (read ≤ length data)%nat →
  UmountEvent_UnmarshalBinary (Umount e) (drop read data) = (u, n, None) →
  MountResolver (resolvers (probe s)) !! MountID u = None →
  let r := handleEvent CPU data s in
  let ev := set_Umount u e in
  r.1 = Val tt ∧
  (∃ err,
     trace r.2
     = trace s
         ++ [Log TraceLvl "Decoding event %s"
               [ArgS (EventType_String FileUmountEventType)];
             CallDelete (MountID u);
             Log ErrorLvl "failed to delete mount point %d from cache: %s"
               [ArgZ (MountID u); ArgS err];
             CallCountEventType FileUmountEventType 1;
             Log TraceLvl "Dispatching event %+v" [ArgE ev]]
         ++ match handler (probe s) with
            | Some h => [CallHandleEvent h ev]
            | None => []
            end) ∧
  eventsStats (probe r.2)
    = CountEventType FileUmountEventType 1 (eventsStats (probe s)) ∧
  world r.2 = match handler (probe s) with
              | Some h => HandleEvent h ev (world s)
              | None => world s
              end ∧
  resolvers (probe r.2) = resolvers (probe s).
Proof.
  intros Hnd Hh Ht Hle Hu Hid r ev.
  destruct (MountResolver_Delete_unknown _ _ Hid) as [err Hdel].
  pose proof (handleEvent_unfold CPU data s) as Hr. fold r in Hr.
  rewrite Hh, Ht, switchOf_umount in Hr by done.
  set (s1 := addTrace _ (afterHeader e s)) in Hr.
  unfold func, bind at 1 in Hr. rewrite umount_case_run in Hr.
  unfold slice_from in Hr. rewrite decide_True in Hr by done.
  cbn zeta in Hr.
  change (event (probe s1)) with e in Hr.
  change (resolvers (probe s1)) with (resolvers (probe s)) in Hr.
  rewrite Hu in Hr. cbn [fst snd] in Hr. rewrite Hdel in Hr.
  cbn [fst snd] in Hr. fold ev in Hr.
  rewrite countAndDispatch_run in Hr. rewrite Hr. cbn [fst snd].
  split; [done|]. split; [exists err|];
    destruct (handler (probe s)) as [h|] eqn:Hhandler;
    unfold s1, addTrace, afterHeader;
    cbn [fst snd trace probe set_probe set_trace set_event resolvers
         set_resolvers set_eventsStats set_world event handler world
         eventsStats];
    rewrite ?Hhandler;
    cbn [fst snd trace probe set_probe set_trace set_event resolvers
         set_resolvers set_eventsStats set_world event handler world
         eventsStats];
    rewrite <- ?app_assoc; done.
Qed.

(** C9. [DispatchEvent] with no registered handler returns normally and
    changes nothing: no callback is invoked, the probe, the world and the
    trace are as before.  With a registered handler it returns normally after
    invoking that handler exactly once, on the event it was given. *)
Theorem DispatchEvent_nil_handler_is_noop (R : Type) (ev : Event) (s : State) :
  let r := DispatchEvent (R := R) ev s in
  r.1 = Val tt ∧
  match handler (probe s) with
  | None => r.2 = s
  | Some h =>
      trace r.2 = trace s ++ [CallHandleEvent h ev] ∧
      handlerCalls (trace r.2) = handlerCalls (trace s) ++ [(h, ev)] ∧
      world r.2 = HandleEvent h ev (world s) ∧
      probe r.2 = probe s
  end.
Proof.
  unfold DispatchEvent, func, bind, getProbe, emit, external, ret.
  cbn [fst snd]. destruct (handler (probe s)) as [h|];
    cbn [fst snd trace world probe set_trace set_world].
  - rewrite handlerCalls_app. done.
  - done.
Qed.




End Dispatcher.

(** ** The discarder engine, the approver engine and the policy applier *)

Section Engines.
Context `{Schema, Kernel, !Package}.

Lemma discarderCalls_app (t1 t2 : list Action) :
  discarderCalls (t1 ++ t2) = discarderCalls t1 ++ discarderCalls t2.
Proof. apply omap_app. Qed.

Lemma putCalls_app (t1 t2 : list Action) :
  putCalls (t1 ++ t2) = putCalls t1 ++ putCalls t2.
Proof. apply omap_app. Qed.

Lemma approversCalls_app (t1 t2 : list Action) :
  approversCalls (t1 ++ t2) = approversCalls t1 ++ approversCalls t2.
Proof. apply omap_app. Qed.

Lemma notifyInOrder_prefix fncs rs ev d w :
  (notifyInOrder fncs rs ev d w).1.1 `prefix_of` fncs ∧
  ((notifyInOrder fncs rs ev d w).1.2 = None →
   (notifyInOrder fncs rs ev d w).1.1 = fncs).
Proof.
  revert w. induction fncs as [|fnc fncs IH]; intros w; cbn.
  - done.
  - destruct (fnc rs ev d w) as [[err|] w'].
    + cbn. split; [|done]. by exists fncs.
    + destruct (IH w') as [IHp IHn].
      destruct (notifyInOrder fncs rs ev d w') as [[called err] w''].
      cbn in *. split.
      * by apply prefix_cons.
      * intros Hn. by rewrite IHn.
Qed.

(** The loop of [OnNewDiscarder] does what [notifyInOrder] says. *)
Lemma OnNewDiscarder_loop fncs rs ev field v s :
  Event_GetFieldValue ev field = (v, None) →
  let d := {| Field := field; DValue := v |} in
  let n := notifyInOrder fncs rs ev d (world s) in
  forRange fncs (λ fnc,
    let '(value, err) := Event_GetFieldValue ev field in
    match err with
    | Some err => returns (Some err)
    | None =>
    let discarder := {| Field := field; DValue := value |} in
    emit (CallDiscarderFnc fnc discarder) ;;;
    err <- external (fnc rs ev discarder) ;;
    match err with
    | Some err => returns (Some err)
    | None => ret tt
    end
    end)%go s
  = (match n.1.2 with
     | Some err => Return (Some err)
     | None => Val tt
     end,
     set_world n.2
       (set_trace (trace s ++ ((λ fnc, CallDiscarderFnc fnc d) <$> n.1.1)) s)).
Proof.
  intros Hv d n. subst n. rewrite Hv. cbn iota zeta. fold d. revert s.
  induction fncs as [|fnc fncs IH]; intros s.
  - cbn. rewrite app_nil_r. by destruct s.
  - cbn [forRange notifyInOrder].
    unfold bind at 1, bind at 1, emit at 1. cbn [fst snd].
    unfold bind at 1, external at 1. cbn [world set_trace].
    destruct (fnc rs ev d (world s)) as [[err|] w'] eqn:Hf.
    + reflexivity.
    + unfold ret at 1. cbn iota beta. rewrite IH.
      cbn [world set_world trace set_trace].
      destruct (notifyInOrder fncs rs ev d w') as [[called err] w''].
      cbn [fst snd fmap list_fmap]. rewrite <- app_assoc. reflexivity.
Qed.

(** X21. With discarders disabled [OnNewDiscarder] does nothing: it returns
    nil before its trace log, looks up no field and invokes no function. *)
Lemma OnNewDiscarder_disabled (R : Type) rs ev field (s : State) :
  EnableDiscarders (config (probe s)) = false →
  OnNewDiscarder (R := R) rs ev field s = (Val None, s).
Proof.
  intros Hen. unfold OnNewDiscarder, func, bind, getProbe.
  by rewrite Hen.
Qed.

(** X22. A field that does not resolve to an event type or to a value makes
    [OnNewDiscarder] return the error of the lookup; no function is
    invoked. *)
Lemma OnNewDiscarder_unknown_field (R : Type) rs ev field (s : State) err :
  EnableDiscarders (config (probe s)) = true →
  (Event_GetFieldEventType ev field).2 = Some err
  ∨ (Event_GetFieldEventType ev field).2 = None
    ∧ (Event_GetFieldValue ev field).2 = Some err
    ∧ default [] (onDiscardersFncs (probe s)
                    !! (Event_GetFieldEventType ev field).1) ≠ [] →
  let r := OnNewDiscarder (R := R) rs ev field s in
  r.1 = Val (Some err) ∧ discarderCalls (trace r.2) = discarderCalls (trace s).
Proof.
  intros Hen Hf r.
  change (wp (OnNewDiscarder (R := R) rs ev field) s
            (λ res s', res = Val (Some err)
                       ∧ discarderCalls (trace s') = discarderCalls (trace s))).
  unfold OnNewDiscarder. repeat wp_step. rewrite Hen. cbn [negb].
  repeat wp_step. cbn [probe set_trace].
  assert (Hlog : discarderCalls
                   (trace s ++ [Log TraceLvl "New discarder event %+v for field %s"
                                  [ArgE ev; ArgS field]])
                 = discarderCalls (trace s)).
  { rewrite discarderCalls_app. cbn. by rewrite app_nil_r. }
  destruct (Event_GetFieldEventType ev field) as [eventType [e|]];
    cbn [fst snd] in Hf.
  - destruct Hf as [[= ->]|[[=] _]]. by wp_step.
  - destruct Hf as [[=]|(_ & Hv & Hl)].
    destruct (default [] (onDiscardersFncs (probe s) !! eventType))
      as [|fnc fncs]; [done|].
    wp_step. cbn [forRange]. wp_step.
    destruct (Event_GetFieldValue ev field) as [v verr]. cbn [snd] in Hv.
    subst verr. by wp_step.
Qed.

(** C3, as the code has it. With discarders enabled, [OnNewDiscarder] first
    resolves the field to an event type and, once per registered function,
    to a value.  When both resolve, it invokes the functions registered for
    that event type in registration order, each with the discarder made of
    the field and its value, as [notifyInOrder] says: the functions invoked
    are a prefix of the registered ones, all of them when none fails, and
    the first failure is returned without invoking the rest; in particular,
    with two registered functions of which the first fails, only the first
    is invoked and its error is returned.  When the event type does not
    resolve, or when the value cannot be read, no function is invoked: the
    error of the lookup is returned, but for an unreadable value with no
    function registered, where the value is not looked up and nil is
    returned. *)
Theorem OnNewDiscarder_in_order_until_first_failure
    (R : Type) (rs : RuleSet) (ev : Event) (field : string) (s : State) :
  EnableDiscarders (config (probe s)) = true →
  let r := OnNewDiscarder (R := R) rs ev field s in
  let t := Event_GetFieldEventType ev field in
  let gv := Event_GetFieldValue ev field in
  let fncs := default [] (onDiscardersFncs (probe s) !! t.1) in
  let d := {| Field := field; DValue := gv.1 |} in
  let n := notifyInOrder fncs rs ev d (world s) in
  probe r.2 = probe s ∧
  match t.2, gv.2 with
  | None, None =>
      r.1 = Val n.1.2 ∧
      discarderCalls (trace r.2)
        = discarderCalls (trace s) ++ ((λ fnc, (fnc, d)) <$> n.1.1) ∧
      world r.2 = n.2 ∧
      n.1.1 `prefix_of` fncs ∧
      (n.1.2 = None → n.1.1 = fncs) ∧
      (∀ fnc1 fnc2 err w,
         fncs = [fnc1; fnc2] →
         fnc1 rs ev d (world s) = (Some err, w) →
         r.1 = Val (Some err) ∧
         discarderCalls (trace r.2) = discarderCalls (trace s) ++ [(fnc1, d)] ∧
         world r.2 = w)
  | Some err, _ =>
      r.1 = Val (Some err) ∧
      discarderCalls (trace r.2) = discarderCalls (trace s) ∧
      world r.2 = world s
  | None, Some err =>
      r.1 = Val (if decide (fncs = []) then None else Some err) ∧
      discarderCalls (trace r.2) = discarderCalls (trace s) ∧
      world r.2 = world s
  end.
Proof.
  intros Hen r t gv fncs d n.
  assert (Hlog : discarderCalls
                   (trace s ++ [Log TraceLvl "New discarder event %+v for field %s"
                                  [ArgE ev; ArgS field]])
                 = discarderCalls (trace s)).
  { rewrite discarderCalls_app. cbn. by rewrite app_nil_r. }
  assert (Hstart : r = func (R' := R)
            (let '(eventType, err) := Event_GetFieldEventType ev field in
             match err with
             | Some err => returns (Some err)
             | None =>
                 forRange (default [] (onDiscardersFncs (probe s) !! eventType))
                   (λ fnc,
                      let '(value, err) := Event_GetFieldValue ev field in
                      match err with
                      | Some err => returns (Some err)
                      | None =>
                          let discarder := {| Field := field; DValue := value |} in
                          emit (CallDiscarderFnc fnc discarder) ;;;
                          err <- external (fnc rs ev discarder) ;;
                          match err with
                          | Some err => returns (Some err)
                          | None => ret tt
                          end
                      end) ;;;
                 returns None
             end)%go
            (set_trace (trace s ++ [Log TraceLvl
                                      "New discarder event %+v for field %s"
                                      [ArgE ev; ArgS field]]) s)).
  { subst r. unfold OnNewDiscarder, func, bind at 1, getProbe.
    rewrite Hen. cbn [negb]. unfold bind at 1, logf, emit. cbn [fst snd].
    reflexivity. }
  subst t gv fncs d n.
  destruct (Event_GetFieldEventType ev field) as [eventType [terr|]] eqn:Ht;
    cbn [fst snd] in *.
  { unfold func, returns in Hstart. rewrite Hstart.
    cbn [fst snd probe trace world set_trace]. by rewrite Hlog. }
  destruct (Event_GetFieldValue ev field) as [v [verr|]] eqn:Hv;
    cbn [fst snd] in *.
  - cbn [probe set_trace] in Hstart.
    destruct (default [] (onDiscardersFncs (probe s) !! eventType))
      as [|fnc fncs]; cbn [forRange] in Hstart;
      unfold func, bind, ret, returns in Hstart; cbn [fst snd] in Hstart;
      rewrite Hstart; cbn [fst snd probe trace world set_trace].
    + rewrite decide_True by done. by rewrite Hlog.
    + rewrite decide_False by done. by rewrite Hlog.
  - set (fncs := default [] (onDiscardersFncs (probe s) !! eventType)).
    set (d := {| Field := field; DValue := v |}).
    set (n := notifyInOrder fncs rs ev d (world s)).
    assert (Hr : r = (Val n.1.2,
                      set_world n.2
                        (set_trace
                           ((trace s
                               ++ [Log TraceLvl
                                     "New discarder event %+v for field %s"
                                     [ArgE ev; ArgS field]])
                              ++ ((λ fnc, CallDiscarderFnc fnc d) <$> n.1.1))
                           s))).
    { rewrite Hstart. unfold func, bind at 1. cbn [probe set_trace].
      fold fncs.
      pose proof (OnNewDiscarder_loop fncs rs ev field v
                    (set_trace (trace s ++ [Log TraceLvl
                                  "New discarder event %+v for field %s"
                                  [ArgE ev; ArgS field]]) s) Hv) as Hloop.
      cbn zeta in Hloop. rewrite Hv in Hloop. rewrite Hloop.
      cbn [world set_trace trace]. fold d n.
      destruct n.1.2; reflexivity. }
    assert (Hcalls : discarderCalls (trace r.2)
                     = discarderCalls (trace s) ++ ((λ fnc, (fnc, d)) <$> n.1.1)).
    { rewrite Hr. cbn [snd trace set_world set_trace].
      rewrite !discarderCalls_app, <- app_assoc. f_equal.
      generalize n.1.1 as l. intros l. cbn.
      induction l as [|f l IH]; [done|]. cbn. by rewrite <- IH. }
    destruct (notifyInOrder_prefix fncs rs ev d (world s)) as [Hp Hn].
    split; [by rewrite Hr|].
    split; [by rewrite Hr|]. split; [done|].
    split; [by rewrite Hr|].
    split; [done|]. split; [done|].
    intros fnc1 fnc2 err w Hfncs Hfail.
    assert (Hn1 : n = ([fnc1], Some err, w)).
    { subst n. rewrite Hfncs. cbn. by rewrite Hfail. }
    rewrite Hcalls, Hr, Hn1. done.
Qed.

Lemma Map_run (R : Type) (name : string) (s : State) :
  Map (R := R) name s =
  (Val match manager (probe s) with
       | None => None
       | Some mgr =>
           let '(m, ok, err) := Manager_GetMap mgr name in
           if negb ok || bool_decide (err ≠ None) then None else m
       end, s).
Proof.
  unfold Map, func, bind, getProbe. cbn [fst snd].
  destruct (manager (probe s)) as [mgr|]; [|reflexivity].
  destruct (Manager_GetMap mgr name) as [[m ok] err].
  by destruct (negb ok || bool_decide (err ≠ None)).
Qed.

Lemma ApplyFilterPolicy_run (R : Type) (eventType tableName : string)
    (mode flags : Z) (s : State) :
  ApplyFilterPolicy (R := R) eventType tableName mode flags s =
  let s1 := set_trace
              (trace s ++ [Log InfoLvl
                             "Setting in-kernel filter policy to `%s` for `%s`"
                             [ArgZ mode; ArgS eventType]]) s in
  match (Map (R := R) tableName s).1 with
  | Val (Some table) =>
      let policy := {| Mode := mode; Flags := flags |} in
      let r := Map_Put table ZeroUint32MapItem policy (world s) in
      (Val r.1,
       set_world r.2
         (set_trace (trace s1 ++ [CallPut table ZeroUint32MapItem policy]) s1))
  | _ =>
      (Val (Some ("unable to find policy table `" +:+ tableName +:+ "`")), s1)
  end.
Proof.
  unfold ApplyFilterPolicy, func, bind at 1, logf, emit. cbn [fst snd].
  unfold bind at 1. rewrite !Map_run. cbn [fst snd].
  cbn [probe set_trace].
  destruct (match manager (probe s) with
            | Some mgr => _
            | None => None
            end) as [table|]; [|reflexivity].
  unfold bind, Put, bind, emit, external.
  cbn [fst snd world set_trace trace].
  by destruct (Map_Put table ZeroUint32MapItem _ (world s)).
Qed.

(** C7. [Map] resolves a name to a table only when the manager exists and
    finds it without error.  When the table of [ApplyFilterPolicy] does not
    resolve, the call returns the error that names the missing table and
    makes no table write; when it resolves, exactly one record, made of the
    given mode and flags, is written to that table at the sentinel key, and
    the result of the write is returned. *)
Theorem ApplyFilterPolicy_writes_only_to_resolved_table
    (R : Type) (eventType tableName : string) (mode flags : Z) (s : State) :
  let r := ApplyFilterPolicy (R := R) eventType tableName mode flags s in
  let resolved :=
    match manager (probe s) with
    | None => None
    | Some mgr =>
        let '(m, ok, err) := Manager_GetMap mgr tableName in
        if negb ok || bool_decide (err ≠ None) then None else m
    end in
  Map (R := R) tableName s = (Val resolved, s) ∧
  match resolved with
  | None =>
      r.1 = Val (Some ("unable to find policy table `" +:+ tableName +:+ "`")) ∧
      putCalls (trace r.2) = putCalls (trace s) ∧
      world r.2 = world s
  | Some table =>
      let policy := {| Mode := mode; Flags := flags |} in
      r.1 = Val (Map_Put table ZeroUint32MapItem policy (world s)).1 ∧
      putCalls (trace r.2)
        = putCalls (trace s) ++ [(table, ZeroUint32MapItem, policy)] ∧
      world r.2 = (Map_Put table ZeroUint32MapItem policy (world s)).2
  end.
Proof.
  intros r resolved. split; [apply Map_run|].
  subst r. rewrite ApplyFilterPolicy_run, Map_run. cbn [fst]. fold resolved.
  destruct resolved as [table|]; cbn [fst snd trace world set_trace set_world];
    rewrite !putCalls_app; cbn; by rewrite ?app_nil_r.
Qed.

(** C6. [ApplyApprovers] returns success and changes nothing when no function
    is registered for the event type.  When one is registered it is invoked
    exactly once, its result is the result of the call, and a failure is
    logged as an error with the fallback policy, the event type and the
    error. *)
Theorem ApplyApprovers_unregistered_is_success
    (R : Type) (eventType : string) (approvers : Approvers) (s : State) :
  let r := ApplyApprovers (R := R) eventType approvers s in
  match allApproversFncs s !! eventType with
  | None => r = (Val None, s)
  | Some fnc =>
      let c := fnc approvers (world s) in
      r.1 = Val c.1 ∧
      world r.2 = c.2 ∧
      probe r.2 = probe s ∧
      approversCalls (trace r.2) = approversCalls (trace s) ++ [(fnc, approvers)] ∧
      trace r.2
        = trace s
            ++ CallApproversFnc fnc approvers
               :: match c.1 with
                  | Some err =>
                      [Log ErrorLvl
                         "Error while adding approvers fallback in-kernel policy to `%s` for `%s`: %s"
                         [ArgZ PolicyModeAccept; ArgS eventType; ArgS err]]
                  | None => []
                  end
  end.
Proof.
  unfold ApplyApprovers, func, bind, getState, emit, external, logf, emit,
    returns, ret.
  cbn [fst snd].
  destruct (allApproversFncs s !! eventType) as [fnc|]; [|reflexivity].
  cbn [fst snd world trace set_trace].
  destruct (fnc approvers (world s)) as [[err|] w];
    cbn [fst snd world trace probe set_trace set_world];
    rewrite ?approversCalls_app, <- ?app_assoc; cbn; by rewrite ?app_nil_r.
Qed.

Lemma Init_trace (R : Type) (s : State) :
  trace (Init (R := R) s).2
  = trace s
      ++ (if EnableKernelFilters (config (probe s)) then []
          else [Log WarnLvl
                  "Forcing in-kernel filter policy to `pass`: filtering not enabled"
                  []]) ∧
  world (Init (R := R) s).2 = world s ∧
  (Init (R := R) s).1 = Val None.
Proof.
  unfold Init, RegisterProbesSelectors, func, bind, getProbe, getState, logf,
    emit, modifyProbe, returns, ret.
  cbn [fst snd].
  destruct (EnableKernelFilters (config (probe s))),
    (SyscallMonitor (config (probe s)));
    cbn; by rewrite ?app_nil_r.
Qed.

(** X23. [Init] writes no policy record and leaves the world as it was,
    whatever the configuration: with kernel-side filtering disabled all it
    adds to the trace is the warning that the policy is forced to pass.  A
    policy record is written by [ApplyFilterPolicy], which writes the mode
    and flags its caller gives to the table that resolves, and whose result,
    trace and world do not depend on the configuration. *)
Theorem Init_only_warns_about_pass_policy
    (R : Type) (s : State) (eventType tableName : string) (mode flags : Z) :
  let r := Init (R := R) s in
  let a := ApplyFilterPolicy (R := R) eventType tableName mode flags s in
  r.1 = Val None ∧
  putCalls (trace r.2) = putCalls (trace s) ∧
  world r.2 = world s ∧
  (EnableKernelFilters (config (probe s)) = false →
   trace r.2
   = trace s
       ++ [Log WarnLvl
             "Forcing in-kernel filter policy to `pass`: filtering not enabled"
             []]) ∧
  match (Map (R := R) tableName s).1 with
  | Val (Some table) =>
      putCalls (trace a.2)
      = putCalls (trace s)
          ++ [(table, ZeroUint32MapItem, {| Mode := mode; Flags := flags |})]
  | _ => putCalls (trace a.2) = putCalls (trace s) ∧ world a.2 = world s
  end ∧
  (∀ c : Config,
     let a' := ApplyFilterPolicy (R := R) eventType tableName mode flags
                 (set_probe (set_config c (probe s)) s) in
     a'.1 = a.1 ∧ trace a'.2 = trace a.2 ∧ world a'.2 = world a.2).
Proof.
  intros r a. destruct (Init_trace R s) as (Ht & Hw & Hr). fold r in Ht, Hw, Hr.
  split; [done|]. split.
  { rewrite Ht, putCalls_app.
    destruct (EnableKernelFilters (config (probe s))); cbn;
      by rewrite app_nil_r. }
  split; [done|]. split.
  { intros Hf. by rewrite Ht, Hf. }
  subst a. split.
  { rewrite ApplyFilterPolicy_run.
    destruct (Map tableName s).1 as [[table|]| |];
      cbn [fst snd trace world set_trace set_world];
      rewrite ?putCalls_app; cbn; by rewrite ?app_nil_r. }
  intros c a'. subst a'. rewrite !ApplyFilterPolicy_run, !Map_run.
  cbn [fst probe set_probe set_config manager].
  destruct (match manager (probe s) with
            | Some mgr => _
            | None => None
            end) as [table|]; done.
Qed.

End Engines.

(** ** The statistics *)

Section Statistics.
Context `{Schema, Kernel, !Package}.

Lemma resetCalls_app (t1 t2 : list Action) :
  resetCalls (t1 ++ t2) = resetCalls t1 ++ resetCalls t2.
Proof. apply omap_app. Qed.

Lemma readCalls_app (t1 t2 : list Action) :
  readCalls (t1 ++ t2) = readCalls t1 ++ readCalls t2.
Proof. apply omap_app. Qed.

Lemma countCalls_app (t1 t2 : list Action) :
  countCalls (t1 ++ t2) = countCalls t1 ++ countCalls t2.
Proof. apply omap_app. Qed.

Lemma resetAll_lookup (done : list nat) (counters : list Z) (j : nat) :
  resetAll done counters !! j
  = if decide (j ∈ done) then (λ _, 0) <$> counters !! j else counters !! j.
Proof.
  unfold resetAll. revert counters.
  induction done as [|i done IH]; intros counters; cbn.
  - by rewrite decide_False by set_solver.
  - rewrite IH, list_lookup_alter.
    destruct (decide (j ∈ i :: done)) as [Hin|Hnin].
    + apply elem_of_cons in Hin as [->|Hin].
      * repeat case_decide; try done; by destruct (counters !! i).
      * repeat case_decide; subst; try done; by destruct (counters !! j).
    + apply not_elem_of_cons in Hnin as [Hne Hnin].
      repeat case_decide; try done; congruence.
Qed.

Lemma exportOf_ext (c1 c2 : list Z) (done : list nat) :
  (∀ j, j ∈ done → c1 !! j = c2 !! j) →
  flat_map (exportOf c1) done = flat_map (exportOf c2) done.
Proof.
  intros Hc. induction done as [|i done IH]; [done|].
  cbn [flat_map]. rewrite IH by (intros; apply Hc; set_solver).
  unfold exportOf, receivedMetric. by rewrite (Hc i) by set_solver.
Qed.

Lemma sendBody_run (statsdClient : StatsdClient) (i : nat) (s : State) :
  i ≠ 0%nat →
  sendBody statsdClient i s =
  let old := PerEventType (eventsStats (probe s)) in
  let v := default 0 (old !! i) in
  let s1 :=
    set_probe
      (set_eventsStats
         {| Lost := Lost (eventsStats (probe s));
            PerEventType := alter (λ _, 0) i old |} (probe s))
      (set_trace (trace s ++ [CallGetAndResetEventCount i]) s) in
  if decide (v > 0) then
    let name := MetricPrefix +:+ ".events.received" in
    let tags := ["event_type:" +:+ EventType_String i] in
    let c := Client_Count statsdClient name v tags (world s) in
    (match c.1 with
     | Some err => Return (Some err)
     | None => Val tt
     end,
     set_world c.2 (set_trace (trace s1 ++ [CallCount name v tags]) s1))
  else (Val tt, s1).
Proof.
  intros Hi. unfold sendBody. rewrite decide_False by done. cbn zeta.
  unfold bind at 1, EventsStats_GetAndResetEventCount, bind, emit, getProbe,
    modifyProbe, ret, GetAndResetEventCount.
  cbn [fst snd probe set_trace set_probe].
  case_decide; [|reflexivity].
  unfold Count, bind, emit, external, returns.
  cbn [fst snd world set_trace set_probe].
  by destruct (Client_Count statsdClient _ _ _ (world s)) as [[err|] w'].
Qed.

(** The loop of [SendStats] over distinct ordinals other than 0: the
    counters of a prefix [done] of the ordinals are read and reset, in order,
    each positive one being handed to the statsd client; the loop stops
    after the first submission that fails. *)
Lemma SendStats_loop (statsdClient : StatsdClient) (l : list nat) (s : State) :
  NoDup l → 0%nat ∉ l →
  ∃ done, loopPost l s done (forRange l (sendBody statsdClient) s).
Proof.
  intros Hnd Hz. revert s.
  induction l as [|i l IH]; intros s.
  - exists []. unfold loopPost. cbn. rewrite app_nil_r.
    repeat split; try done. by left.
  - apply NoDup_cons in Hnd as [Hi Hnd].
    apply not_elem_of_cons in Hz as [Hi0 Hl0].
    specialize (IH Hnd Hl0).
    cbn [forRange]. unfold bind at 1. rewrite sendBody_run by done.
    cbn zeta.
    set (old := PerEventType (eventsStats (probe s))).
    set (v := default 0 (old !! i)).
    set (s1 := set_probe _ _).
    assert (Hext : ∀ done, done `prefix_of` l →
              flat_map (exportOf (alter (λ _, 0) i old)) done
              = flat_map (exportOf old) done).
    { intros done [k ->]. apply exportOf_ext. intros j Hj.
      apply list_lookup_alter_ne. intros ->. apply Hi.
      apply elem_of_app. by left. }
    assert (Hexp : exportOf old i
                   = CallGetAndResetEventCount i ::
                     if decide (v > 0)
                     then [CallCount (MetricPrefix +:+ ".events.received") v
                             ["event_type:" +:+ EventType_String i]]
                     else []).
    { unfold exportOf, receivedMetric. fold v. by case_decide. }
    case_decide as Hv.
    + destruct (Client_Count statsdClient _ v _ (world s)) as [[err|] w'];
        cbn [fst snd].
      * exists [i]. unfold loopPost. cbn [fst snd flat_map]. fold old.
        rewrite Hexp, app_nil_r.
        repeat split; try done.
        -- by apply prefix_cons, prefix_nil.
        -- right. by eexists.
        -- unfold s1. cbn. by rewrite <- app_assoc.
      * set (s2 := set_world w' _).
        destruct (IH s2) as (done & Hp & Hres & Htr & Hc & Hlost).
        exists (i :: done). unfold loopPost. rewrite Hc, Htr. fold old.
        change (PerEventType (eventsStats (probe s2)))
          with (alter (λ _, 0) i old).
        rewrite Hext by done.
        repeat split; try done.
        -- by apply prefix_cons.
        -- destruct Hres as [[? ->]|?]; [by left|by right].
        -- cbn [flat_map]. rewrite Hexp. unfold s2, s1. cbn.
           by rewrite <- !app_assoc.
    + destruct (IH s1) as (done & Hp & Hres & Htr & Hc & Hlost).
      exists (i :: done). unfold loopPost. rewrite Hc, Htr. fold old.
      change (PerEventType (eventsStats (probe s1)))
        with (alter (λ _, 0) i old).
      rewrite Hext by done.
      repeat split; try done.
      -- by apply prefix_cons.
      -- destruct Hres as [[? ->]|?]; [by left|by right].
      -- cbn [flat_map]. rewrite Hexp. unfold s1. cbn.
         by rewrite <- !app_assoc.
Qed.

(** The loop of [SendStats] over all ordinals skips ordinal 0. *)
Lemma SendStats_loop_all (statsdClient : StatsdClient) (s : State) :
  let old := PerEventType (eventsStats (probe s)) in
  ∃ done,
    loopPost (seq 1 (length old - 1)) s done
      (forRange (seq 0 (length old)) (sendBody statsdClient) s).
Proof.
  intros old. destruct (length old) as [|n].
  - exists []. unfold loopPost. cbn. rewrite app_nil_r.
    repeat split; try done. by left.
  - replace (S n - 1)%nat with n by lia.
    cbn [seq forRange]. unfold bind, sendBody at 1.
    rewrite decide_True by done. unfold ret at 1.
    apply SendStats_loop; [apply NoDup_seq|].
    rewrite elem_of_seq. lia.
Qed.

(** [SendStats] as a whole. *)
Lemma SendStats_wp (R : Type) (statsdClient : StatsdClient) (s : State) :
  let old := PerEventType (eventsStats (probe s)) in
  wp (SendStats (R := R) statsdClient) s (λ res s',
    ∃ done pre,
      done `prefix_of` seq 1 (length old - 1) ∧
      (res = Val None ∧ done = seq 1 (length old - 1)
       ∨ ∃ err, res = Val (Some err)) ∧
      trace s' = trace s ++ pre ++ flat_map (exportOf old) done ∧
      resetCalls pre = [] ∧ readCalls pre = [] ∧
      (countCalls pre = [] ∨ countCalls pre = [lostMetric s]) ∧
      PerEventType (eventsStats (probe s')) = resetAll done old).
Proof.
  intros old. unfold SendStats.
  assert (Hrest : ∀ s0 pre0,
    trace s0 = trace s ++ pre0 → resetCalls pre0 = [] → readCalls pre0 = [] →
    countCalls pre0 = [] →
    eventsStats (probe s0) = eventsStats (probe s) →
    wp (R := option error) (A := option error)
       (lost <- EventsStats_GetAndResetLost ;;
        err <- Count statsdClient (MetricPrefix +:+ ".events.lost") lost [] ;;
        match err with
        | Some err => returns (Some err)
        | None => ret tt
        end ;;;
        p <- getProbe ;;
        forRange (seq 0 (length (PerEventType (eventsStats p))))
          (sendBody statsdClient) ;;;
        returns None)%go s0
      (λ r s', match r with
               | Val x | Return x =>
                   ∃ done pre,
                     done `prefix_of` seq 1 (length old - 1) ∧
                     (Val (R := R) x = Val None ∧ done = seq 1 (length old - 1)
                      ∨ ∃ err, Val (R := R) x = Val (Some err)) ∧
                     trace s' = trace s ++ pre ++ flat_map (exportOf old) done ∧
                     resetCalls pre = [] ∧ readCalls pre = [] ∧
                     (countCalls pre = [] ∨ countCalls pre = [lostMetric s]) ∧
                     PerEventType (eventsStats (probe s')) = resetAll done old
               | Panic => False
               end)).
  { intros s0 pre0 Ht0 Hr0 Hd0 Hc0 Hs0.
    unfold EventsStats_GetAndResetLost, GetAndResetLost, Count.
    repeat wp_step.
    cbn [world set_trace set_probe].
    destruct (Client_Count statsdClient _ _ _ (world s0)) as [[err|] w'];
      cbn [fst snd].
    - wp_step. exists [], (pre0 ++ [CallGetAndResetLost;
        CallCount (MetricPrefix +:+ ".events.lost") (Lost (eventsStats (probe s0))) []]).
      cbn [flat_map]. rewrite app_nil_r.
      rewrite !resetCalls_app, !readCalls_app, !countCalls_app, Hr0, Hd0, Hc0.
      cbn. rewrite Ht0, Hs0, <- !app_assoc. fold old.
      repeat split; try done; [apply prefix_nil|right; by eexists|by right].
    - repeat wp_step.
      cbn [probe eventsStats set_probe set_world set_trace set_eventsStats
           PerEventType].
      set (s1 := set_world w' _).
      assert (Hold1 : PerEventType (eventsStats (probe s1)) = old)
        by (unfold s1; cbn; by rewrite Hs0).
      rewrite Hs0. fold old. rewrite <- Hold1.
      destruct (SendStats_loop_all statsdClient s1)
        as (done & Hp & Hres & Htr & Hc & Hlost).
      rewrite Hold1 in *.
      unfold wp.
      destruct (forRange (seq 0 (length old)) (sendBody statsdClient) s1)
        as [res s2]. cbn [fst snd] in *.
      assert (Hfin : ∃ pre,
                trace s2 = trace s ++ pre ++ flat_map (exportOf old) done ∧
                resetCalls pre = [] ∧ readCalls pre = [] ∧
                (countCalls pre = [] ∨ countCalls pre = [lostMetric s])).
      { exists (pre0 ++ [CallGetAndResetLost;
          CallCount (MetricPrefix +:+ ".events.lost")
            (Lost (eventsStats (probe s0))) []]).
        rewrite !resetCalls_app, !readCalls_app, !countCalls_app, Hr0, Hd0, Hc0.
        rewrite Htr. unfold s1. cbn. rewrite Ht0, Hs0, <- !app_assoc.
        repeat split; try done. by right. }
      destruct Hfin as (pre & Hfin).
      destruct Hres as [[-> ->]|[err ->]].
      + unfold returns. cbn [fst snd].
        exists (seq 1 (length old - 1)), pre.
        repeat split; try done; try apply Hfin. by left.
      + exists done, pre. repeat split; try done; try apply Hfin.
        right. by eexists. }
  repeat wp_step.
  destruct (syscallMonitor (probe s)) as [sm|].
  - repeat wp_step.
    destruct (SyscallMonitor_SendStats sm statsdClient _) as [[err|] w'] eqn:Hsm;
      cbn [fst snd].
    + wp_step. exists [], [CallSyscallSendStats].
      repeat split; try done; [apply prefix_nil|right; by eexists|by left].
    + wp_step.
      eapply wp_mono; [apply (Hrest _ [CallSyscallSendStats]); done|].
      by intros [x|x|] s'.
  - wp_step.
    eapply wp_mono; [apply (Hrest s []); try done; by rewrite app_nil_r|].
    by intros [x|x|] s'.
Qed.

Lemma readCalls_reads (l : list nat) :
  readCalls (CallGetEventCount <$> l) = l.
Proof.
  induction l as [|i l IH]; [done|].
  unfold readCalls in *. cbn. by f_equal.
Qed.

Lemma resetCalls_reads (l : list nat) :
  resetCalls (CallGetEventCount <$> l) = [].
Proof. induction l as [|i l IH]; [done|]. done. Qed.

Lemma resetCalls_export (old : list Z) (done : list nat) :
  resetCalls (flat_map (exportOf old) done) = done.
Proof.
  induction done as [|i l IH]; [done|].
  cbn [flat_map]. rewrite resetCalls_app, IH. unfold exportOf.
  by destruct (receivedMetric old i) as [[[name value] tags]|].
Qed.

Lemma readCalls_export (old : list Z) (done : list nat) :
  readCalls (flat_map (exportOf old) done) = [].
Proof.
  induction done as [|i l IH]; [done|].
  cbn [flat_map]. rewrite readCalls_app, IH. unfold exportOf.
  by destruct (receivedMetric old i) as [[[name value] tags]|].
Qed.

Lemma countCalls_export (old : list Z) (done : list nat) :
  countCalls (flat_map (exportOf old) done) = omap (receivedMetric old) done.
Proof.
  induction done as [|i l IH]; [done|].
  cbn [flat_map]. rewrite countCalls_app, IH. unfold exportOf.
  change (omap (receivedMetric old) (i :: l))
    with (match receivedMetric old i with
          | Some y => y :: omap (receivedMetric old) l
          | None => omap (receivedMetric old) l
          end).
  by destruct (receivedMetric old i) as [[[name value] tags]|].
Qed.

Lemma GetStats_loop (l : list nat) (acc : gmap string Z) (s : State) :
  0%nat ∉ l →
  forRangeAcc l acc readBody s
  = (Val (foldl (λ m i, <[EventType_String i
                          := default 0 (PerEventType (eventsStats (probe s)) !! i)]> m)
            acc l),
     set_trace (trace s ++ (CallGetEventCount <$> l)) s).
Proof.
  revert acc s. induction l as [|i l IH]; intros acc s Hz.
  - cbn. rewrite app_nil_r. by destruct s.
  - apply not_elem_of_cons in Hz as [Hi0 Hl0].
    cbn [forRangeAcc]. unfold bind at 1, readBody at 1.
    rewrite decide_False by done. cbn zeta.
    unfold bind, EventsStats_GetEventCount, bind, emit, getProbe, ret.
    cbn [fst snd]. rewrite IH by done.
    cbn. by rewrite <- app_assoc.
Qed.

Lemma GetStats_wp (R : Type) (s : State) :
  let old := PerEventType (eventsStats (probe s)) in
  wp (GetStats (R := R)) s (λ res s',
    (∃ syscalls err,
       res = Val ({| events_lost := Lost (eventsStats (probe s));
                     events_syscalls := syscalls;
                     per_event_type := perEventTypeOf old |}, err)) ∧
    readCalls (trace s') = readCalls (trace s) ++ seq 1 (length old - 1) ∧
    resetCalls (trace s') = resetCalls (trace s) ∧
    probe s' = probe s).
Proof.
  intros old. unfold GetStats.
  assert (Hrest : ∀ s0 syscalls err,
    probe s0 = probe s →
    readCalls (trace s0) = readCalls (trace s) →
    resetCalls (trace s0) = resetCalls (trace s) →
    wp (R := Stats * option error) (A := Stats * option error)
       (lost <- EventsStats_GetLost ;;
        perEventType <-
          forRangeAcc (seq 0 (length (PerEventType (eventsStats (probe s))))) ∅
            readBody ;;
        returns ({| events_lost := lost; events_syscalls := syscalls;
                    per_event_type := perEventType |}, err))%go s0
      (λ r s', match r with
               | Val x | Return x =>
                   (∃ syscalls err,
                      Val (R := R) x
                      = Val ({| events_lost := Lost (eventsStats (probe s));
                                events_syscalls := syscalls;
                                per_event_type := perEventTypeOf old |}, err)) ∧
                   readCalls (trace s') = readCalls (trace s) ++ seq 1 (length old - 1) ∧
                   resetCalls (trace s') = resetCalls (trace s) ∧
                   probe s' = probe s
               | Panic => False
               end)).
  { intros s0 syscalls err Hp Hrd Hrs.
    unfold EventsStats_GetLost, GetLost. repeat wp_step.
    cbn [probe set_trace]. rewrite Hp. fold old.
    unfold wp at 1.
    assert (Hloop : ∀ s1,
              probe s1 = probe s →
              forRangeAcc (seq 0 (length old)) ∅ readBody s1
              = (Val (perEventTypeOf old),
                 set_trace (trace s1 ++ (CallGetEventCount <$> seq 1 (length old - 1))) s1)).
    { intros s1 Hp1. unfold perEventTypeOf.
      destruct (length old) as [|n]; [cbn; rewrite app_nil_r; by destruct s1|].
      replace (S n - 1)%nat with n by lia.
      cbn [seq forRangeAcc]. unfold bind at 1, readBody at 1.
      rewrite decide_True by done. unfold ret at 1.
      rewrite GetStats_loop by (rewrite elem_of_seq; lia).
      by rewrite Hp1. }
    rewrite Hloop by done. cbn [fst snd].
    unfold returns. unfold wp. cbn [fst snd trace probe set_trace].
    rewrite !readCalls_app, !resetCalls_app, Hrd, Hrs.
    rewrite readCalls_reads, resetCalls_reads.
    split; [by eexists _, _|]. cbn. by rewrite !app_nil_r. }
  repeat wp_step.
  destruct (syscallMonitor (probe s)) as [sm|].
  - repeat wp_step.
    destruct (SyscallMonitor_GetStats sm _) as [syscalls err].
    cbn [fst snd].
    eapply wp_mono; [apply (Hrest _ syscalls err)|].
    + done.
    + cbn [trace set_trace set_world]. rewrite readCalls_app. cbn.
      by rewrite app_nil_r.
    + cbn [trace set_trace set_world]. rewrite resetCalls_app. cbn.
      by rewrite app_nil_r.
    + by intros [x|x|] s'.
  - wp_step.
    eapply wp_mono; [apply (Hrest _ None None); done|].
    by intros [x|x|] s'.
Qed.

Lemma perEventTypeOf_ordinal_zero (counters : list Z) (v : Z) :
  perEventTypeOf (<[0%nat := v]> counters) = perEventTypeOf counters.
Proof.
  unfold perEventTypeOf. rewrite length_insert.
  assert (Hz : 0%nat ∉ seq 1 (length counters - 1))
    by (rewrite elem_of_seq; lia).
  revert Hz. generalize (seq 1 (length counters - 1)) as l.
  generalize (∅ : gmap string Z) as acc.
  intros acc l. revert acc.
  induction l as [|i l IH]; intros acc Hz; [done|].
  apply not_elem_of_cons in Hz as [Hi Hl].
  cbn [foldl]. rewrite list_lookup_insert_ne by done. by apply IH.
Qed.

Lemma exportInOrder_prefix statsdClient counters l w :
  (exportInOrder statsdClient counters l w).1.1 `prefix_of` l ∧
  ((exportInOrder statsdClient counters l w).1.2 = None →
   (exportInOrder statsdClient counters l w).1.1 = l) ∧
  ((∀ name value tags w', (Client_Count statsdClient name value tags w').1 = None) →
   (exportInOrder statsdClient counters l w).1.2 = None).
Proof.
  revert w. induction l as [|i l IH]; intros w; cbn [exportInOrder].
  - done.
  - destruct (receivedMetric counters i) as [[[name value] tags]|].
    + pose proof (λ Hall : ∀ name value tags w',
                    (Client_Count statsdClient name value tags w').1 = None,
                    Hall name value tags w) as Hc.
      destruct (Client_Count statsdClient name value tags w) as [[err|] w'].
      * cbn. split; [by exists l|]. split; [done|].
        intros Hall. by specialize (Hc Hall).
      * destruct (IH w') as (IHp & IHn & IHa).
        destruct (exportInOrder statsdClient counters l w') as [[done err] w''].
        cbn in *. split; [by apply prefix_cons|].
        split; [intros Hn; by rewrite IHn|done].
    + destruct (IH w) as (IHp & IHn & IHa).
      destruct (exportInOrder statsdClient counters l w) as [[done err] w'].
      cbn in *. split; [by apply prefix_cons|].
      split; [intros Hn; by rewrite IHn|done].
Qed.

(** The loop of [SendStats] does what [exportInOrder] says. *)
Lemma SendStats_loop_exact (statsdClient : StatsdClient) (l : list nat)
    (s : State) :
  NoDup l → 0%nat ∉ l →
  let old := PerEventType (eventsStats (probe s)) in
  let n := exportInOrder statsdClient old l (world s) in
  let r := forRange l (sendBody statsdClient) s in
  r.1 = match n.1.2 with
        | Some err => Return (Some err)
        | None => Val tt
        end ∧
  trace r.2 = trace s ++ flat_map (exportOf old) n.1.1 ∧
  PerEventType (eventsStats (probe r.2)) = resetAll n.1.1 old ∧
  Lost (eventsStats (probe r.2)) = Lost (eventsStats (probe s)) ∧
  world r.2 = n.2.
Proof.
  intros Hnd Hz. revert s.
  induction l as [|i l IH]; intros s old n r; subst old n r.
  - cbn. by rewrite app_nil_r.
  - apply NoDup_cons in Hnd as [Hi Hnd].
    apply not_elem_of_cons in Hz as [Hi0 Hl0].
    specialize (IH Hnd Hl0).
    cbn [forRange exportInOrder]. unfold bind. rewrite sendBody_run by done.
    cbn zeta.
    set (old := PerEventType (eventsStats (probe s))).
    set (v := default 0 (old !! i)).
    set (s1 := set_probe _ _).
    assert (Hext : ∀ w, exportInOrder statsdClient (alter (λ _, 0) i old) l w
                        = exportInOrder statsdClient old l w).
    { assert (Hl : ∀ j, j ∈ l → alter (λ _, 0) i old !! j = old !! j).
      { intros j Hj. apply list_lookup_alter_ne. by intros ->. }
      clear -Hl. revert Hl. induction l as [|j l IHl]; intros Hl w; [done|].
      cbn [exportInOrder]. unfold receivedMetric.
      rewrite (Hl j) by (apply elem_of_cons; by left).
      assert (Hl' : ∀ k, k ∈ l → alter (λ _, 0) i old !! k = old !! k)
        by (intros k Hk; apply Hl, elem_of_cons; by right).
      case_decide.
      - destruct (Client_Count _ _ _ _ w) as [[err|] w']; [done|].
        by rewrite IHl.
      - by rewrite IHl. }
    assert (Hflat : ∀ done, done `prefix_of` l →
              flat_map (exportOf (alter (λ _, 0) i old)) done
              = flat_map (exportOf old) done).
    { intros done [k ->]. apply exportOf_ext. intros j Hj.
      apply list_lookup_alter_ne. intros ->. apply Hi.
      apply elem_of_app. by left. }
    assert (Hexp : exportOf old i
                   = CallGetAndResetEventCount i ::
                     if decide (v > 0)
                     then [CallCount (MetricPrefix +:+ ".events.received") v
                             ["event_type:" +:+ EventType_String i]]
                     else []).
    { unfold exportOf, receivedMetric. fold v. by case_decide. }
    assert (Hrm : receivedMetric old i
                  = if decide (v > 0)
                    then Some (MetricPrefix +:+ ".events.received", v,
                               ["event_type:" +:+ EventType_String i])
                    else None) by done.
    rewrite Hrm. clear Hrm.
    destruct (decide (v > 0)) as [Hv|Hv].
    + destruct (Client_Count statsdClient _ v _ (world s)) as [[err|] w'];
        cbn [fst snd].
      * cbn [flat_map]. rewrite Hexp, app_nil_r, ?decide_True by done.
        unfold s1. cbn. rewrite <- app_assoc. done.
      * set (s2 := set_world w' _).
        specialize (IH s2). cbn zeta in IH.
        change (PerEventType (eventsStats (probe s2)))
          with (alter (λ _, 0) i old) in IH.
        change (world s2) with w' in IH.
        rewrite Hext in IH.
        destruct (exportInOrder_prefix statsdClient old l w') as (Hp & _).
        rewrite (Hflat _ Hp) in IH.
        destruct IH as (Hres & Htr & Hc & Hlost & Hw).
        destruct (exportInOrder statsdClient old l w') as [[done err] w''].
        cbn [fst snd] in *.
        destruct (forRange l (sendBody statsdClient) s2) as [res s3].
        cbn [fst snd] in *.
        split; [by rewrite Hres|].
        split; [|done].
        rewrite Htr. cbn [flat_map]. rewrite Hexp, ?decide_True by done.
        unfold s2, s1. cbn. by rewrite <- !app_assoc.
    + specialize (IH s1). cbn zeta in IH.
      change (PerEventType (eventsStats (probe s1)))
        with (alter (λ _, 0) i old) in IH.
      change (world s1) with (world s) in IH.
      rewrite Hext in IH.
      destruct (exportInOrder_prefix statsdClient old l (world s)) as (Hp & _).
      rewrite (Hflat _ Hp) in IH.
      destruct IH as (Hres & Htr & Hc & Hlost & Hw).
      destruct (exportInOrder statsdClient old l (world s)) as [[done err] w''].
      cbn [fst snd] in *.
      destruct (forRange l (sendBody statsdClient) s1) as [res s3].
      cbn [fst snd] in *.
      split; [by rewrite Hres|].
      split; [|done].
      rewrite Htr. cbn [flat_map]. rewrite Hexp, ?decide_False by done.
      unfold s1. cbn. by rewrite <- !app_assoc.
Qed.


Lemma SendStats_loop_all_exact (statsdClient : StatsdClient) (s : State) :
  let old := PerEventType (eventsStats (probe s)) in
  let n := exportInOrder statsdClient old (seq 1 (length old - 1)) (world s) in
  let r := forRange (seq 0 (length old)) (sendBody statsdClient) s in
  r.1 = match n.1.2 with
        | Some err => Return (Some err)
        | None => Val tt
        end ∧
  trace r.2 = trace s ++ flat_map (exportOf old) n.1.1 ∧
  PerEventType (eventsStats (probe r.2)) = resetAll n.1.1 old ∧
  Lost (eventsStats (probe r.2)) = Lost (eventsStats (probe s)) ∧
  world r.2 = n.2.
Proof.
  intros old. subst old.
  destruct (length (PerEventType (eventsStats (probe s)))) as [|k] eqn:Hlen.
  - cbn. by rewrite app_nil_r.
  - replace (S k - 1)%nat with k by lia.
    cbn [seq forRange]. unfold bind, sendBody at 1 2 3 4 5.
    rewrite decide_True by done. unfold ret at 1 2 3 4 5.
    apply SendStats_loop_exact; [apply NoDup_seq|].
    rewrite elem_of_seq. lia.
Qed.

Lemma SendStats_exact_wp (R : Type) (statsdClient : StatsdClient) (s : State) :
  wp (SendStats (R := R) statsdClient) s (exportPost R statsdClient s).
Proof.
  unfold SendStats.
  set (old := PerEventType (eventsStats (probe s))).
  assert (Hrest : ∀ s0 pre0,
    eventsStats (probe s0) = eventsStats (probe s) →
    trace s0 = trace s ++ pre0 →
    let sub := Client_Count statsdClient (MetricPrefix +:+ ".events.lost")
                 (Lost (eventsStats (probe s))) [] (world s0) in
    let n := exportInOrder statsdClient old (seq 1 (length old - 1)) sub.2 in
    let pre := pre0 ++ [CallGetAndResetLost;
                        CallCount (MetricPrefix +:+ ".events.lost")
                          (Lost (eventsStats (probe s))) []] in
    wp (R := option error) (A := option error)
       (lost <- EventsStats_GetAndResetLost ;;
        err <- Count statsdClient (MetricPrefix +:+ ".events.lost") lost [] ;;
        match err with
        | Some err => returns (Some err)
        | None => ret tt
        end ;;;
        p <- getProbe ;;
        forRange (seq 0 (length (PerEventType (eventsStats p))))
          (sendBody statsdClient) ;;;
        returns None)%go s0
      (λ r s', match r with
               | Val x | Return x =>
                   match sub.1 with
                   | Some err =>
                       Val (R := R) x = Val (Some err) ∧
                       trace s' = trace s ++ pre ∧
                       PerEventType (eventsStats (probe s')) = old ∧
                       world s' = sub.2
                   | None =>
                       Val (R := R) x = Val n.1.2 ∧
                       trace s' = trace s ++ pre ++ flat_map (exportOf old) n.1.1 ∧
                       PerEventType (eventsStats (probe s')) = resetAll n.1.1 old ∧
                       world s' = n.2
                   end
               | Panic => False
               end)).
  { intros s0 pre0 Hs0 Ht0 sub n pre. subst sub n pre.
    unfold EventsStats_GetAndResetLost, GetAndResetLost, Count.
    repeat wp_step.
    cbn [probe world set_trace set_probe]. rewrite Hs0.
    destruct (Client_Count statsdClient _ _ _ (world s0)) as [[err|] w']
      eqn:Hsub; cbn [fst snd].
    - wp_step. cbn [probe set_probe set_world set_trace set_eventsStats
                    eventsStats Lost PerEventType trace world].
      rewrite Ht0, <- !app_assoc. done.
    - repeat wp_step.
      cbn [probe eventsStats set_probe set_world set_trace set_eventsStats
           PerEventType].
      set (s1 := set_world w' _).
      pose proof (SendStats_loop_all_exact statsdClient s1) as Hloop.
      cbn zeta in Hloop.
      change (PerEventType (eventsStats (probe s1))) with old in Hloop.
      change (world s1) with w' in Hloop.
      fold old.
      destruct Hloop as (Hres & Htr & Hc & _ & Hw).
      unfold wp.
      destruct (forRange (seq 0 (length old)) (sendBody statsdClient) s1)
        as [res s2]. cbn [fst snd] in *.
      assert (Htr2 : trace s2
                     = trace s
                         ++ (pre0 ++ [CallGetAndResetLost;
                                      CallCount (MetricPrefix +:+ ".events.lost")
                                        (Lost (eventsStats (probe s))) []])
                         ++ flat_map (exportOf old)
                              (exportInOrder statsdClient old
                                 (seq 1 (length old - 1)) w').1.1).
      { rewrite Htr. unfold s1. cbn [trace set_world set_trace set_probe].
        rewrite Ht0, <- !app_assoc. done. }
      rewrite Hres.
      destruct (exportInOrder statsdClient old (seq 1 (length old - 1)) w').1.2;
        unfold returns; cbn [fst snd]; done. }
  unfold exportPost. fold old.
  repeat wp_step.
  destruct (syscallMonitor (probe s)) as [sm|].
  - repeat wp_step.
    destruct (SyscallMonitor_SendStats sm statsdClient _) as [[err|] w'] eqn:Hsm;
      cbn [fst snd].
    + wp_step. done.
    + wp_step.
      eapply wp_mono; [apply (Hrest _ [CallSyscallSendStats]); done|].
      intros [x|x|] s'; cbn [world set_world set_trace]; done.
  - wp_step. cbn [fst snd].
    eapply wp_mono; [apply (Hrest s []); [done|by rewrite app_nil_r]|].
    by intros [x|x|] s'.
Qed.


(** C10, as the code has it. [SendStats] reads and resets the per-type
    counters of the ordinals from 1 on, in order, and hands a counter to the
    statsd client only when the value read is strictly positive, a zero
    counter being reset without a metric, as [exportInOrder] says.  It
    stops at the first submission that fails, whose error it returns: that
    of the syscall monitor, before anything is read; that of the lost
    metric, before any per-type counter is read; or that of a per-type
    metric, the later counters being left unread.  It reads and resets
    every counter from ordinal 1 on when no submission fails, and then
    returns nil.  The counter at ordinal 0 is never read, reset or exported.
    [GetStats] reads, without changing them, the counters of the ordinals
    from 1 on, and its per-event-type map does not depend on the counter at
    ordinal 0. *)
Theorem SendStats_resets_from_ordinal_one_until_failure
    (R : Type) (statsdClient : StatsdClient) (s : State) :
  let old := PerEventType (eventsStats (probe s)) in
  let ordinals := seq 1 (length old - 1) in
  let r := SendStats (R := R) statsdClient s in
  let new := PerEventType (eventsStats (probe r.2)) in
  let g := GetStats (R := R) s in
  let monitor :=
    match syscallMonitor (probe s) with
    | Some sm => SyscallMonitor_SendStats sm statsdClient (world s)
    | None => (None, world s)
    end in
  let sub := Client_Count statsdClient (MetricPrefix +:+ ".events.lost")
               (Lost (eventsStats (probe s))) [] monitor.2 in
  let n := exportInOrder statsdClient old ordinals sub.2 in
  match monitor.1 with
  | Some err =>
      r.1 = Val (Some err) ∧
      resetCalls (trace r.2) = resetCalls (trace s) ∧
      countCalls (trace r.2) = countCalls (trace s) ∧
      new = old ∧
      world r.2 = monitor.2
  | None =>
      match sub.1 with
      | Some err =>
          r.1 = Val (Some err) ∧
          resetCalls (trace r.2) = resetCalls (trace s) ∧
          countCalls (trace r.2) = countCalls (trace s) ++ [lostMetric s] ∧
          new = old ∧
          world r.2 = sub.2
      | None =>
          r.1 = Val n.1.2 ∧
          resetCalls (trace r.2) = resetCalls (trace s) ++ n.1.1 ∧
          countCalls (trace r.2)
          = countCalls (trace s)
              ++ lostMetric s :: omap (receivedMetric old) n.1.1 ∧
          (∀ j : nat,
             new !! j
             = if decide (j ∈ n.1.1) then (λ _, 0) <$> old !! j
               else old !! j) ∧
          world r.2 = n.2
      end
  end ∧
  n.1.1 `prefix_of` ordinals ∧
  (n.1.2 = None → n.1.1 = ordinals) ∧
  ((∀ name value tags w,
      (Client_Count statsdClient name value tags w).1 = None) →
   monitor.1 = None →
   r.1 = Val None ∧ resetCalls (trace r.2) = resetCalls (trace s) ++ ordinals) ∧
  readCalls (trace r.2) = readCalls (trace s) ∧
  (∀ i m, receivedMetric old i = Some m →
          m.1.2 > 0 ∧ m.1.2 = default 0 (old !! i)) ∧
  new !! 0%nat = old !! 0%nat ∧
  (r.1 = Val None →
   ∀ j, (1 ≤ j < length old)%nat → new !! j = Some 0) ∧
  (∃ syscalls err,
     g.1 = Val ({| events_lost := Lost (eventsStats (probe s));
                   events_syscalls := syscalls;
                   per_event_type := perEventTypeOf old |}, err)) ∧
  (∀ v, perEventTypeOf (<[0%nat := v]> old) = perEventTypeOf old) ∧
  readCalls (trace g.2) = readCalls (trace s) ++ ordinals ∧
  resetCalls (trace g.2) = resetCalls (trace s) ∧
  probe g.2 = probe s.
Proof.
  intros old ordinals r new g monitor sub n.
  pose proof (SendStats_exact_wp R statsdClient s) as Hs.
  pose proof (GetStats_wp R s) as Hg.
  unfold wp, exportPost in Hs, Hg. cbn zeta in Hs, Hg.
  fold old r new g in Hs, Hg. fold ordinals in Hs, Hg.
  fold monitor in Hs. fold sub in Hs. fold n in Hs.
  destruct Hg as (Hgv & Hgrd & Hgrs & Hgp).
  destruct (exportInOrder_prefix statsdClient old ordinals sub.2)
    as (Hp & Hn & Hall). fold n in Hp, Hn, Hall.
  assert (Hz : 0%nat ∉ n.1.1).
  { intros Hin. destruct Hp as [k Hk].
    assert (Hin' : 0%nat ∈ ordinals) by (rewrite Hk; apply elem_of_app; by left).
    unfold ordinals in Hin'. rewrite elem_of_seq in Hin'. lia. }
  set (pre := match syscallMonitor (probe s) with
              | Some _ => [CallSyscallSendStats]
              | None => []
              end
              ++ [CallGetAndResetLost;
                  CallCount (MetricPrefix +:+ ".events.lost")
                    (Lost (eventsStats (probe s))) []]) in Hs.
  assert (Hpre : resetCalls pre = [] ∧ readCalls pre = [] ∧
                 countCalls pre = [lostMetric s]).
  { unfold pre. destruct (syscallMonitor (probe s)); repeat split. }
  destruct Hpre as (Hpr & Hpd & Hpc).
  assert (Hmain :
    match monitor.1 with
    | Some err =>
        r.1 = Val (Some err) ∧
        resetCalls (trace r.2) = resetCalls (trace s) ∧
        countCalls (trace r.2) = countCalls (trace s) ∧
        new = old ∧
        world r.2 = monitor.2
    | None =>
        match sub.1 with
        | Some err =>
            r.1 = Val (Some err) ∧
            resetCalls (trace r.2) = resetCalls (trace s) ∧
            countCalls (trace r.2) = countCalls (trace s) ++ [lostMetric s] ∧
            new = old ∧
            world r.2 = sub.2
        | None =>
            r.1 = Val n.1.2 ∧
            resetCalls (trace r.2) = resetCalls (trace s) ++ n.1.1 ∧
            countCalls (trace r.2)
            = countCalls (trace s)
                ++ lostMetric s :: omap (receivedMetric old) n.1.1 ∧
            (∀ j : nat,
               new !! j
               = if decide (j ∈ n.1.1) then (λ _, 0) <$> old !! j
                 else old !! j) ∧
            world r.2 = n.2
        end
    end ∧ readCalls (trace r.2) = readCalls (trace s)).
  { destruct monitor.1 as [err|].
    - destruct Hs as (Hr & Htr & Hnew & Hw).
      rewrite Htr, resetCalls_app, countCalls_app, readCalls_app. cbn.
      by rewrite !app_nil_r.
    - destruct sub.1 as [err|].
      + destruct Hs as (Hr & Htr & Hnew & Hw).
        rewrite Htr, resetCalls_app, countCalls_app, readCalls_app,
          Hpr, Hpd, Hpc.
        by rewrite !app_nil_r.
      + destruct Hs as (Hr & Htr & Hnew & Hw).
        rewrite Htr, !resetCalls_app, !countCalls_app, !readCalls_app,
          Hpr, Hpd, Hpc, resetCalls_export, readCalls_export,
          countCalls_export.
        cbn [app]. rewrite !app_nil_r.
        split; [|done]. split; [done|]. split; [done|]. split; [done|].
        split; [|done].
        intros j. fold new in Hnew. rewrite Hnew. apply resetAll_lookup. }
  destruct Hmain as (Hmain & Hrd).
  split; [exact Hmain|].
  split; [done|]. split; [done|]. split.
  { intros Hok Hm. specialize (Hall Hok). specialize (Hn Hall).
    rewrite Hm in Hmain.
    assert (Hsub : sub.1 = None) by apply Hok.
    rewrite Hsub in Hmain. destruct Hmain as (Hr & Hrs & _).
    by rewrite Hr, Hrs, Hall, Hn. }
  split; [done|]. split.
  { intros i m. unfold receivedMetric. case_decide; [|done].
    intros [= <-]. done. }
  split.
  { destruct monitor.1 as [err|]; [by destruct Hmain as (_ & _ & _ & -> & _)|].
    destruct sub.1 as [err|]; [by destruct Hmain as (_ & _ & _ & -> & _)|].
    destruct Hmain as (_ & _ & _ & Hlook & _).
    by rewrite Hlook, decide_False. }
  split.
  { intros Hok j Hj.
    destruct monitor.1 as [err|]; [destruct Hmain as (Hr & _); congruence|].
    destruct sub.1 as [err|]; [destruct Hmain as (Hr & _); congruence|].
    destruct Hmain as (Hr & _ & _ & Hlook & _).
    assert (Hnone : n.1.2 = None) by congruence.
    rewrite Hlook, (Hn Hnone).
    rewrite decide_True by (apply elem_of_seq; lia).
    destruct (lookup_lt_is_Some_2 old j) as [c ->]; [lia|done]. }
  split; [done|].
  split; [apply perEventTypeOf_ordinal_zero|].
  done.
Qed.

End Statistics.

(** ** More on the dispatcher *)

Section DispatcherCoverage.
Context `{Schema, Kernel, !Package}.

Lemma errorLogs_app (t1 t2 : list Action) :
  errorLogs (t1 ++ t2) = errorLogs t1 ++ errorLogs t2.
Proof. apply omap_app. Qed.

Lemma unmarshalPayload_post {P} eventType name (get : Event → P) set dec
    data offset s :
  eventType ∈ supportedEventTypes →
  switchPost eventType data offset s
    (unmarshalPayload name get set dec data offset s).
Proof.
  intros Hin. rewrite unmarshalPayload_run. unfold slice_from, switchPost.
  case_decide.
  - cbn zeta.
    destruct (dec (get (event (probe s))) (drop offset data)) as [[x n] [err|]];
      cbn [fst snd].
    + repeat split; try done. eexists. split; [reflexivity|].
      split; [done|]. split; [done|]. by eexists _, _.
    + repeat split; try done. exists []. split; [by rewrite app_nil_r|].
      by constructor.
  - repeat split; try done. exists []. by rewrite app_nil_r.
Qed.

(** The switch of [handleEvent], case by case. *)
Lemma switchOf_post eventType data offset s :
  switchPost eventType data offset s (switchOf eventType data offset s).
Proof.
  unfold switchOf.
  repeat case_decide;
    try (apply unmarshalPayload_post; subst eventType;
         unfold supportedEventTypes; set_solver).
  - (* mount *)
    rewrite mount_case_run. unfold slice_from, switchPost. case_decide.
    + cbn zeta.
      destruct (MountEvent_UnmarshalBinary (Mount (event (probe s)))
                  (drop offset data)) as [[m n] [err|]]; cbn [fst snd].
      * repeat split; try done. eexists. split; [reflexivity|].
        split; [done|]. split; [done|]. by eexists _, _.
      * repeat split; try done. eexists. split; [reflexivity|].
        by apply switchCalls_mount.
    + repeat split; try done. exists []. rewrite app_nil_r.
      repeat split; try done. subst eventType.
      unfold supportedEventTypes. set_solver.
  - (* umount *)
    rewrite umount_case_run. unfold slice_from, switchPost. case_decide.
    + cbn zeta.
      destruct (UmountEvent_UnmarshalBinary (Umount (event (probe s)))
                  (drop offset data)) as [[u n] [err|]]; cbn [fst snd].
      * repeat split; try done. eexists. split; [reflexivity|].
        split; [done|]. split; [done|]. by eexists _, _.
      * repeat split; try done. eexists. split; [reflexivity|].
        by apply switchCalls_umount.
    + repeat split; try done. exists []. rewrite app_nil_r.
      repeat split; try done. subst eventType.
      unfold supportedEventTypes. set_solver.
  - (* default *)
    unfold bind, logf, emit, returns, switchPost. cbn [fst snd].
    repeat split; try done. eexists. split; [reflexivity|].
    split; [done|]. split; [|by eexists _, _].
    unfold supportedEventTypes. rewrite !elem_of_cons, elem_of_nil.
    intros Hin. exfalso. intuition.
Qed.

(** The four ways a callback ends: the header fails to decode, the switch
    drops the buffer, the payload starts past the end of the buffer, or the
    event is decoded, counted and dispatched. *)
Lemma handleEvent_cases (CPU : Z) (data : list Byte.byte) (s : State) :
  let r := handleEvent CPU data s in
  let h := Event_UnmarshalBinary freshEvent data in
  let eventType := Type' h.1.1 in
  let decoding :=
    Log TraceLvl "Decoding event %s" [ArgS (EventType_String eventType)] in
  let same :=
    resolvers (probe r.2) = resolvers (probe s) ∧
    eventsStats (probe r.2) = eventsStats (probe s) ∧
    world r.2 = world s in
  setup r.2 = setup s ∧
  ((∃ err,
      h.2 = Some err ∧ decodedType data = None ∧ r.1 = Val tt ∧
      trace r.2
      = trace s ++ [Log ErrorLvl "failed to decode event: %s" [ArgS err]] ∧
      same)
   ∨ (h.2 = None ∧ decodedType data = None ∧ r.1 = Val tt ∧
      (∃ format args,
         trace r.2 = trace s ++ [decoding; Log ErrorLvl format args]) ∧
      same ∧
      (eventType ∈ supportedEventTypes → (h.1.2 ≤ length data)%nat))
   ∨ (h.2 = None ∧ decodedType data = None ∧ r.1 = Panic ∧
      trace r.2 = trace s ++ [decoding] ∧ same ∧
      eventType ∈ supportedEventTypes ∧ ¬ (h.1.2 ≤ length data)%nat)
   ∨ (h.2 = None ∧ decodedType data = Some eventType ∧ r.1 = Val tt ∧
      (h.1.2 ≤ length data)%nat ∧
      (∃ t,
         switchCalls eventType (resolvers (probe s)) (resolvers (probe r.2)) t ∧
         trace r.2
         = trace s
             ++ decoding :: t
             ++ [CallCountEventType eventType 1;
                 Log TraceLvl "Dispatching event %+v" [ArgE (event (probe r.2))]]
             ++ match handler (probe s) with
                | Some c => [CallHandleEvent c (event (probe r.2))]
                | None => []
                end) ∧
      eventsStats (probe r.2)
      = CountEventType eventType 1 (eventsStats (probe s)) ∧
      world r.2 = match handler (probe s) with
                  | Some c => HandleEvent c (event (probe r.2)) (world s)
                  | None => world s
                  end)).
Proof.
  intros r h eventType decoding. subst r. rewrite handleEvent_unfold.
  unfold decodedType. subst h eventType decoding.
  destruct (Event_UnmarshalBinary freshEvent data) as [[e read] [err|]];
    cbn [fst snd].
  { split; [done|]. left. exists err. by repeat split. }
  set (s1 := addTrace _ (afterHeader e s)).
  pose proof (switchOf_post (Type' e) data read s1) as Hpost.
  destruct (switchOf_observed (Type' e) data read s1) as (_ & _ & Hv).
  change (event (probe s1)) with e in Hv.
  unfold func, bind. unfold switchPost in Hpost.
  destruct (switchOf (Type' e) data read s1) as [[[]|[]|] s2];
    cbn [fst snd] in *;
    destruct Hpost as (Hsetup & Hstats & Hworld & t & Htr & Ht).
  - (* decoded *)
    destruct Hv as [Hv _]. destruct (Hv eq_refl) as [Herr Hle].
    rewrite Herr, decide_True by done.
    rewrite countAndDispatch_run. cbn [fst snd].
    assert (Hh : handler (probe s2) = handler (probe s))
      by (by injection Hsetup).
    rewrite Hh.
    split; [by destruct (handler (probe s))|].
    do 3 right. split; [done|]. split; [done|].
    split; [by destruct (handler (probe s))|]. split; [done|].
    split; [|split].
    + exists t.
      destruct (handler (probe s)) as [c|];
        cbn [fst snd trace probe event resolvers set_trace set_probe
             set_world set_eventsStats addTrace];
        (split; [done|]); unfold addTrace; cbn [trace set_trace set_probe];
        rewrite Htr; unfold s1, addTrace, afterHeader;
        cbn [trace set_trace set_probe]; by rewrite <- !app_assoc.
    + by destruct (handler (probe s)); cbn; rewrite Hstats.
    + by destruct (handler (probe s)); cbn; rewrite ?Hworld.
  - (* dropped by the switch *)
    split; [done|]. right. left.
    split; [done|]. split.
    { destruct (variantError (Type' e) e (drop read data)) as [[?|]|];
        try done.
      case_decide as Hle; [|done]. destruct Hv as [_ Hv].
      by specialize (Hv (conj eq_refl Hle)). }
    split; [done|]. destruct Ht as (Hres & Hsup & format & args & ->).
    split; [|done]. exists format, args. rewrite Htr.
    unfold s1, addTrace, afterHeader. cbn [trace set_trace set_probe].
    by rewrite <- app_assoc.
  - (* the payload starts past the end *)
    split; [done|]. do 2 right. left.
    destruct Ht as (-> & Hres & Hin & Hle).
    split; [done|]. split.
    { destruct (variantError (Type' e) e (drop read data)) as [[?|]|];
        try done.
      by rewrite decide_False. }
    split; [done|]. split; [|done].
    rewrite Htr, app_nil_r. done.
Qed.

(** The calls of the dispatcher are none of the calls of the engines and of
    the statistics. *)
Lemma dispatcherCalls_others (t : list Action) :
  forallb isDispatcherCall t = true →
  putCalls t = [] ∧ discarderCalls t = [] ∧ approversCalls t = [] ∧
  countCalls t = [] ∧ resetCalls t = [] ∧ readCalls t = [].
Proof.
  induction t as [|a t IH]; [done|].
  cbn [forallb]. intros [Ha Ht]%andb_prop. specialize (IH Ht).
  destruct a; try done.
Qed.

Lemma switchCalls_dispatcher eventType r r' t :
  switchCalls eventType r r' t → forallb isDispatcherCall t = true.
Proof.
  intros [?|m0 ? ? ? ?|mountID ? ?]; try done.
  cbn. by destruct (MountResolver_Delete mountID r).1.
Qed.

Lemma handleEvent_calls (CPU : Z) (data : list Byte.byte) (s : State) :
  ∃ t, trace (handleEvent CPU data s).2 = trace s ++ t ∧
       forallb isDispatcherCall t = true.
Proof.
  pose proof (handleEvent_cases CPU data s) as Hc. cbn zeta in Hc.
  destruct Hc as (_ & [Hc|[Hc|[Hc|Hc]]]).
  - destruct Hc as (err & _ & _ & _ & Htr & _). by eexists.
  - destruct Hc as (_ & _ & _ & (format & args & Htr) & _). by eexists.
  - destruct Hc as (_ & _ & _ & Htr & _). by eexists.
  - destruct Hc as (_ & _ & _ & _ & (t & Ht & Htr) & _).
    eexists. split; [exact Htr|].
    apply switchCalls_dispatcher in Ht.
    cbn [forallb isDispatcherCall andb]. rewrite forallb_app, Ht.
    by destruct (handler (probe s)).
Qed.

(** What a callback does to the statistics is told by [decodedType]. *)
Lemma handleEvent_eventsStats (CPU : Z) (data : list Byte.byte) (s : State) :
  eventsStats (probe (handleEvent CPU data s).2)
  = match decodedType data with
    | Some eventType => CountEventType eventType 1 (eventsStats (probe s))
    | None => eventsStats (probe s)
    end.
Proof.
  pose proof (handleEvent_cases CPU data s) as Hc. cbn zeta in Hc.
  destruct Hc as (_ & [Hc|[Hc|[Hc|Hc]]]).
  - destruct Hc as (err & _ & -> & _ & _ & _ & ? & _). done.
  - destruct Hc as (_ & -> & _ & _ & (_ & ? & _) & _). done.
  - destruct Hc as (_ & -> & _ & _ & (_ & ? & _) & _). done.
  - destruct Hc as (_ & -> & _ & _ & _ & ? & _). done.
Qed.

Lemma wrap64_add (x y : Z) : wrap64 (wrap64 x + y) = wrap64 (x + y).
Proof.
  unfold wrap64. f_equal.
  replace ((x + 2 ^ 63) mod 2 ^ 64 - 2 ^ 63 + y + 2 ^ 63)
    with ((x + 2 ^ 63) mod 2 ^ 64 + y) by lia.
  rewrite Zplus_mod_idemp_l. f_equal. lia.
Qed.

Lemma wrap64_small (z : Z) : - 2 ^ 63 ≤ z < 2 ^ 63 → wrap64 z = z.
Proof. intros Hz. unfold wrap64. rewrite Z.mod_small; lia. Qed.

Lemma iter_count_small (n : nat) (c : Z) :
  (- 2 ^ 63 ≤ c)%Z → (c + Z.of_nat n < 2 ^ 63)%Z →
  Nat.iter n (λ c, wrap64 (c + 1)) c = c + Z.of_nat n.
Proof.
  intros Hc. induction n as [|n IH]; intros Hn; simpl.
  - lia.
  - rewrite IH by lia. rewrite wrap64_small; lia.
Qed.

Lemma decodedCount_cons (eventType : nat) data buffers :
  decodedCount eventType (data :: buffers)
  = ((if decide (decodedType data = Some eventType) then 1 else 0)
     + decodedCount eventType buffers)%nat.
Proof.
  unfold decodedCount. rewrite filter_cons. by case_decide.
Qed.

Lemma switchCalls_countedEventTypes eventType r r' t :
  switchCalls eventType r r' t → countedEventTypes t = [].
Proof.
  intros [?|m0 ? ? ? ?|mountID ? ?]; try done.
  cbn. by destruct (MountResolver_Delete mountID r).1.
Qed.

(** The counter calls of a callback are told by [decodedType]. *)
Lemma handleEvent_counted (CPU : Z) (data : list Byte.byte) (s : State) :
  countedEventTypes (trace (handleEvent CPU data s).2)
  = countedEventTypes (trace s)
      ++ match decodedType data with
         | Some eventType => [(eventType, 1)]
         | None => []
         end.
Proof.
  pose proof (handleEvent_cases CPU data s) as Hc. cbn zeta in Hc.
  destruct Hc as (_ & [Hc|[Hc|[Hc|Hc]]]).
  - destruct Hc as (err & _ & -> & _ & Htr & _).
    by rewrite Htr, countedEventTypes_app.
  - destruct Hc as (_ & -> & _ & (format & args & Htr) & _).
    by rewrite Htr, countedEventTypes_app.
  - destruct Hc as (_ & -> & _ & Htr & _).
    by rewrite Htr, countedEventTypes_app.
  - destruct Hc as (_ & -> & _ & _ & (t & Ht & Htr) & _).
    rewrite Htr, countedEventTypes_app. f_equal.
    change (countedEventTypes (?a :: ?l)) with (countedEventTypes ([a] ++ l)).
    rewrite !countedEventTypes_app, (switchCalls_countedEventTypes _ _ _ _ Ht).
    by destruct (handler (probe s)).
Qed.

(** A callback returns normally unless the header reports more bytes than
    the buffer has, in which case nothing was decoded. *)
Lemma handleEvent_outcome (CPU : Z) (data : list Byte.byte) (s : State) :
  (handleEvent CPU data s).1 = Val tt
  ∨ (handleEvent CPU data s).1 = Panic ∧ decodedType data = None ∧
    ¬ ((Event_UnmarshalBinary freshEvent data).1.2 ≤ length data)%nat.
Proof.
  pose proof (handleEvent_cases CPU data s) as Hc. cbn zeta in Hc.
  destruct Hc as (_ & [Hc|[Hc|[Hc|Hc]]]).
  - destruct Hc as (err & _ & _ & ? & _). by left.
  - destruct Hc as (_ & _ & ? & _). by left.
  - destruct Hc as (_ & ? & ? & _ & _ & _ & ?). by right.
  - destruct Hc as (_ & _ & ? & _). by left.
Qed.

(** A sequence of callbacks: the buffers [done] are those handled before a
    panic, if any. *)
Lemma handleEvents_run (CPU : Z) (buffers : list (list Byte.byte)) (s : State) :
  let r := handleEvents CPU buffers s in
  ∃ done,
    done `prefix_of` buffers ∧
    (r.1 = Val tt ∧ done = buffers ∨ r.1 = Panic) ∧
    (∀ i : nat,
       PerEventType (eventsStats (probe r.2)) !! i
       = Nat.iter (decodedCount i done) (λ c, wrap64 (c + 1))
           <$> PerEventType (eventsStats (probe s)) !! i) ∧
    Lost (eventsStats (probe r.2)) = Lost (eventsStats (probe s)) ∧
    setup r.2 = setup s ∧
    countedEventTypes (trace r.2)
    = countedEventTypes (trace s)
        ++ ((λ eventType, (eventType, 1)) <$> omap decodedType done) ∧
    (Forall (λ data, ((Event_UnmarshalBinary freshEvent data).1.2
                      ≤ length data)%nat) buffers →
     r.1 = Val tt) ∧
    length (PerEventType (eventsStats (probe r.2)))
    = length (PerEventType (eventsStats (probe s))).
Proof.
  revert s. induction buffers as [|data buffers IH]; intros s r; subst r.
  - exists []. cbn. rewrite app_nil_r. repeat split; try done.
    + by left.
    + intros i. by destruct (_ !! i).
  - cbn [handleEvents forRange]. unfold bind.
    pose proof (handleEvent_eventsStats CPU data s) as Hst.
    pose proof (handleEvent_counted CPU data s) as Hcnt.
    pose proof (handleEvent_outcome CPU data s) as Hout.
    assert (Hsetup : setup (handleEvent CPU data s).2 = setup s)
      by apply handleEvent_cases.
    destruct (handleEvent CPU data s) as [[[]| |] s1]; cbn [fst snd] in *.
    + specialize (IH s1). cbn zeta in IH. unfold handleEvents in IH.
      destruct IH as (done & Hp & Hres & Hc & Hl & Hs & Ht & Hall & Hlen).
      exists (data :: done).
      split; [by apply prefix_cons|].
      split; [destruct Hres as [[? ->]|?]; [left; by split|by right]|].
      split; [|split; [|split; [|split; [|split]]]].
      * intros i. rewrite Hc, Hst, decodedCount_cons.
        destruct (decodedType data) as [eventType|].
        -- cbn [CountEventType PerEventType]. rewrite list_lookup_alter.
           destruct (decide (eventType = i)) as [->|Hne].
           ++ rewrite decide_True by done.
              destruct (_ !! i) as [c|]; [|done].
              cbn [fmap option_fmap option_map].
              change (1 + decodedCount i done)%nat
                with (S (decodedCount i done)).
              by rewrite Nat.iter_succ_r.
           ++ rewrite decide_False by congruence. done.
        -- rewrite decide_False by done. done.
      * rewrite Hl, Hst. by destruct (decodedType data).
      * by rewrite Hs.
      * rewrite Ht, Hcnt, <- app_assoc. f_equal.
        change (omap decodedType (data :: done))
          with (match decodedType data with
                | Some y => y :: omap decodedType done
                | None => omap decodedType done
                end).
        by destruct (decodedType data).
      * intros Hle. apply Hall. by apply Forall_cons in Hle as [_ ?].
      * rewrite Hlen, Hst. destruct (decodedType data); [|done].
        cbn [CountEventType PerEventType]. by rewrite length_alter.
    + destruct Hout as [?|[? _]]; done.
    + destruct Hout as [?|(_ & Hd & Hle)]; [done|].
      rewrite Hd in Hst, Hcnt. exists [].
      split; [apply prefix_nil|]. split; [by right|].
      split; [|split; [|split; [|split; [|split]]]].
      * intros i. rewrite Hst. by destruct (_ !! i).
      * by rewrite Hst.
      * done.
      * rewrite Hcnt. done.
      * intros Hall. by apply Forall_cons in Hall as [? _].
      * by rewrite Hst.
Qed.

(** X5. Over a sequence of callbacks, which a panic of one of them ends,
    the counter of each event type moves by one increment for every buffer
    handled that decodes to that type, dropped buffers counting for
    nothing, and the counter calls are made in the order of arrival.  While
    a counter stays in the range of an int64 it has grown by exactly the
    number of such buffers.  Every buffer is handled when every header
    reports no more bytes than its buffer has.  The lost counter and the
    setup are as they were. *)
Theorem handleEvents_counts_decoded_buffers
    (CPU : Z) (buffers : list (list Byte.byte)) (s : State) :
  let r := handleEvents CPU buffers s in
  let old := PerEventType (eventsStats (probe s)) in
  let new := PerEventType (eventsStats (probe r.2)) in
  ∃ done,
    done `prefix_of` buffers ∧
    (r.1 = Val tt ∧ done = buffers ∨ r.1 = Panic) ∧
    (Forall (λ data, ((Event_UnmarshalBinary freshEvent data).1.2
                      ≤ length data)%nat) buffers →
     r.1 = Val tt) ∧
    (∀ i : nat,
       new !! i
       = Nat.iter (decodedCount i done) (λ c, wrap64 (c + 1)) <$> old !! i) ∧
    (∀ (i : nat) (c : Z),
       old !! i = Some c → (- 2 ^ 63 ≤ c)%Z →
       (c + Z.of_nat (decodedCount i done) < 2 ^ 63)%Z →
       new !! i = Some (c + Z.of_nat (decodedCount i done))) ∧
    countedEventTypes (trace r.2)
    = countedEventTypes (trace s)
        ++ ((λ eventType, (eventType, 1)) <$> omap decodedType done) ∧
    Lost (eventsStats (probe r.2)) = Lost (eventsStats (probe s)) ∧
    setup r.2 = setup s.
Proof.
  intros r old new.
  destruct (handleEvents_run CPU buffers s)
    as (done & Hp & Hres & Hc & Hl & Hs & Ht & Hall & _).
  fold r new old in Hres, Hc, Hl, Hs, Ht, Hall.
  exists done. repeat (split; [done|]). split; [|done].
  intros i c Hi Hlo Hhi. rewrite Hc, Hi. cbn. f_equal.
  by apply iter_count_small.
Qed.

(** X4. A callback stays within the dispatcher: it leaves the manager, its
    options, the configuration, the consumer, the registries and the syscall
    monitor as they were, does not touch the lost counter nor the size of
    the counter array, and calls no kernel table, no discarder or approver
    function, no statsd client and no read of a counter. *)
Theorem handleEvent_frame (CPU : Z) (data : list Byte.byte) (s : State) :
  let r := handleEvent CPU data s in
  setup r.2 = setup s ∧
  Lost (eventsStats (probe r.2)) = Lost (eventsStats (probe s)) ∧
  length (PerEventType (eventsStats (probe r.2)))
  = length (PerEventType (eventsStats (probe s))) ∧
  (∃ t, trace r.2 = trace s ++ t ∧ forallb isDispatcherCall t = true) ∧
  putCalls (trace r.2) = putCalls (trace s) ∧
  discarderCalls (trace r.2) = discarderCalls (trace s) ∧
  approversCalls (trace r.2) = approversCalls (trace s) ∧
  countCalls (trace r.2) = countCalls (trace s) ∧
  resetCalls (trace r.2) = resetCalls (trace s) ∧
  readCalls (trace r.2) = readCalls (trace s).
Proof.
  intros r.
  destruct (handleEvent_calls CPU data s) as (t & Htr & Ht). fold r in Htr.
  pose proof (dispatcherCalls_others t Ht) as (Hp & Hd & Ha & Hc & Hrs & Hrd).
  pose proof (handleEvent_eventsStats CPU data s) as Hst. fold r in Hst.
  split; [apply handleEvent_cases|].
  rewrite Hst, Htr, putCalls_app, discarderCalls_app, approversCalls_app,
    countCalls_app, resetCalls_app, readCalls_app, Hp, Hd, Ha, Hc, Hrs, Hrd,
    !app_nil_r.
  split; [by destruct (decodedType data)|].
  split.
  { destruct (decodedType data); [|done].
    cbn [CountEventType PerEventType]. by rewrite length_alter. }
  split; [by exists t|]. done.
Qed.

(** X2. A callback either returns normally or panics, and it panics exactly
    when the header decodes without error to the tag of a case of the switch
    while reporting more bytes read than the buffer holds, the payload slice
    then starting past the end of the buffer; a header error and an unknown
    tag never panic. *)
Theorem handleEvent_panics_iff_payload_past_end
    (CPU : Z) (data : list Byte.byte) (s : State) :
  let r := handleEvent CPU data s in
  let h := Event_UnmarshalBinary freshEvent data in
  (r.1 = Val tt ∨ r.1 = Panic) ∧
  (r.1 = Panic ↔
     h.2 = None ∧ Type' h.1.1 ∈ supportedEventTypes ∧
     (length data < h.1.2)%nat).
Proof.
  intros r h.
  pose proof (handleEvent_cases CPU data s) as Hc. cbn zeta in Hc.
  fold r h in Hc. destruct Hc as (_ & [Hc|[Hc|[Hc|Hc]]]).
  - destruct Hc as (err & Hh & _ & Hr & _). split; [by left|].
    rewrite Hr, Hh. split; [done|]. by intros [? _].
  - destruct Hc as (Hh & _ & Hr & _ & _ & Hle). split; [by left|].
    rewrite Hr. split; [done|]. intros (_ & Hin & Hlt).
    specialize (Hle Hin). lia.
  - destruct Hc as (Hh & _ & Hr & _ & _ & Hin & Hle). split; [by right|].
    split; [|done]. intros _. split; [done|]. split; [done|]. lia.
  - destruct Hc as (Hh & _ & Hr & Hle & _). split; [by left|].
    rewrite Hr. split; [done|]. intros (_ & _ & Hlt). lia.
Qed.

(** A decoded unmount event, whatever the cache holds. *)
Lemma handleEvent_umount_run
    (CPU : Z) (data : list Byte.byte) (s : State)
    (e : Event) (read : nat) (u : UmountEvent) (n : nat) :
  NoDup supportedEventTypes →
  Event_UnmarshalBinary freshEvent data = (e, read, None) →
  Type' e = FileUmountEventType →
  (read ≤ length data)%nat →
  UmountEvent_UnmarshalBinary (Umount e) (drop read data) = (u, n, None) →
  let r := handleEvent CPU data s in
  let d := MountResolver_Delete (MountID u) (resolvers (probe s)) in
  r.1 = Val tt ∧
  resolvers (probe r.2) = d.2 ∧
  cacheCalls (trace r.2) = cacheCalls (trace s) ++ [CallDelete (MountID u)] ∧
  errorLogs (trace r.2)
  = errorLogs (trace s)
      ++ match d.1 with
         | Some err => [("failed to delete mount point %d from cache: %s",
                         [ArgZ (MountID u); ArgS err])]
         | None => []
         end ∧
  event (probe r.2) = set_Umount u e.
Proof.
  intros Hnd Hh Ht Hle Hu r d.
  pose proof (handleEvent_unfold CPU data s) as Hr. fold r in Hr.
  rewrite Hh, Ht, switchOf_umount in Hr by done.
  set (s1 := addTrace _ (afterHeader e s)) in Hr.
  unfold func, bind at 1 in Hr. rewrite umount_case_run in Hr.
  unfold slice_from in Hr. rewrite decide_True in Hr by done.
  cbn zeta in Hr.
  change (event (probe s1)) with e in Hr.
  change (resolvers (probe s1)) with (resolvers (probe s)) in Hr.
  rewrite Hu in Hr. cbn [fst snd] in Hr. fold d in Hr.
  rewrite countAndDispatch_run in Hr. rewrite Hr. cbn [fst snd].
  split; [done|].
  destruct (handler (probe s)) as [h|] eqn:Hhandler;
    unfold s1, addTrace, afterHeader;
    cbn [fst snd trace probe set_probe set_trace set_event resolvers
         set_resolvers set_eventsStats set_world event handler world
         eventsStats];
    rewrite ?Hhandler;
    cbn [fst snd trace probe set_probe set_trace set_event resolvers
         set_resolvers set_eventsStats set_world event handler world
         eventsStats];
    rewrite !cacheCalls_app, !errorLogs_app;
    (destruct d.1 as [err|]; cbn; rewrite ?app_nil_r; done).
Qed.

(** A decoded mount event. *)
Lemma handleEvent_mount_run
    (CPU : Z) (data : list Byte.byte) (s : State)
    (e : Event) (read : nat) (m : MountEvent) (n : nat) :
  NoDup supportedEventTypes →
  Event_UnmarshalBinary freshEvent data = (e, read, None) →
  Type' e = FileMountEventType →
  (read ≤ length data)%nat →
  MountEvent_UnmarshalBinary (Mount e) (drop read data) = (m, n, None) →
  let m1 := MountEvent_ResolveMountPoint (resolvers (probe s)) m in
  let m2 := MountEvent_ResolveRoot (resolvers (probe s)) m1 in
  let r := handleEvent CPU data s in
  r.1 = Val tt ∧
  resolvers (probe r.2) = MountResolver_Insert m2 (resolvers (probe s)) ∧
  errorLogs (trace r.2) = errorLogs (trace s).
Proof.
  intros Hnd Hh Ht Hle Hm m1 m2 r.
  pose proof (handleEvent_unfold CPU data s) as Hr. fold r in Hr.
  rewrite Hh, Ht, switchOf_mount in Hr by done.
  set (s1 := addTrace _ (afterHeader e s)) in Hr.
  unfold func, bind at 1 in Hr. rewrite mount_case_run in Hr.
  unfold slice_from in Hr. rewrite decide_True in Hr by done.
  cbn zeta in Hr.
  change (event (probe s1)) with e in Hr.
  change (resolvers (probe s1)) with (resolvers (probe s)) in Hr.
  rewrite Hm in Hr. cbn [fst snd] in Hr. fold m1 m2 in Hr.
  rewrite countAndDispatch_run in Hr. rewrite Hr. cbn [fst snd].
  split; [done|].
  destruct (handler _) as [h|];
    unfold s1, addTrace, afterHeader;
    cbn [fst snd trace probe set_probe set_trace set_event resolvers
         set_resolvers set_eventsStats set_world event Mount set_Mount];
    rewrite !errorLogs_app; cbn; rewrite ?app_nil_r; done.
Qed.

(** X6. For a buffer that decodes to an unmount event whose mount id is in
    the cache, the callback removes that entry and no other, logs no error
    and returns normally. *)
Theorem handleEvent_umount_known_id_deletes_entry
    (CPU : Z) (data : list Byte.byte) (s : State)
    (e : Event) (read : nat) (u : UmountEvent) (n : nat) (m : MountEvent) :
  NoDup supportedEventTypes →
  Event_UnmarshalBinary freshEvent data = (e, read, None) →
  Type' e = FileUmountEventType →
  (read ≤ length data)%nat →
  UmountEvent_UnmarshalBinary (Umount e) (drop read data) = (u, n, None) →
  MountResolver (resolvers (probe s)) !! MountID u = Some m →
  let r := handleEvent CPU data s in
  let old := MountResolver (resolvers (probe s)) in
  let new := MountResolver (resolvers (probe r.2)) in
  r.1 = Val tt ∧
  new = delete (MountID u) old ∧
  new !! MountID u = None ∧
  (∀ k, k ≠ MountID u → new !! k = old !! k) ∧
  cacheCalls (trace r.2) = cacheCalls (trace s) ++ [CallDelete (MountID u)] ∧
  errorLogs (trace r.2) = errorLogs (trace s).
Proof.
  intros Hnd Hh Ht Hle Hu Hid r old new.
  pose proof (handleEvent_umount_run CPU data s e read u n Hnd Hh Ht Hle Hu)
    as Hrun.
  cbn zeta in Hrun. fold r in Hrun.
  destruct Hrun as (Hv & Hres & Hcalls & Hlogs & _).
  unfold MountResolver_Delete in Hres, Hlogs. rewrite Hid in Hres, Hlogs.
  cbn [fst snd] in Hres, Hlogs.
  assert (Hnew : new = delete (MountID u) old) by (unfold new; by rewrite Hres).
  split; [done|]. split; [done|]. rewrite Hnew.
  split; [apply lookup_delete_eq|].
  split; [intros k Hk; by apply lookup_delete_ne|].
  split; [done|]. by rewrite Hlogs, app_nil_r.
Qed.

(** X7. The callback for a mount event followed by the callback for the
    unmount of the same mount id leaves the mount cache as it was before
    the two, when the id was not cached: the entry is there in between, and
    no error is logged by either callback. *)
Theorem handleEvent_mount_then_umount_restores_cache
    (CPU CPU' : Z) (mount umount : list Byte.byte) (s : State)
    (e : Event) (read : nat) (m : MountEvent) (n : nat)
    (e' : Event) (read' : nat) (u : UmountEvent) (n' : nat) :
  NoDup supportedEventTypes →
  Event_UnmarshalBinary freshEvent mount = (e, read, None) →
  Type' e = FileMountEventType →
  (read ≤ length mount)%nat →
  MountEvent_UnmarshalBinary (Mount e) (drop read mount) = (m, n, None) →
  Event_UnmarshalBinary freshEvent umount = (e', read', None) →
  Type' e' = FileUmountEventType →
  (read' ≤ length umount)%nat →
  UmountEvent_UnmarshalBinary (Umount e') (drop read' umount) = (u, n', None) →
  let m1 := MountEvent_ResolveMountPoint (resolvers (probe s)) m in
  let m2 := MountEvent_ResolveRoot (resolvers (probe s)) m1 in
  MountID u = NewMountID m2 →
  MountResolver (resolvers (probe s)) !! NewMountID m2 = None →
  let s1 := (handleEvent CPU mount s).2 in
  let s2 := (handleEvent CPU' umount s1).2 in
  MountResolver (resolvers (probe s1)) !! NewMountID m2 = Some m2 ∧
  resolvers (probe s2) = resolvers (probe s) ∧
  errorLogs (trace s2) = errorLogs (trace s).
Proof.
  intros Hnd Hh Ht Hle Hm Hh' Ht' Hle' Hu m1 m2 Hid Hfresh s1 s2.
  pose proof (handleEvent_mount_run CPU mount s e read m n Hnd Hh Ht Hle Hm)
    as Hrun.
  cbn zeta in Hrun. fold m1 m2 s1 in Hrun.
  destruct Hrun as (_ & Hres1 & Hlogs1).
  pose proof (handleEvent_umount_run CPU' umount s1 e' read' u n'
                Hnd Hh' Ht' Hle' Hu) as Hrun.
  cbn zeta in Hrun. fold s2 in Hrun.
  destruct Hrun as (_ & Hres2 & _ & Hlogs2 & _).
  assert (Hin : MountResolver (resolvers (probe s1)) !! NewMountID m2 = Some m2).
  { rewrite Hres1. apply lookup_insert_eq. }
  unfold MountResolver_Delete in Hres2, Hlogs2.
  rewrite Hid, Hin in Hres2, Hlogs2. cbn [fst snd] in Hres2, Hlogs2.
  split; [done|]. split.
  - rewrite Hres2, Hres1. cbn [MountResolver_Insert MountResolver].
    rewrite delete_insert_id by done. by destruct (resolvers (probe s)).
  - by rewrite Hlogs2, app_nil_r.
Qed.

Lemma decodedType_Some (data : list Byte.byte) (eventType : nat) :
  decodedType data = Some eventType →
  let h := Event_UnmarshalBinary freshEvent data in
  h.2 = None ∧ Type' h.1.1 = eventType ∧ (h.1.2 ≤ length data)%nat ∧
  variantError eventType h.1.1 (drop h.1.2 data) = Some None.
Proof.
  unfold decodedType.
  destruct (Event_UnmarshalBinary freshEvent data) as [[e read] [err|]];
    [done|].
  destruct (variantError (Type' e) e (drop read data)) as [[?|]|] eqn:Hv;
    try done.
  case_decide; [|done]. intros [= <-]. done.
Qed.

Lemma variantError_mount (e : Event) (payload : list Byte.byte) :
  NoDup supportedEventTypes →
  variantError FileMountEventType e payload
  = Some (MountEvent_UnmarshalBinary (Mount e) payload).2.
Proof.
  intros Hnd. unfold variantError.
  repeat (rewrite decide_False;
          [|first [ eapply (supported_distinct 9 0); [exact Hnd|done|done|lia]
                  | eapply (supported_distinct 9 1); [exact Hnd|done|done|lia]
                  | eapply (supported_distinct 9 2); [exact Hnd|done|done|lia]
                  | eapply (supported_distinct 9 3); [exact Hnd|done|done|lia]
                  | eapply (supported_distinct 9 4); [exact Hnd|done|done|lia]
                  | eapply (supported_distinct 9 5); [exact Hnd|done|done|lia]
                  | eapply (supported_distinct 9 6); [exact Hnd|done|done|lia]
                  | eapply (supported_distinct 9 7); [exact Hnd|done|done|lia]
                  | eapply (supported_distinct 9 8); [exact Hnd|done|done|lia] ]]).
  by rewrite decide_True.
Qed.

Lemma variantError_umount (e : Event) (payload : list Byte.byte) :
  NoDup supportedEventTypes →
  variantError FileUmountEventType e payload
  = Some (UmountEvent_UnmarshalBinary (Umount e) payload).2.
Proof.
  intros Hnd. unfold variantError.
  repeat (rewrite decide_False;
          [|first [ eapply (supported_distinct 10 0); [exact Hnd|done|done|lia]
                  | eapply (supported_distinct 10 1); [exact Hnd|done|done|lia]
                  | eapply (supported_distinct 10 2); [exact Hnd|done|done|lia]
                  | eapply (supported_distinct 10 3); [exact Hnd|done|done|lia]
                  | eapply (supported_distinct 10 4); [exact Hnd|done|done|lia]
                  | eapply (supported_distinct 10 5); [exact Hnd|done|done|lia]
                  | eapply (supported_distinct 10 6); [exact Hnd|done|done|lia]
                  | eapply (supported_distinct 10 7); [exact Hnd|done|done|lia]
                  | eapply (supported_distinct 10 8); [exact Hnd|done|done|lia]
                  | eapply (supported_distinct 10 9); [exact Hnd|done|done|lia] ]]).
  by rewrite decide_True.
Qed.

(** The cache calls of a decoded mount event. *)
Lemma handleEvent_mount_cacheCalls
    (CPU : Z) (data : list Byte.byte) (s : State)
    (e : Event) (read : nat) (m : MountEvent) (n : nat) :
  NoDup supportedEventTypes →
  Event_UnmarshalBinary freshEvent data = (e, read, None) →
  Type' e = FileMountEventType →
  (read ≤ length data)%nat →
  MountEvent_UnmarshalBinary (Mount e) (drop read data) = (m, n, None) →
  let m1 := MountEvent_ResolveMountPoint (resolvers (probe s)) m in
  let m2 := MountEvent_ResolveRoot (resolvers (probe s)) m1 in
  cacheCalls (trace (handleEvent CPU data s).2)
  = cacheCalls (trace s)
      ++ [CallResolveMountPoint m; CallResolveRoot m1; CallInsert m2].
Proof.
  intros Hnd Hh Ht Hle Hm m1 m2.
  rewrite handleEvent_unfold, Hh, Ht, switchOf_mount by done.
  set (s1 := addTrace _ (afterHeader e s)).
  unfold func, bind at 1. rewrite mount_case_run.
  unfold slice_from. rewrite decide_True by done.
  cbn zeta.
  change (event (probe s1)) with e.
  change (resolvers (probe s1)) with (resolvers (probe s)).
  rewrite Hm. cbn [fst snd]. fold m1 m2.
  rewrite countAndDispatch_run. cbn [fst snd].
  destruct (handler _) as [h|];
    unfold s1, addTrace, afterHeader;
    cbn [fst snd trace probe set_probe set_trace set_event resolvers
         set_resolvers set_eventsStats set_world event Mount set_Mount];
    rewrite !cacheCalls_app; cbn; rewrite ?app_nil_r; done.
Qed.

(** The cache calls of a callback outside the mount and unmount cases. *)
Lemma handleEvent_cache_untouched (CPU : Z) (data : list Byte.byte)
    (s : State) :
  match decodedType data with
  | Some eventType =>
      eventType ≠ FileMountEventType → eventType ≠ FileUmountEventType →
      resolvers (probe (handleEvent CPU data s).2) = resolvers (probe s) ∧
      cacheCalls (trace (handleEvent CPU data s).2) = cacheCalls (trace s) ∧
      errorLogs (trace (handleEvent CPU data s).2) = errorLogs (trace s)
  | None =>
      resolvers (probe (handleEvent CPU data s).2) = resolvers (probe s) ∧
      cacheCalls (trace (handleEvent CPU data s).2) = cacheCalls (trace s)
  end.
Proof.
  pose proof (handleEvent_cases CPU data s) as Hc. cbn zeta in Hc.
  destruct Hc as (_ & [Hc|[Hc|[Hc|Hc]]]).
  - destruct Hc as (err & _ & -> & _ & Htr & Hres & _).
    split; [done|]. rewrite Htr, cacheCalls_app. cbn. by rewrite app_nil_r.
  - destruct Hc as (_ & -> & _ & (format & args & Htr) & (Hres & _) & _).
    split; [done|]. rewrite Htr, cacheCalls_app. cbn. by rewrite app_nil_r.
  - destruct Hc as (_ & -> & _ & Htr & (Hres & _) & _).
    split; [done|]. rewrite Htr, cacheCalls_app. cbn. by rewrite app_nil_r.
  - destruct Hc as (_ & -> & _ & _ & (t & Ht & Htr) & _).
    intros Hm Hu.
    destruct Ht as [Hr|m0 Hty m1 m2 Hr|mountID Hty Hr]; [|done|done].
    split; [done|]. rewrite Htr, cacheCalls_app, errorLogs_app.
    cbn [app].
    change (cacheCalls (?a :: ?l)) with (cacheCalls ([a] ++ l)).
    change (errorLogs (?a :: ?l)) with (errorLogs ([a] ++ l)).
    rewrite !cacheCalls_app, !errorLogs_app.
    destruct (handler (probe s)); cbn; by rewrite !app_nil_r.
Qed.

(** X1. With the case constants of the switch distinct, a callback changes
    the mount cache for a buffer that decodes to a mount or to an unmount
    event, and for no other: for a mount the cache becomes the insert of
    the decoded entry with its mount point, then its root, resolved against
    the cache as it was, the cache calls being the two resolutions then the
    insert; for an unmount it becomes what the delete of the decoded mount
    id leaves, the one cache call being that delete; for every other
    buffer, dropped ones included, the cache is as it was and no call is
    made on it. *)
Theorem handleEvent_cache_changes_only_for_mounts
    (CPU : Z) (data : list Byte.byte) (s : State) :
  NoDup supportedEventTypes →
  let r := handleEvent CPU data s in
  let h := Event_UnmarshalBinary freshEvent data in
  let payload := drop h.1.2 data in
  let old := resolvers (probe s) in
  let new := resolvers (probe r.2) in
  match decodedType data with
  | Some eventType =>
      if decide (eventType = FileMountEventType) then
        let m0 := (MountEvent_UnmarshalBinary (Mount h.1.1) payload).1.1 in
        let m1 := MountEvent_ResolveMountPoint old m0 in
        let m2 := MountEvent_ResolveRoot old m1 in
        new = MountResolver_Insert m2 old ∧
        cacheCalls (trace r.2)
        = cacheCalls (trace s)
            ++ [CallResolveMountPoint m0; CallResolveRoot m1; CallInsert m2]
      else if decide (eventType = FileUmountEventType) then
        let mountID :=
          MountID (UmountEvent_UnmarshalBinary (Umount h.1.1) payload).1.1 in
        new = (MountResolver_Delete mountID old).2 ∧
        cacheCalls (trace r.2) = cacheCalls (trace s) ++ [CallDelete mountID]
      else
        new = old ∧ cacheCalls (trace r.2) = cacheCalls (trace s)
  | None => new = old ∧ cacheCalls (trace r.2) = cacheCalls (trace s)
  end.
Proof.
  intros Hnd r h payload old new.
  pose proof (handleEvent_cache_untouched CPU data s) as Hother.
  fold r in Hother.
  destruct (decodedType data) as [eventType|] eqn:Hd; [|done].
  pose proof (decodedType_Some data eventType Hd) as Hdec.
  cbn zeta in Hdec. fold h in Hdec. fold payload in Hdec.
  destruct Hdec as (Hh & Hty & Hle & Hv).
  assert (Hhe : h = (h.1.1, h.1.2, None)).
  { destruct h as [[e read] err]. cbn in Hh. by subst err. }
  case_decide as Hm; [|case_decide as Hu].
  - rewrite Hm in Hv, Hty. rewrite variantError_mount in Hv by done.
    destruct (MountEvent_UnmarshalBinary (Mount h.1.1) payload)
      as [[m n] merr] eqn:Hdecm.
    cbn [fst snd] in *. injection Hv as ->.
    split.
    + apply (handleEvent_mount_run CPU data s h.1.1 h.1.2 m n); done.
    + apply (handleEvent_mount_cacheCalls CPU data s h.1.1 h.1.2 m n); done.
  - rewrite Hu in Hv, Hty. rewrite variantError_umount in Hv by done.
    destruct (UmountEvent_UnmarshalBinary (Umount h.1.1) payload)
      as [[u n] uerr] eqn:Hdecu.
    cbn [fst snd] in *. injection Hv as ->.
    pose proof (handleEvent_umount_run CPU data s h.1.1 h.1.2 u n
                  Hnd Hhe Hty Hle Hdecu) as Hrun.
    cbn zeta in Hrun. fold r in Hrun.
    destruct Hrun as (_ & Hres & Hcalls & _). done.
  - destruct (Hother Hm Hu) as (? & ? & _). done.
Qed.

(** X3. With the case constants of the switch distinct: a buffer that does
    not decode is reported by exactly one error log when the callback
    returns, the mount cache, the statistics and the world being as they
    were, and by none when the callback panics; a buffer that decodes is
    handled without an error log, but for the unmount whose delete fails,
    which logs the failure of the delete of the decoded mount id exactly
    once. *)
Theorem handleEvent_logs_one_error_per_dropped_buffer
    (CPU : Z) (data : list Byte.byte) (s : State) :
  NoDup supportedEventTypes →
  let r := handleEvent CPU data s in
  let h := Event_UnmarshalBinary freshEvent data in
  let payload := drop h.1.2 data in
  match decodedType data with
  | None =>
      resolvers (probe r.2) = resolvers (probe s) ∧
      eventsStats (probe r.2) = eventsStats (probe s) ∧
      world r.2 = world s ∧
      (r.1 = Val tt ∧
       (∃ msg, errorLogs (trace r.2) = errorLogs (trace s) ++ [msg])
       ∨ r.1 = Panic ∧ errorLogs (trace r.2) = errorLogs (trace s))
  | Some eventType =>
      r.1 = Val tt ∧
      errorLogs (trace r.2)
      = errorLogs (trace s)
          ++ if decide (eventType = FileUmountEventType) then
               let mountID :=
                 MountID (UmountEvent_UnmarshalBinary (Umount h.1.1)
                            payload).1.1 in
               match (MountResolver_Delete mountID (resolvers (probe s))).1 with
               | Some err =>
                   [("failed to delete mount point %d from cache: %s",
                     [ArgZ mountID; ArgS err])]
               | None => []
               end
             else []
  end.
Proof.
  intros Hnd r h payload.
  pose proof (handleEvent_cases CPU data s) as Hc. cbn zeta in Hc.
  fold r h in Hc. destruct Hc as (_ & [Hc|[Hc|[Hc|Hc]]]).
  - destruct Hc as (err & _ & -> & Hr & Htr & Hres & Hst & Hw).
    do 3 (split; [done|]). left. split; [done|]. eexists.
    rewrite Htr, errorLogs_app. done.
  - destruct Hc as (_ & -> & Hr & (format & args & Htr) & (Hres & Hst & Hw) & _).
    do 3 (split; [done|]). left. split; [done|]. exists (format, args).
    rewrite Htr, errorLogs_app. done.
  - destruct Hc as (_ & -> & Hr & Htr & (Hres & Hst & Hw) & _).
    do 3 (split; [done|]). right. split; [done|].
    rewrite Htr, errorLogs_app. cbn. by rewrite app_nil_r.
  - destruct Hc as (Hh & Hd & Hr & Hle & (t & Ht & Htr) & _).
    rewrite Hd. split; [done|].
    assert (Hlogs : errorLogs (trace r.2) = errorLogs (trace s) ++ errorLogs t).
    { rewrite Htr, errorLogs_app. f_equal.
      change (errorLogs (?a :: ?l)) with (errorLogs ([a] ++ l)).
      rewrite !errorLogs_app.
      replace (errorLogs (match handler (probe s) with
                          | Some c => [CallHandleEvent c (event (probe r.2))]
                          | None => []
                          end)) with (@nil (string * list LogArg))
        by (by destruct (handler (probe s))).
      cbn. by rewrite app_nil_r. }
    case_decide as Hu.
    + pose proof (decodedType_Some data _ Hd) as Hdec.
      cbn zeta in Hdec. fold h in Hdec. fold payload in Hdec.
      destruct Hdec as (_ & _ & _ & Hv).
      rewrite Hu, variantError_umount in Hv by done.
      assert (Hhe : h = (h.1.1, h.1.2, None)).
      { destruct h as [[e read] err]. cbn in Hh. by subst err. }
      destruct (UmountEvent_UnmarshalBinary (Umount h.1.1) payload)
        as [[u n] uerr] eqn:Hdecu.
      cbn [fst snd] in *. injection Hv as ->.
      pose proof (handleEvent_umount_run CPU data s h.1.1 h.1.2 u n
                    Hnd Hhe Hu Hle Hdecu) as Hrun.
      cbn zeta in Hrun. fold r in Hrun.
      by destruct Hrun as (_ & _ & _ & Hl & _).
    + rewrite Hlogs. f_equal.
      destruct Ht as [Hres|m0 Hty m1 m2 Hres|mountID Hty Hres]; done.
Qed.

End DispatcherCoverage.

(** ** The lifecycle: registration, initialisation and lost events *)

Section SetupCoverage.
Context `{Schema, Kernel, !Package}.

Lemma switchCalls_handlerCalls eventType r r' t :
  switchCalls eventType r r' t → handlerCalls t = [].
Proof.
  intros [?|m0 ? ? ? ?|mountID ? ?]; try done.
  cbn. by destruct (MountResolver_Delete mountID r).1.
Qed.

(** The consumer calls and the world after a callback. *)
Lemma handleEvent_consumer (CPU : Z) (data : list Byte.byte) (s : State) :
  let r := handleEvent CPU data s in
  handlerCalls (trace r.2)
  = handlerCalls (trace s)
      ++ match decodedType data, handler (probe s) with
         | Some _, Some c => [(c, event (probe r.2))]
         | _, _ => []
         end ∧
  world r.2 = match decodedType data, handler (probe s) with
              | Some _, Some c => HandleEvent c (event (probe r.2)) (world s)
              | _, _ => world s
              end.
Proof.
  intros r.
  pose proof (handleEvent_cases CPU data s) as Hc. cbn zeta in Hc.
  fold r in Hc. destruct Hc as (_ & [Hc|[Hc|[Hc|Hc]]]).
  - destruct Hc as (err & _ & -> & _ & Htr & _ & _ & Hw).
    rewrite Htr, handlerCalls_app. cbn. by rewrite app_nil_r.
  - destruct Hc as (_ & -> & _ & (format & args & Htr) & (_ & _ & Hw) & _).
    rewrite Htr, handlerCalls_app. cbn. by rewrite app_nil_r.
  - destruct Hc as (_ & -> & _ & Htr & (_ & _ & Hw) & _).
    rewrite Htr, handlerCalls_app. cbn. by rewrite app_nil_r.
  - destruct Hc as (_ & -> & _ & _ & (t & Ht & Htr) & _ & Hw).
    split; [|by destruct (handler (probe s))].
    rewrite Htr, handlerCalls_app. f_equal.
    change (handlerCalls (?a :: ?l)) with (handlerCalls ([a] ++ l)).
    rewrite !handlerCalls_app, (switchCalls_handlerCalls _ _ _ _ Ht).
    by destruct (handler (probe s)).
Qed.

(** X9. [SetEventHandler] replaces the consumer and nothing else: the
    callbacks that follow notify the new consumer only, once per decoded
    buffer, and notify nobody once the consumer is set to nil. *)
Theorem SetEventHandler_replaces_consumer
    (R : Type) (h : option EventHandler) (CPU : Z) (data : list Byte.byte)
    (s : State) :
  let s1 := (SetEventHandler (R := R) h s).2 in
  let r := handleEvent CPU data s1 in
  (SetEventHandler (R := R) h s).1 = Val tt ∧
  s1 = set_probe (set_handler h (probe s)) s ∧
  handlerCalls (trace r.2)
  = handlerCalls (trace s)
      ++ match decodedType data, h with
         | Some _, Some c => [(c, event (probe r.2))]
         | _, _ => []
         end ∧
  world r.2 = match decodedType data, h with
              | Some _, Some c => HandleEvent c (event (probe r.2)) (world s)
              | _, _ => world s
              end.
Proof.
  intros s1 r. split; [done|]. split; [done|].
  apply (handleEvent_consumer CPU data s1).
Qed.

(** X8. [handleLostEvents] logs one warning and adds the count to the lost
    counter, modulo 2^64 as the conversion of the count to an int64 and the
    atomic add do: while the sum stays in the range of an int64 the counter
    has grown by the count.  The per-type counters, the mount cache, the
    event container, the setup and the world are as they were, and the
    consumer is not notified. *)
Theorem handleLostEvents_adds_to_lost_counter
    (R : Type) (CPU count : Z) (s : State) :
  let r := handleLostEvents (R := R) CPU count s in
  let lost := Lost (eventsStats (probe s)) in
  r.1 = Val tt ∧
  Lost (eventsStats (probe r.2)) = wrap64 (lost + count) ∧
  ((- 2 ^ 63 ≤ lost + count < 2 ^ 63)%Z →
   Lost (eventsStats (probe r.2)) = lost + count) ∧
  PerEventType (eventsStats (probe r.2)) = PerEventType (eventsStats (probe s)) ∧
  resolvers (probe r.2) = resolvers (probe s) ∧
  event (probe r.2) = event (probe s) ∧
  setup r.2 = setup s ∧
  world r.2 = world s ∧
  trace r.2
  = trace s ++ [Log WarnLvl "lost %d events" [ArgZ count];
                CallCountLost (wrap64 count)].
Proof.
  intros r lost.
  assert (Hl : Lost (eventsStats (probe r.2)) = wrap64 (lost + count)).
  { cbn. fold lost. rewrite Z.add_comm, wrap64_add. f_equal. lia. }
  split; [done|]. split; [done|]. split.
  { intros Hrange. rewrite Hl. by apply wrap64_small. }
  cbn. by rewrite <- app_assoc.
Qed.

(** X10. [RegisterProbesSelectors] appends the selectors to those of the
    manager options, in order, and returns nil, two calls amounting to one
    call with the concatenation.  [Init] starts again from the default
    options, so selectors registered before it are dropped: after [Init]
    the options are the default ones, followed by the selectors of the
    syscall monitor when the configuration enables it. *)
Theorem RegisterProbesSelectors_appends_until_Init
    (R : Type) (a b : list ProbesSelector) (s : State) :
  let r := RegisterProbesSelectors (R := R) a s in
  let r' := RegisterProbesSelectors (R := R) b r.2 in
  let i := Init (R := R) r.2 in
  r.1 = Val None ∧
  r.2 = set_probe (set_managerOptions (managerOptions (probe s) ++ a) (probe s)) s ∧
  r'.2 = (RegisterProbesSelectors (R := R) (a ++ b) s).2 ∧
  managerOptions (probe i.2)
  = NewDefaultOptions
      ++ (if SyscallMonitor (config (probe s)) then SyscallMonitorSelectors
          else []) ∧
  managerOptions (probe i.2) = managerOptions (probe (Init (R := R) s).2).
Proof.
  intros r r' i. split; [done|]. split; [done|]. split.
  { cbn. by rewrite <- app_assoc. }
  subst i r. unfold Init, RegisterProbesSelectors, func, bind, getProbe,
    getState, logf, emit, modifyProbe, returns, ret.
  cbn [fst snd probe set_probe config set_managerOptions].
  destruct (EnableKernelFilters (config (probe s))),
    (SyscallMonitor (config (probe s))); cbn; by rewrite ?app_nil_r.
Qed.

(** The registry of the probe after the loop of [Init]. *)
Lemma Init_loop_lookup (all : gmap string onDiscarderFnc)
    (old : gmap string (list onDiscarderFnc)) (eventType : string) :
  map_fold (λ eventType fnc acc,
              <[eventType := default [] (acc !! eventType) ++ [fnc]]> acc)
    old all !! eventType
  = match all !! eventType with
    | Some fnc => Some (default [] (old !! eventType) ++ [fnc])
    | None => old !! eventType
    end.
Proof.
  revert eventType.
  apply (map_fold_weak_ind
           (λ acc (m : gmap string onDiscarderFnc),
              ∀ eventType,
                acc !! eventType
                = match m !! eventType with
                  | Some fnc => Some (default [] (old !! eventType) ++ [fnc])
                  | None => old !! eventType
                  end)).
  - intros eventType. by rewrite lookup_empty.
  - intros i fnc m acc Hi IH eventType.
    destruct (decide (eventType = i)) as [->|Hne].
    + rewrite !lookup_insert_eq, IH, Hi. done.
    + rewrite !lookup_insert_ne by done. apply IH.
Qed.

Lemma Init_run (R : Type) (s : State) :
  let r := Init (R := R) s in
  r.1 = Val None ∧
  onDiscardersFncs (probe r.2)
  = map_fold (λ eventType fnc acc,
                <[eventType := default [] (acc !! eventType) ++ [fnc]]> acc)
      (onDiscardersFncs (probe s)) (allDiscarderFncs s) ∧
  allDiscarderFncs r.2 = allDiscarderFncs s ∧
  allApproversFncs r.2 = allApproversFncs s ∧
  world r.2 = world s ∧
  (manager (probe r.2), config (probe r.2), handler (probe r.2),
   resolvers (probe r.2), syscallMonitor (probe r.2), eventsStats (probe r.2),
   event (probe r.2))
  = (manager (probe s), config (probe s), handler (probe s),
     resolvers (probe s), syscallMonitor (probe s), eventsStats (probe s),
     event (probe s)).
Proof.
  unfold Init, RegisterProbesSelectors, func, bind, getProbe, getState, logf,
    emit, modifyProbe, returns, ret.
  cbn [fst snd].
  destruct (EnableKernelFilters (config (probe s))),
    (SyscallMonitor (config (probe s))); cbn; done.
Qed.

(** X11. [Init] registers every function of the package registry with the
    probe: the function of an event type is appended to the functions the
    probe already has for that type, the types the package registry does
    not know keep their functions, and [Init] returns nil.  Nothing but the
    manager options and this registry changes.  [Init] is not idempotent: a
    second [Init] appends each function once more. *)
Theorem Init_registers_each_discarder (R : Type) (s : State) :
  let r := Init (R := R) s in
  let r' := Init (R := R) r.2 in
  let old := onDiscardersFncs (probe s) in
  r.1 = Val None ∧
  (∀ eventType,
     onDiscardersFncs (probe r.2) !! eventType
     = match allDiscarderFncs s !! eventType with
       | Some fnc => Some (default [] (old !! eventType) ++ [fnc])
       | None => old !! eventType
       end) ∧
  (∀ eventType fnc,
     allDiscarderFncs s !! eventType = Some fnc →
     onDiscardersFncs (probe r'.2) !! eventType
     = Some (default [] (old !! eventType) ++ [fnc; fnc])) ∧
  allDiscarderFncs r.2 = allDiscarderFncs s ∧
  allApproversFncs r.2 = allApproversFncs s ∧
  world r.2 = world s ∧
  (manager (probe r.2), config (probe r.2), handler (probe r.2),
   resolvers (probe r.2), syscallMonitor (probe r.2), eventsStats (probe r.2),
   event (probe r.2))
  = (manager (probe s), config (probe s), handler (probe s),
     resolvers (probe s), syscallMonitor (probe s), eventsStats (probe s),
     event (probe s)).
Proof.
  intros r r' old.
  pose proof (Init_run R s) as Hr. cbn zeta in Hr. fold r in Hr.
  destruct Hr as (Hv & Hreg & Hall & Happ & Hw & Hrest).
  pose proof (Init_run R r.2) as Hr'. cbn zeta in Hr'. fold r' in Hr'.
  destruct Hr' as (_ & Hreg' & _).
  split; [done|]. split.
  { intros eventType. rewrite Hreg. apply Init_loop_lookup. }
  split; [|done].
  intros eventType fnc Hf.
  rewrite Hreg', Init_loop_lookup, Hall, Hf, Hreg, Init_loop_lookup, Hf.
  cbn. by rewrite <- app_assoc.
Qed.

(** X12. After the registrations of [init], [Init] wires the open and the
    unlink discarder functions into the probe, after the functions it
    already had for these types, and [ApplyApprovers] for "open" invokes
    the open approver function once and returns its result; for an event
    type other than "open", [ApplyApprovers] finds the function the
    registry already had, and is a successful no-op when it had none. *)
Theorem init_then_Init_wires_open_and_unlink
    (R : Type) (approvers : Approvers) (s : State) :
  let s1 := (init (R := R) s).2 in
  let s2 := (Init (R := R) s1).2 in
  let old := onDiscardersFncs (probe s) in
  (init (R := R) s).1 = Val tt ∧
  (probe s1, world s1, trace s1) = (probe s, world s, trace s) ∧
  onDiscardersFncs (probe s2) !! "open"
  = Some (default [] (old !! "open") ++ [openOnNewDiscarder]) ∧
  onDiscardersFncs (probe s2) !! "unlink"
  = Some (default [] (old !! "unlink") ++ [unlinkOnNewDiscarder]) ∧
  (∀ eventType,
     eventType ≠ "open" → eventType ≠ "unlink" →
     allDiscarderFncs s !! eventType = None →
     onDiscardersFncs (probe s2) !! eventType = old !! eventType) ∧
  (let a := ApplyApprovers (R := R) "open" approvers s2 in
   a.1 = Val (openOnNewApprovers approvers (world s)).1 ∧
   world a.2 = (openOnNewApprovers approvers (world s)).2 ∧
   approversCalls (trace a.2)
   = approversCalls (trace s2) ++ [(openOnNewApprovers, approvers)]) ∧
  (∀ eventType,
     eventType ≠ "open" →
     allApproversFncs s !! eventType = None →
     ApplyApprovers (R := R) eventType approvers s2 = (Val None, s2)).
Proof.
  intros s1 s2 old.
  pose proof (Init_run R s1) as Hr. cbn zeta in Hr. fold s2 in Hr.
  destruct Hr as (_ & Hreg & Hall & Happ & Hw & Hrest).
  split; [done|]. split; [done|].
  split; [|split; [|split]].
  - rewrite Hreg, Init_loop_lookup. cbn.
    rewrite lookup_insert_ne by done. by rewrite lookup_insert_eq.
  - rewrite Hreg, Init_loop_lookup. cbn. by rewrite lookup_insert_eq.
  - intros eventType Ho Hu Hnone. rewrite Hreg, Init_loop_lookup. cbn.
    rewrite !lookup_insert_ne by done. by rewrite Hnone.
  - split.
    + unfold ApplyApprovers, func, bind, getState, emit, external, logf, emit,
        returns, ret.
      cbn [fst snd]. rewrite Happ. cbn [init]. cbn.
      rewrite lookup_insert_eq. cbn [fst snd world trace set_trace].
      rewrite Hw. change (world s1) with (world s).
      destruct (openOnNewApprovers approvers (world s)) as [[err|] w];
        cbn [fst snd world trace probe set_trace set_world];
        rewrite ?approversCalls_app, <- ?app_assoc; cbn; by rewrite ?app_nil_r.
    + intros eventType Ho Hnone.
      unfold ApplyApprovers, func, bind, getState. cbn [fst snd].
      rewrite Happ. cbn. rewrite lookup_insert_ne by done. by rewrite Hnone.
Qed.

(** X13. With discarders enabled and a field that resolves to an event type
    for which the probe has no function, [OnNewDiscarder] returns nil after
    its trace log: the value of the field is not looked up, so a field
    whose value cannot be read is not reported. *)
Theorem OnNewDiscarder_without_function_is_success
    (R : Type) (rs : RuleSet) (ev : Event) (field : string) (s : State)
    (eventType : string) :
  EnableDiscarders (config (probe s)) = true →
  Event_GetFieldEventType ev field = (eventType, None) →
  default [] (onDiscardersFncs (probe s) !! eventType) = [] →
  OnNewDiscarder (R := R) rs ev field s
  = (Val None,
     set_trace (trace s ++ [Log TraceLvl "New discarder event %+v for field %s"
                              [ArgE ev; ArgS field]]) s).
Proof.
  intros Hen Ht Hnone.
  unfold OnNewDiscarder, func, bind at 1, getProbe.
  rewrite Hen. cbn [negb]. unfold bind at 1, logf, emit. cbn [fst snd].
  rewrite Ht. cbn [probe set_trace]. rewrite Hnone. reflexivity.
Qed.

(** [OnNewDiscarder] for a field that resolves. *)
Lemma OnNewDiscarder_run (R : Type) (rs : RuleSet) (ev : Event)
    (field : string) (s : State) (eventType : string) (v : Value) :
  EnableDiscarders (config (probe s)) = true →
  Event_GetFieldEventType ev field = (eventType, None) →
  Event_GetFieldValue ev field = (v, None) →
  let fncs := default [] (onDiscardersFncs (probe s) !! eventType) in
  let d := {| Field := field; DValue := v |} in
  let n := notifyInOrder fncs rs ev d (world s) in
  OnNewDiscarder (R := R) rs ev field s
  = (Val n.1.2,
     set_world n.2
       (set_trace
          ((trace s ++ [Log TraceLvl "New discarder event %+v for field %s"
                          [ArgE ev; ArgS field]])
             ++ ((λ fnc, CallDiscarderFnc fnc d) <$> n.1.1)) s)).
Proof.
  intros Hen Ht Hv fncs d n.
  unfold OnNewDiscarder, func, bind at 1, getProbe.
  rewrite Hen. cbn [negb]. unfold bind at 1, logf, emit. cbn [fst snd].
  rewrite Ht. unfold bind at 1. fold fncs.
  rewrite (OnNewDiscarder_loop fncs rs ev field v) by done.
  cbn [world set_trace trace]. fold d n.
  destruct n.1.2; reflexivity.
Qed.

Lemma discarderCalls_fmap (fncs : list onDiscarderFnc) (d : Discarder) :
  discarderCalls ((λ fnc, CallDiscarderFnc fnc d) <$> fncs)
  = (λ fnc, (fnc, d)) <$> fncs.
Proof. induction fncs as [|f l IH]; [done|]. cbn. by rewrite <- IH. Qed.

(** X20. From the package registry to the invocation.  With discarders
    enabled, for a field that resolves to an event type and to a value, and
    when the package registry holds a function for that event type while
    the probe has none of its own: after [Init], [OnNewDiscarder] invokes
    that function exactly once, and the result and the world of the
    function are those of [OnNewDiscarder]; after a second [Init] the
    function is registered twice, and is invoked twice when its first
    invocation succeeds. *)
Theorem Init_then_OnNewDiscarder_invokes_registered_function
    (R : Type) (rs : RuleSet) (ev : Event) (field : string) (s : State)
    (eventType : string) (v : Value) (fnc : onDiscarderFnc) :
  EnableDiscarders (config (probe s)) = true →
  Event_GetFieldEventType ev field = (eventType, None) →
  Event_GetFieldValue ev field = (v, None) →
  allDiscarderFncs s !! eventType = Some fnc →
  onDiscardersFncs (probe s) !! eventType = None →
  let s1 := (Init (R := R) s).2 in
  let s2 := (Init (R := R) s1).2 in
  let d := {| Field := field; DValue := v |} in
  let c := fnc rs ev d (world s) in
  let r := OnNewDiscarder (R := R) rs ev field s1 in
  let r' := OnNewDiscarder (R := R) rs ev field s2 in
  r.1 = Val c.1 ∧
  world r.2 = c.2 ∧
  discarderCalls (trace r.2) = discarderCalls (trace s) ++ [(fnc, d)] ∧
  (c.1 = None →
   r'.1 = Val (fnc rs ev d c.2).1 ∧
   discarderCalls (trace r'.2)
   = discarderCalls (trace s) ++ [(fnc, d); (fnc, d)]).
Proof.
  intros Hen Ht Hv Hall Hold s1 s2 d c r r'.
  pose proof (Init_run R s) as Hi1. cbn zeta in Hi1. fold s1 in Hi1.
  destruct Hi1 as (_ & Hreg1 & Hall1 & _ & Hw1 & Hrest1).
  pose proof (Init_run R s1) as Hi2. cbn zeta in Hi2. fold s2 in Hi2.
  destruct Hi2 as (_ & Hreg2 & _ & _ & Hw2 & Hrest2).
  assert (Hc1 : config (probe s1) = config (probe s)) by congruence.
  assert (Hc2 : config (probe s2) = config (probe s)) by congruence.
  assert (Ht1 : discarderCalls (trace s1) = discarderCalls (trace s)).
  { unfold s1. rewrite (proj1 (Init_trace R s)), discarderCalls_app.
    destruct (EnableKernelFilters (config (probe s))); cbn;
      by rewrite app_nil_r. }
  assert (Ht2 : discarderCalls (trace s2) = discarderCalls (trace s)).
  { unfold s2. rewrite (proj1 (Init_trace R s1)), discarderCalls_app, Ht1.
    destruct (EnableKernelFilters (config (probe s1))); cbn;
      by rewrite app_nil_r. }
  assert (Hf1 : default [] (onDiscardersFncs (probe s1) !! eventType) = [fnc]).
  { by rewrite Hreg1, Init_loop_lookup, Hall, Hold. }
  assert (Hf2 : default [] (onDiscardersFncs (probe s2) !! eventType)
                = [fnc; fnc]).
  { rewrite Hreg2, Init_loop_lookup, Hall1, Hall.
    by rewrite Hreg1, Init_loop_lookup, Hall, Hold. }
  subst r r'.
  rewrite (OnNewDiscarder_run R rs ev field s1 eventType v)
    by (by rewrite ?Hc1).
  rewrite (OnNewDiscarder_run R rs ev field s2 eventType v)
    by (by rewrite ?Hc2).
  rewrite Hf1, Hf2, Hw1, Hw2, Hw1. fold d.
  cbn [notifyInOrder]. fold c.
  destruct c as [[err|] w'] eqn:Hc; cbn [fst snd trace world set_trace set_world].
  - rewrite !discarderCalls_app, discarderCalls_fmap, Ht1. cbn.
    rewrite app_nil_r. done.
  - rewrite !discarderCalls_app, discarderCalls_fmap, Ht1. cbn.
    rewrite app_nil_r. split; [done|]. split; [done|]. split; [done|].
    intros _.
    destruct (fnc rs ev d w') as [[err|] w''];
      cbn [fst snd trace world set_trace set_world];
      rewrite ?discarderCalls_app, ?discarderCalls_fmap, Ht2; cbn;
      rewrite ?app_nil_r; done.
Qed.

End SetupCoverage.

(** ** More on the statistics *)

Section StatisticsCoverage.
Context `{Schema, Kernel, !Package}.

Lemma SendStats_lost_wp (R : Type) (statsdClient : StatsdClient) (s : State) :
  let monitor :=
    match syscallMonitor (probe s) with
    | Some sm => SyscallMonitor_SendStats sm statsdClient (world s)
    | None => (None, world s)
    end in
  wp (SendStats (R := R) statsdClient) s (λ res s',
    match monitor.1 with
    | Some err =>
        res = Val (Some err) ∧
        eventsStats (probe s') = eventsStats (probe s) ∧
        countCalls (trace s') = countCalls (trace s) ∧
        world s' = monitor.2
    | None => lostPost R statsdClient s monitor.2 res s'
    end).
Proof.
  intros monitor. unfold SendStats.
  assert (Hrest : ∀ s0,
    eventsStats (probe s0) = eventsStats (probe s) →
    countCalls (trace s0) = countCalls (trace s) →
    wp (R := option error) (A := option error)
       (lost <- EventsStats_GetAndResetLost ;;
        err <- Count statsdClient (MetricPrefix +:+ ".events.lost") lost [] ;;
        match err with
        | Some err => returns (Some err)
        | None => ret tt
        end ;;;
        p <- getProbe ;;
        forRange (seq 0 (length (PerEventType (eventsStats p))))
          (sendBody statsdClient) ;;;
        returns None)%go s0
      (λ r s', match r with
               | Val x | Return x =>
                   lostPost R statsdClient s (world s0) (Val x) s'
               | Panic => False
               end)).
  { intros s0 Hs0 Hc0.
    unfold EventsStats_GetAndResetLost, GetAndResetLost, Count.
    repeat wp_step.
    cbn [probe world set_trace set_probe]. unfold lostPost. rewrite Hs0.
    destruct (Client_Count statsdClient _ _ _ (world s0)) as [[err|] w']
      eqn:Hsub; cbn [fst snd].
    - wp_step. cbn [probe set_probe set_world set_trace set_eventsStats
                    eventsStats Lost PerEventType trace world].
      rewrite !countCalls_app, Hc0, ?Hs0. cbn. rewrite app_nil_r.
      split; [done|]. split; [by exists []|].
      intros err' [= <-]. done.
    - repeat wp_step.
      cbn [probe eventsStats set_probe set_world set_trace set_eventsStats
           PerEventType].
      set (s1 := set_world w' _).
      assert (Hold1 : PerEventType (eventsStats (probe s1))
                      = PerEventType (eventsStats (probe s)))
        by (unfold s1; cbn; by rewrite ?Hs0).
      rewrite <- Hold1 at 1.
      destruct (SendStats_loop_all statsdClient s1)
        as (done & Hp & Hres & Htr & Hc & Hlost).
      unfold wp.
      destruct (forRange (seq 0 (length (PerEventType (eventsStats (probe s1)))))
                  (sendBody statsdClient) s1) as [res s2].
      cbn [fst snd] in *.
      assert (Hfin : Lost (eventsStats (probe s2)) = 0 ∧
                     ∃ rest, countCalls (trace s2)
                             = countCalls (trace s) ++ lostMetric s :: rest).
      { split; [by rewrite Hlost|]. eexists.
        rewrite Htr. unfold s1. cbn [trace set_world set_trace set_probe].
        rewrite !countCalls_app, Hc0, <- !app_assoc. reflexivity. }
      destruct Hfin as (Hl & Hcnt).
      destruct Hres as [[-> ->]|[err ->]]; unfold returns; cbn [fst snd];
        (split; [done|]; split; [done|]; by intros err' [=]). }
  repeat wp_step. subst monitor.
  destruct (syscallMonitor (probe s)) as [sm|].
  - repeat wp_step.
    destruct (SyscallMonitor_SendStats sm statsdClient _) as [[err|] w'] eqn:Hsm;
      cbn [fst snd].
    + wp_step. cbn [probe set_world set_trace trace world].
      rewrite countCalls_app. cbn. by rewrite app_nil_r.
    + wp_step.
      eapply wp_mono; [apply Hrest|].
      * done.
      * cbn [trace set_world set_trace]. rewrite countCalls_app. cbn.
        by rewrite app_nil_r.
      * by intros [x|x|] s'.
  - wp_step. cbn [fst snd].
    eapply wp_mono; [apply (Hrest s); done|].
    by intros [x|x|] s'.
Qed.

(** X14. [SendStats] reads and resets the lost counter before it hands the
    value to the statsd client, and hands it whatever the value, zero
    included: once the syscall monitor has sent its statistics, or when
    there is no monitor, the lost counter is zero after the call and the
    lost metric is the first metric submitted.  When that submission fails
    its error is returned, no per-type counter is read, and the lost count
    has been reset all the same.  When the submission of the syscall
    monitor fails, the statistics are untouched and no metric is
    submitted. *)
Theorem SendStats_resets_lost_before_submitting
    (R : Type) (statsdClient : StatsdClient) (s : State) :
  let r := SendStats (R := R) statsdClient s in
  let monitor :=
    match syscallMonitor (probe s) with
    | Some sm => SyscallMonitor_SendStats sm statsdClient (world s)
    | None => (None, world s)
    end in
  let sub := Client_Count statsdClient (MetricPrefix +:+ ".events.lost")
               (Lost (eventsStats (probe s))) [] monitor.2 in
  match monitor.1 with
  | Some err =>
      r.1 = Val (Some err) ∧
      eventsStats (probe r.2) = eventsStats (probe s) ∧
      countCalls (trace r.2) = countCalls (trace s) ∧
      world r.2 = monitor.2
  | None =>
      Lost (eventsStats (probe r.2)) = 0 ∧
      (∃ rest,
         countCalls (trace r.2) = countCalls (trace s) ++ lostMetric s :: rest) ∧
      (∀ err, sub.1 = Some err →
              r.1 = Val (Some err) ∧
              PerEventType (eventsStats (probe r.2))
              = PerEventType (eventsStats (probe s)) ∧
              countCalls (trace r.2) = countCalls (trace s) ++ [lostMetric s] ∧
              world r.2 = sub.2)
  end.
Proof.
  intros r monitor sub. apply (SendStats_lost_wp R statsdClient s).
Qed.

(** After a [SendStats] that returned nil, the lost counter and the
    counters from ordinal 1 on are zero. *)
Lemma SendStats_success_zeroes (R : Type) (statsdClient : StatsdClient)
    (s : State) :
  let r := SendStats (R := R) statsdClient s in
  r.1 = Val None →
  Lost (eventsStats (probe r.2)) = 0 ∧
  ∀ j : nat, (1 ≤ j)%nat →
    default 0 (PerEventType (eventsStats (probe r.2)) !! j) = 0.
Proof.
  intros r Hok.
  pose proof (SendStats_lost_wp R statsdClient s) as Hl.
  pose proof (SendStats_wp R statsdClient s) as Hs.
  unfold wp in Hl, Hs. cbn zeta in Hl, Hs. fold r in Hl, Hs.
  split.
  - destruct (match syscallMonitor (probe s) with
              | Some sm => _
              | None => _
              end).1 as [err|].
    + destruct Hl as (Hr & _). congruence.
    + apply Hl.
  - intros j Hj.
    destruct Hs as (done & pre & Hp & Hres & Htr & Hrs & Hrd & Hcnt & Hnew).
    destruct Hres as [[_ ->]|[err Herr]]; [|congruence].
    rewrite Hnew, resetAll_lookup. case_decide as Hin.
    + by destruct (_ !! j).
    + rewrite elem_of_seq in Hin.
      rewrite lookup_ge_None_2; [done|]. lia.
Qed.

(** X15. Two exports in a row: when [SendStats] returns nil, what it read
    is gone, and a [SendStats] that follows at once submits no per-type
    metric and at most the lost metric, with the value zero. *)
Theorem SendStats_again_submits_nothing_new
    (R : Type) (statsdClient statsdClient' : StatsdClient) (s : State) :
  let r := SendStats (R := R) statsdClient s in
  let r' := SendStats (R := R) statsdClient' r.2 in
  r.1 = Val None →
  Lost (eventsStats (probe r.2)) = 0 ∧
  (∀ j : nat, (1 ≤ j)%nat →
     default 0 (PerEventType (eventsStats (probe r.2)) !! j) = 0) ∧
  (countCalls (trace r'.2) = countCalls (trace r.2)
   ∨ countCalls (trace r'.2)
     = countCalls (trace r.2) ++ [(MetricPrefix +:+ ".events.lost", 0, [])]).
Proof.
  intros r r' Hok.
  destruct (SendStats_success_zeroes R statsdClient s Hok) as (Hl & Hz).
  fold r in Hl, Hz.
  split; [done|]. split; [done|].
  pose proof (SendStats_wp R statsdClient' r.2) as Hs.
  unfold wp in Hs. cbn zeta in Hs. fold r' in Hs.
  destruct Hs as (done & pre & Hp & Hres & Htr & Hrs & Hrd & Hcnt & Hnew).
  assert (Hnone : omap (receivedMetric (PerEventType (eventsStats (probe r.2))))
                    done = []).
  { assert (Hge : ∀ j, j ∈ done → (1 ≤ j)%nat).
    { intros j Hj. destruct Hp as [k Hk].
      assert (Hin : j ∈ seq 1 (length (PerEventType (eventsStats (probe r.2))) - 1))
        by (rewrite Hk; apply elem_of_app; by left).
      rewrite elem_of_seq in Hin. lia. }
    clear Hp Htr Hnew Hres.
    induction done as [|j done IH]; [done|].
    cbn. unfold receivedMetric at 1.
    rewrite Hz by (apply Hge, elem_of_cons; by left).
    rewrite decide_False by lia. apply IH. intros k Hk.
    apply Hge, elem_of_cons. by right. }
  rewrite Htr, !countCalls_app, countCalls_export, Hnone, app_nil_r.
  destruct Hcnt as [-> | ->].
  - left. by rewrite app_nil_r.
  - right. unfold lostMetric. by rewrite Hl.
Qed.

Lemma GetStats_loop_all (s : State) :
  let old := PerEventType (eventsStats (probe s)) in
  forRangeAcc (seq 0 (length old)) ∅ readBody s
  = (Val (R := Stats * option error) (perEventTypeOf old),
     set_trace (trace s ++ (CallGetEventCount <$> seq 1 (length old - 1))) s).
Proof.
  intros old. unfold perEventTypeOf. subst old.
  destruct (length (PerEventType (eventsStats (probe s)))) as [|n].
  - cbn. rewrite app_nil_r. by destruct s.
  - replace (S n - 1)%nat with n by lia.
    cbn [seq forRangeAcc]. unfold bind at 1, readBody at 1.
    rewrite decide_True by done. unfold ret at 1.
    by rewrite GetStats_loop by (rewrite elem_of_seq; lia).
Qed.

(** X16. [GetStats] reads and changes nothing: it returns the lost counter,
    the statistics of the syscall monitor and the per-type map, and beside
    them the error of the syscall monitor, which does not stop it; without
    a monitor the syscall statistics and the error are nil.  The probe and
    the world are as they were. *)
Theorem GetStats_returns_statistics_with_monitor_error
    (R : Type) (s : State) :
  let g := GetStats (R := R) s in
  let old := PerEventType (eventsStats (probe s)) in
  let monitor :=
    match syscallMonitor (probe s) with
    | Some sm => SyscallMonitor_GetStats sm (world s)
    | None => (None, None)
    end in
  g.1 = Val ({| events_lost := Lost (eventsStats (probe s));
                events_syscalls := monitor.1;
                per_event_type := perEventTypeOf old |}, monitor.2) ∧
  probe g.2 = probe s ∧
  world g.2 = world s ∧
  trace g.2
  = trace s
      ++ match syscallMonitor (probe s) with
         | Some _ => [CallSyscallGetStats]
         | None => []
         end
      ++ CallGetLost :: (CallGetEventCount <$> seq 1 (length old - 1)).
Proof.
  intros g old monitor.
  change (wp (GetStats (R := R)) s (λ res s',
            res = Val ({| events_lost := Lost (eventsStats (probe s));
                          events_syscalls := monitor.1;
                          per_event_type := perEventTypeOf old |}, monitor.2) ∧
            probe s' = probe s ∧
            world s' = world s ∧
            trace s'
            = trace s
                ++ match syscallMonitor (probe s) with
                   | Some _ => [CallSyscallGetStats]
                   | None => []
                   end
                ++ CallGetLost :: (CallGetEventCount <$> seq 1 (length old - 1)))).
  unfold GetStats.
  assert (Hrest : ∀ s0 pre syscalls err,
    probe s0 = probe s → world s0 = world s → trace s0 = trace s ++ pre →
    wp (R := Stats * option error) (A := Stats * option error)
       (lost <- EventsStats_GetLost ;;
        perEventType <-
          forRangeAcc (seq 0 (length (PerEventType (eventsStats (probe s))))) ∅
            readBody ;;
        returns ({| events_lost := lost; events_syscalls := syscalls;
                    per_event_type := perEventType |}, err))%go s0
      (λ r s', match r with
               | Val x | Return x =>
                   Val (R := R) x
                   = Val ({| events_lost := Lost (eventsStats (probe s));
                             events_syscalls := syscalls;
                             per_event_type := perEventTypeOf old |}, err) ∧
                   probe s' = probe s ∧
                   world s' = world s ∧
                   trace s'
                   = trace s ++ pre
                       ++ CallGetLost
                          :: (CallGetEventCount <$> seq 1 (length old - 1))
               | Panic => False
               end)).
  { intros s0 pre syscalls err Hp Hw Ht.
    unfold EventsStats_GetLost, GetLost. repeat wp_step.
    cbn [probe set_trace]. rewrite Hp. fold old.
    unfold wp at 1.
    set (s1 := set_trace _ s0).
    assert (Hold1 : PerEventType (eventsStats (probe s1)) = old)
      by (unfold s1; cbn; by rewrite Hp).
    pose proof (GetStats_loop_all s1) as Hloop. cbn zeta in Hloop.
    rewrite Hold1 in Hloop. rewrite Hloop. cbn [fst snd].
    unfold returns, wp. cbn [fst snd trace probe world set_trace].
    unfold s1. cbn [trace probe world set_trace].
    rewrite Ht, <- !app_assoc. done. }
  repeat wp_step.
  subst monitor.
  destruct (syscallMonitor (probe s)) as [sm|].
  - repeat wp_step.
    destruct (SyscallMonitor_GetStats sm _) as [syscalls err] eqn:Hm.
    cbn [fst snd].
    eapply wp_mono; [apply (Hrest _ [CallSyscallGetStats] syscalls err); done|].
    intros [x|x|] s'; cbn [trace set_trace set_world world]; try done.
  - wp_step.
    eapply wp_mono; [apply (Hrest _ [] None None); try done;
                     by rewrite app_nil_r|].
    by intros [x|x|] s'.
Qed.

(** The map of [GetStats] over ordinals with distinct names. *)
Lemma perEventType_fold_lookup (counters : list Z) (l : list nat)
    (acc : gmap string Z) :
  NoDup (EventType_String <$> l) →
  let m := foldl (λ m i, <[EventType_String i := default 0 (counters !! i)]> m)
             acc l in
  (∀ i, i ∈ l → m !! EventType_String i = Some (default 0 (counters !! i))) ∧
  (∀ name, name ∉ EventType_String <$> l → m !! name = acc !! name).
Proof.
  revert acc. induction l as [|i l IH]; intros acc Hnd.
  - cbn. split; [|done]. intros i Hi. by apply elem_of_nil in Hi.
  - cbn [fmap list_fmap] in Hnd. apply NoDup_cons in Hnd as [Hi Hnd].
    cbn [foldl].
    destruct (IH (<[EventType_String i := default 0 (counters !! i)]> acc) Hnd)
      as [IHin IHout].
    split.
    + intros j [->|Hj]%elem_of_cons.
      * rewrite IHout by done. apply lookup_insert_eq.
      * by apply IHin.
    + intros name Hname. cbn [fmap list_fmap] in Hname.
      apply not_elem_of_cons in Hname as [Hne Hname].
      rewrite IHout by done. by apply lookup_insert_ne.
Qed.

(** X17. When the event types from ordinal 1 on have distinct names, the
    per-type map of [GetStats] has exactly one entry per ordinal from 1 on,
    under the name of the event type, holding the counter of that ordinal;
    no entry stands for ordinal 0 or for any other name. *)
Theorem GetStats_one_entry_per_event_type (R : Type) (s : State) :
  let old := PerEventType (eventsStats (probe s)) in
  let ordinals := seq 1 (length old - 1) in
  NoDup (EventType_String <$> ordinals) →
  ∃ stats err,
    (GetStats (R := R) s).1 = Val (stats, err) ∧
    (∀ i c, (1 ≤ i)%nat → old !! i = Some c →
            per_event_type stats !! EventType_String i = Some c) ∧
    (∀ name, name ∉ EventType_String <$> ordinals →
             per_event_type stats !! name = None) ∧
    size (per_event_type stats) = (length old - 1)%nat.
Proof.
  intros old ordinals Hnd.
  pose proof (GetStats_wp R s) as Hg. unfold wp in Hg. cbn zeta in Hg.
  destruct Hg as ((syscalls & err & Hv) & _).
  eexists _, err. split; [exact Hv|]. cbn [per_event_type].
  destruct (perEventType_fold_lookup old ordinals ∅ Hnd) as [Hin Hout].
  cbn zeta in Hin, Hout. fold (perEventTypeOf old) in Hin, Hout.
  split; [|split].
  - intros i c Hi Hc. rewrite Hin.
    + by rewrite Hc.
    + apply elem_of_seq. apply lookup_lt_Some in Hc. fold old in Hc. lia.
  - intros name Hname. by rewrite Hout.
  - unfold perEventTypeOf. fold ordinals.
    assert (Hsize : ∀ l (acc : gmap string Z),
              NoDup (EventType_String <$> l) →
              (∀ i, i ∈ l → acc !! EventType_String i = None) →
              size (foldl (λ m i, <[EventType_String i
                                    := default 0 (old !! i)]> m) acc l)
              = (size acc + length l)%nat).
    { clear. intros l. induction l as [|i l IH]; intros acc Hnd Hfresh.
      - cbn. lia.
      - cbn [fmap list_fmap] in Hnd. apply NoDup_cons in Hnd as [Hi Hnd].
        cbn [foldl length]. rewrite IH.
        + rewrite map_size_insert_None
            by (apply Hfresh, elem_of_cons; by left).
          lia.
        + done.
        + intros j Hj. rewrite lookup_insert_ne.
          * apply Hfresh, elem_of_cons. by right.
          * intros Heq. apply Hi. rewrite Heq.
            by apply list_elem_of_fmap_2. }
    rewrite Hsize; [|done|intros; apply lookup_empty].
    rewrite map_size_empty. unfold ordinals, old. rewrite length_seq. lia.
Qed.

(** X18. A [GetStats] that follows a [SendStats] that returned nil reports
    zero everywhere: the lost counter and every entry of the per-type map
    are zero. *)
Theorem GetStats_after_SendStats_reports_zero
    (R : Type) (statsdClient : StatsdClient) (s : State) :
  let r := SendStats (R := R) statsdClient s in
  let g := GetStats (R := R) r.2 in
  r.1 = Val None →
  ∃ stats err,
    g.1 = Val (stats, err) ∧
    events_lost stats = 0 ∧
    (∀ name v, per_event_type stats !! name = Some v → v = 0).
Proof.
  intros r g Hok.
  destruct (SendStats_success_zeroes R statsdClient s Hok) as (Hl & Hz).
  fold r in Hl, Hz.
  pose proof (GetStats_wp R r.2) as Hg. unfold wp in Hg. cbn zeta in Hg.
  fold g in Hg. destruct Hg as ((syscalls & err & Hv) & _).
  eexists _, err. split; [exact Hv|]. cbn [events_lost per_event_type].
  split; [done|].
  unfold perEventTypeOf.
  set (new := PerEventType (eventsStats (probe r.2))) in *.
  assert (Hall : ∀ l (acc : gmap string Z),
            (∀ i, i ∈ l → (1 ≤ i)%nat) →
            (∀ name v, acc !! name = Some v → v = 0) →
            ∀ name v,
              foldl (λ m i, <[EventType_String i := default 0 (new !! i)]> m)
                acc l !! name = Some v → v = 0).
  { intros l. induction l as [|i l IH]; intros acc Hge Hacc; [done|].
    cbn [foldl].
    apply IH; [intros j Hj; apply Hge, elem_of_cons; by right|].
    intros name v.
    destruct (decide (name = EventType_String i)) as [->|Hne].
    - rewrite lookup_insert_eq, Hz by (apply Hge, elem_of_cons; by left).
      congruence.
    - rewrite lookup_insert_ne by done. apply Hacc. }
  apply Hall.
  - intros i Hi. rewrite elem_of_seq in Hi. lia.
  - intros name v Hin. by rewrite lookup_empty in Hin.
Qed.

(** X19. From the buffers to the statistics: after the callbacks for a
    sequence of buffers, all handled, [GetStats] reports for an event type
    the counter it had before plus the number of buffers that decoded to
    that type, under the name of the type, as long as the names of the
    event types are distinct and the counter stays in the range of an
    int64; the lost counter it reports is the one from before. *)
Theorem GetStats_reports_decoded_buffers
    (R : Type) (CPU : Z) (buffers : list (list Byte.byte)) (s : State)
    (i : nat) (c : Z) :
  let r := handleEvents CPU buffers s in
  let g := GetStats (R := R) r.2 in
  let old := PerEventType (eventsStats (probe s)) in
  r.1 = Val tt →
  NoDup (EventType_String <$> seq 1 (length old - 1)) →
  (1 ≤ i)%nat →
  old !! i = Some c →
  (- 2 ^ 63 ≤ c)%Z →
  (c + Z.of_nat (decodedCount i buffers) < 2 ^ 63)%Z →
  ∃ stats err,
    g.1 = Val (stats, err) ∧
    per_event_type stats !! EventType_String i
    = Some (c + Z.of_nat (decodedCount i buffers)) ∧
    events_lost stats = Lost (eventsStats (probe s)).
Proof.
  intros r g old Hok Hnd Hi Hc Hlo Hhi.
  destruct (handleEvents_run CPU buffers s)
    as (done & Hp & Hres & Hnew & Hl & _ & _ & _ & Hlen).
  fold r old in Hres, Hnew, Hl, Hlen.
  destruct Hres as [[_ ->]|Hpanic]; [|congruence].
  pose proof (GetStats_wp R r.2) as Hg. unfold wp in Hg. cbn zeta in Hg.
  fold g in Hg. destruct Hg as ((syscalls & err & Hv) & _).
  eexists _, err. split; [exact Hv|]. cbn [per_event_type events_lost].
  split; [|done].
  set (new := PerEventType (eventsStats (probe r.2))) in *.
  rewrite <- Hlen in Hnd.
  destruct (perEventType_fold_lookup new (seq 1 (length new - 1)) ∅ Hnd)
    as [Hin _].
  cbn zeta in Hin. fold (perEventTypeOf new) in Hin.
  rewrite Hin.
  - rewrite Hnew, Hc. cbn. f_equal. by apply iter_count_small.
  - apply elem_of_seq. apply lookup_lt_Some in Hc. fold old in Hc.
    rewrite Hlen. lia.
Qed.

End StatisticsCoverage.

(** ** The methods on concrete buffers *)

Import Fixture.

Example decodedType_open : decodedType openBuffer = Some 1%nat.
Proof. reflexivity. Qed.

Example decodedType_truncated : decodedType truncatedBuffer = None.
Proof. reflexivity. Qed.

Example decodedType_unknown : decodedType unknownBuffer = None.
Proof. reflexivity. Qed.

Example handleEvent_open_counts :
  PerEventType (eventsStats (probe (handleEvent 0 openBuffer state0).2))
  = [0; 1; 0; 0; 0; 0; 0; 0; 0; 0; 0; 0; 0; 0]
  ∧ world (handleEvent 0 openBuffer state0).2 = ["event open"].
Proof. vm_compute. done. Qed.

Example handleEvent_unknown_drops :
  PerEventType (eventsStats (probe (handleEvent 0 unknownBuffer state0).2))
  = replicate 14 0
  ∧ world (handleEvent 0 unknownBuffer state0).2 = [].
Proof. vm_compute. done. Qed.

Lemma fixture_NoDup : NoDup supportedEventTypes.
Proof.
  exact (bool_decide_unpack (NoDup (supportedEventTypes (H := schema))) I).
Defined.

(** The mount of id 3 is resolved, then inserted. *)
Lemma handleEvent_mount_witness :
  NoDup supportedEventTypes ∧
  cacheCalls (trace (handleEvent 0 mountBuffer state0).2)
  = [CallResolveMountPoint mountRaw; CallResolveRoot mountPointed;
     CallInsert mountResolved] ∧
  resolvers (probe (handleEvent 0 mountBuffer state0).2)
  = MountResolver_Insert mountResolved (resolvers probe0) ∧
  MountResolver (resolvers (probe (handleEvent 0 mountBuffer state0).2)) !! 3
  = Some mountResolved ∧
  Mount (event (probe (handleEvent 0 mountBuffer state0).2)) = mountResolved.
Proof.
  split; [exact fixture_NoDup|].
  assert (Hle : (1 ≤ length mountBuffer)%nat) by (vm_compute; lia).
  exact (handleEvent_mount_resolves_then_inserts 0 mountBuffer state0
           (Event_UnmarshalBinary freshEvent mountBuffer).1.1 1 mountRaw 2 None
           fixture_NoDup eq_refl eq_refl Hle eq_refl).
Defined.

(** The unmount of id 3 on an empty cache is logged, counted and
    dispatched. *)
Lemma handleEvent_umount_witness :
  MountResolver (resolvers (probe state0)) !! 3 = None ∧
  (handleEvent 0 umountBuffer state0).1 = Val tt ∧
  (∃ err,
     trace (handleEvent 0 umountBuffer state0).2
     = [Log TraceLvl "Decoding event %s" [ArgS "umount"];
        CallDelete 3;
        Log ErrorLvl "failed to delete mount point %d from cache: %s"
          [ArgZ 3; ArgS err];
        CallCountEventType 11 1;
        Log TraceLvl "Dispatching event %+v" [ArgE umountDecoded];
        CallHandleEvent consumer umountDecoded]) ∧
  eventsStats (probe (handleEvent 0 umountBuffer state0).2)
  = CountEventType 11 1 (eventsStats probe0) ∧
  world (handleEvent 0 umountBuffer state0).2 = ["event umount"] ∧
  resolvers (probe (handleEvent 0 umountBuffer state0).2) = resolvers probe0.
Proof.
  split; [reflexivity|].
  assert (Hle : (1 ≤ length umountBuffer)%nat) by (vm_compute; lia).
  exact (handleEvent_umount_unknown_id_goes_on 0 umountBuffer state0
           (Event_UnmarshalBinary freshEvent umountBuffer).1.1 1
           {| MountID := 3 |} 1
           fixture_NoDup eq_refl eq_refl Hle eq_refl eq_refl).
Defined.

(** Two functions registered for "open", the first failing: the second is
    not invoked and the error of the first is returned. *)
Lemma OnNewDiscarder_witness :
  EnableDiscarders (config (probe discarderState)) = true ∧
  (OnNewDiscarder (R := unit) tt eventZero "open.filename" discarderState).1
  = Val (Some "discarder table full") ∧
  discarderCalls
    (trace (OnNewDiscarder (R := unit) tt eventZero "open.filename"
              discarderState).2)
  = [(failingDiscarder, openDiscarder)] ∧
  world (OnNewDiscarder (R := unit) tt eventZero "open.filename"
           discarderState).2 = [].
Proof.
  split; [reflexivity|].
  pose proof (OnNewDiscarder_in_order_until_first_failure unit tt eventZero
                "open.filename" discarderState eq_refl) as Hd.
  cbv zeta in Hd. destruct Hd as [_ Hd].
  exact (proj2 (proj2 (proj2 (proj2 (proj2 Hd))))
           failingDiscarder okDiscarder "discarder table full" []
           eq_refl eq_refl).
Defined.

(** Discarders enabled and two functions registered for "open", but a field
    of "open" whose value cannot be read: no function is invoked, and the
    error returned is that of the lookup, not that of the first function. *)
Lemma OnNewDiscarder_unreadable_value_counterexample :
  EnableDiscarders (config (probe discarderState)) = true ∧
  Event_GetFieldEventType eventZero "open.basename" = ("open", None) ∧
  onDiscardersFncs (probe discarderState) !! "open"
  = Some [failingDiscarder; okDiscarder] ∧
  failingDiscarder tt eventZero
    {| Field := "open.basename"; DValue := "" |} (world discarderState)
  = (Some "discarder table full", []) ∧
  discarderCalls
    (trace (OnNewDiscarder (R := unit) tt eventZero "open.basename"
              discarderState).2) = [] ∧
  (OnNewDiscarder (R := unit) tt eventZero "open.basename" discarderState).1
  = Val (Some "value not readable").
Proof. vm_compute. repeat split. Qed.

(** With kernel-side filtering disabled, [Init] writes no policy record. *)
Example Init_with_filters_disabled_writes_nothing :
  EnableKernelFilters (config (probe noFilterState)) = false ∧
  ¬ (∃ c, c ∈ putCalls (trace (Init (R := unit) noFilterState).2)) ∧
  world (Init (R := unit) noFilterState).2 = world noFilterState.
Proof.
  split; [reflexivity|]. split; [|reflexivity].
  intros [c Hc]. vm_compute in Hc. by apply elem_of_nil in Hc.
Qed.


(** With a statsd client that fails, [SendStats] returns the error and no
    per-type counter is read or reset. *)
Lemma SendStats_failing_client_counterexample :
  (SendStats (R := unit) false countedState).1
  = Val (Some "statsd: client closed") ∧
  resetCalls (trace (SendStats (R := unit) false countedState).2) = [] ∧
  PerEventType (eventsStats (probe (SendStats (R := unit) false countedState).2))
  = [0; 5; 2; 0; 0; 0; 0; 0; 0; 0; 0; 0; 0; 0].
Proof. vm_compute. done. Qed.

Example SendStats_working_client :
  (SendStats (R := unit) true countedState).1 = Val None ∧
  resetCalls (trace (SendStats (R := unit) true countedState).2)
  = seq 1 13 ∧
  countCalls (trace (SendStats (R := unit) true countedState).2)
  = [("datadog.runtime_security.events.lost", 0, []);
     ("datadog.runtime_security.events.received", 5, ["event_type:open"]);
     ("datadog.runtime_security.events.received", 2, ["event_type:mkdir"])] ∧
  PerEventType (eventsStats (probe (SendStats (R := unit) true countedState).2))
  = replicate 14 0.
Proof. vm_compute. done. Qed.

Example ApplyApprovers_rename_unregistered :
  ApplyApprovers (R := unit) "rename" tt (init (R := unit) state0).2
  = (Val None, (init (R := unit) state0).2).
Proof. vm_compute. reflexivity. Qed.

Lemma fixture_names_NoDup :
  NoDup (EventType_String <$> seq 1 (length (replicate 14 0) - 1)).
Proof.
  exact (bool_decide_unpack
           (NoDup (EventType_String (Schema := schema)
                     <$> seq 1 (length (replicate 14 0) - 1))) I).
Defined.

(** The unmount of id 3 once the mount of id 3 is cached. *)
Lemma handleEvent_umount_known_witness :
  MountResolver (resolvers (probe mountedState)) !! 3 = Some mountResolved ∧
  (handleEvent 0 umountBuffer mountedState).1 = Val tt ∧
  MountResolver (resolvers (probe (handleEvent 0 umountBuffer mountedState).2))
  = ∅ ∧
  errorLogs (trace (handleEvent 0 umountBuffer mountedState).2) = [].
Proof.
  assert (Hin : MountResolver (resolvers (probe mountedState)) !! 3
                = Some mountResolved) by (vm_compute; reflexivity).
  assert (Hle : (1 ≤ length umountBuffer)%nat) by (vm_compute; lia).
  pose proof (handleEvent_umount_known_id_deletes_entry 0 umountBuffer
                mountedState
                (Event_UnmarshalBinary freshEvent umountBuffer).1.1 1
                {| MountID := 3 |} 1 mountResolved
                fixture_NoDup eq_refl eq_refl Hle eq_refl Hin) as Hw.
  cbv zeta in Hw. destruct Hw as (Hv & Hnew & _ & _ & _ & Hlogs).
  split; [exact Hin|]. split; [exact Hv|]. split.
  - rewrite Hnew. vm_compute. reflexivity.
  - rewrite Hlogs. vm_compute. reflexivity.
Defined.

(** The mount of id 3 then its unmount, from an empty cache. *)
Lemma handleEvent_mount_then_umount_witness :
  MountResolver (resolvers (probe state0)) !! 3 = None ∧
  MountResolver (resolvers (probe (handleEvent 0 mountBuffer state0).2)) !! 3
  = Some mountResolved ∧
  resolvers (probe (handleEvent 1 umountBuffer
                      (handleEvent 0 mountBuffer state0).2).2)
  = resolvers (probe state0) ∧
  errorLogs (trace (handleEvent 1 umountBuffer
                      (handleEvent 0 mountBuffer state0).2).2)
  = errorLogs (trace state0).
Proof.
  split; [reflexivity|].
  assert (Hle : (1 ≤ length mountBuffer)%nat) by (vm_compute; lia).
  assert (Hle' : (1 ≤ length umountBuffer)%nat) by (vm_compute; lia).
  exact (handleEvent_mount_then_umount_restores_cache 0 1 mountBuffer
           umountBuffer state0
           (Event_UnmarshalBinary freshEvent mountBuffer).1.1 1 mountRaw 2
           (Event_UnmarshalBinary freshEvent umountBuffer).1.1 1
           {| MountID := 3 |} 1
           fixture_NoDup eq_refl eq_refl Hle eq_refl
           eq_refl eq_refl Hle' eq_refl eq_refl eq_refl).
Defined.

(** A discarder for "open" on a probe without functions. *)
Lemma OnNewDiscarder_without_function_witness :
  EnableDiscarders (config (probe state0)) = true ∧
  Event_GetFieldEventType eventZero "open.filename" = ("open", None) ∧
  default [] (onDiscardersFncs (probe state0) !! "open") = [] ∧
  OnNewDiscarder (R := unit) tt eventZero "open.filename" state0
  = (Val None,
     set_trace (trace state0
                  ++ [Log TraceLvl "New discarder event %+v for field %s"
                        [ArgE eventZero; ArgS "open.filename"]]) state0).
Proof.
  split; [reflexivity|]. split; [reflexivity|]. split; [reflexivity|].
  exact (OnNewDiscarder_without_function_is_success unit tt eventZero
           "open.filename" state0 "open" eq_refl eq_refl eq_refl).
Defined.

(** With discarders disabled nothing is logged. *)
Lemma OnNewDiscarder_disabled_witness :
  EnableDiscarders (config (probe disabledState)) = false ∧
  OnNewDiscarder (R := unit) tt eventZero "open.filename" disabledState
  = (Val None, disabledState).
Proof.
  split; [reflexivity|].
  exact (OnNewDiscarder_disabled unit tt eventZero "open.filename"
           disabledState eq_refl).
Defined.

(** A field that is not one of the event. *)
Lemma OnNewDiscarder_unknown_field_witness :
  EnableDiscarders (config (probe discarderState)) = true ∧
  (Event_GetFieldEventType eventZero "open.flags").2 = Some "field not found" ∧
  (OnNewDiscarder (R := unit) tt eventZero "open.flags" discarderState).1
  = Val (Some "field not found") ∧
  discarderCalls
    (trace (OnNewDiscarder (R := unit) tt eventZero "open.flags"
              discarderState).2)
  = discarderCalls (trace discarderState).
Proof.
  split; [reflexivity|]. split; [reflexivity|].
  exact (OnNewDiscarder_unknown_field unit tt eventZero "open.flags"
           discarderState "field not found" eq_refl (or_introl eq_refl)).
Defined.

(** After [init] and [Init], a discarder for "open" invokes the open
    function once, and twice after a second [Init]. *)
Lemma Init_then_OnNewDiscarder_witness :
  allDiscarderFncs loadedState !! "open" = Some okDiscarder ∧
  onDiscardersFncs (probe loadedState) !! "open" = None ∧
  discarderCalls
    (trace (OnNewDiscarder (R := unit) tt eventZero "open.filename"
              (Init (R := unit) loadedState).2).2)
  = [(okDiscarder, openDiscarder)] ∧
  discarderCalls
    (trace (OnNewDiscarder (R := unit) tt eventZero "open.filename"
              (Init (R := unit) (Init (R := unit) loadedState).2).2).2)
  = [(okDiscarder, openDiscarder); (okDiscarder, openDiscarder)].
Proof.
  assert (Hall : allDiscarderFncs loadedState !! "open" = Some okDiscarder)
    by (vm_compute; reflexivity).
  assert (Hold : onDiscardersFncs (probe loadedState) !! "open" = None)
    by (vm_compute; reflexivity).
  pose proof (Init_then_OnNewDiscarder_invokes_registered_function unit tt
                eventZero "open.filename" loadedState "open" "/etc/passwd"
                okDiscarder eq_refl eq_refl eq_refl Hall Hold) as Hw.
  cbv zeta in Hw. destruct Hw as (_ & _ & Hcalls & Htwice).
  split; [exact Hall|]. split; [exact Hold|]. split.
  - exact Hcalls.
  - exact (proj2 (Htwice eq_refl)).
Defined.

(** Two exports in a row of five open and two mkdir events. *)
Lemma SendStats_again_witness :
  (SendStats (R := unit) true countedState).1 = Val None ∧
  countCalls
    (trace (SendStats (R := unit) true
              (SendStats (R := unit) true countedState).2).2)
  = countCalls (trace (SendStats (R := unit) true countedState).2)
      ++ [("datadog.runtime_security.events.lost", 0, [])].
Proof.
  assert (Hok : (SendStats (R := unit) true countedState).1 = Val None)
    by (vm_compute; reflexivity).
  pose proof (SendStats_again_submits_nothing_new unit true true countedState
                Hok) as Hw.
  cbv zeta in Hw. destruct Hw as (_ & _ & [Hsame|Hlost]).
  - exfalso. vm_compute in Hsame. discriminate Hsame.
  - split; [exact Hok|]. exact Hlost.
Defined.

(** The per-type map of five open and two mkdir events. *)
Lemma GetStats_one_entry_witness :
  NoDup (EventType_String
           <$> seq 1 (length (PerEventType (eventsStats (probe countedState)))
                      - 1)) ∧
  ∃ stats err,
    (GetStats (R := unit) countedState).1 = Val (stats, err) ∧
    per_event_type stats !! "open" = Some 5 ∧
    per_event_type stats !! "mkdir" = Some 2 ∧
    per_event_type stats !! "unknown" = None ∧
    size (per_event_type stats) = 13%nat.
Proof.
  split; [exact fixture_names_NoDup|].
  destruct (GetStats_one_entry_per_event_type unit countedState
              fixture_names_NoDup) as (stats & err & Hv & Hin & Hout & Hsize).
  exists stats, err. split; [exact Hv|].
  split; [exact (Hin 1%nat 5 (le_n 1) eq_refl)|].
  split; [exact (Hin 2%nat 2 (le_S 1 1 (le_n 1)) eq_refl)|].
  split; [|exact Hsize].
  apply Hout. vm_compute. intros Hin'.
  repeat (apply elem_of_cons in Hin' as [Hin'|Hin']; [discriminate Hin'|]).
  by apply elem_of_nil in Hin'.
Defined.

(** After the export of five open and two mkdir events everything reads
    zero. *)
Lemma GetStats_after_SendStats_witness :
  (SendStats (R := unit) true countedState).1 = Val None ∧
  ∃ stats err,
    (GetStats (R := unit) (SendStats (R := unit) true countedState).2).1
    = Val (stats, err) ∧
    events_lost stats = 0 ∧
    (∀ name v, per_event_type stats !! name = Some v → v = 0).
Proof.
  assert (Hok : (SendStats (R := unit) true countedState).1 = Val None)
    by (vm_compute; reflexivity).
  split; [exact Hok|].
  exact (GetStats_after_SendStats_reports_zero unit true countedState Hok).
Defined.

(** Two open events in a sequence of four buffers are reported as two. *)
Lemma GetStats_reports_stream_witness :
  (handleEvents 0 stream state0).1 = Val tt ∧
  decodedCount 1 stream = 2%nat ∧
  ∃ stats err,
    (GetStats (R := unit) (handleEvents 0 stream state0).2).1
    = Val (stats, err) ∧
    per_event_type stats !! "open" = Some 2 ∧
    events_lost stats = 0.
Proof.
  assert (Hok : (handleEvents 0 stream state0).1 = Val tt)
    by (vm_compute; reflexivity).
  assert (Hlo : (- 2 ^ 63 ≤ 0)%Z) by lia.
  assert (Hhi : (0 + Z.of_nat (decodedCount 1 stream) < 2 ^ 63)%Z)
    by (vm_compute; reflexivity).
  split; [exact Hok|]. split; [reflexivity|].
  exact (GetStats_reports_decoded_buffers unit 0 stream state0 1%nat 0
           Hok fixture_names_NoDup (le_n 1) eq_refl Hlo Hhi).
Defined.

(** The mount of id 3 under parent 1, from an empty cache. *)
Lemma handleEvent_cache_mount_witness :
  NoDup supportedEventTypes ∧
  resolvers (probe (handleEvent 0 mountBuffer state0).2)
  = MountResolver_Insert mountResolved (resolvers probe0) ∧
  cacheCalls (trace (handleEvent 0 mountBuffer state0).2)
  = [CallResolveMountPoint mountRaw; CallResolveRoot mountPointed;
     CallInsert mountResolved].
Proof.
  split; [exact fixture_NoDup|].
  exact (handleEvent_cache_changes_only_for_mounts 0 mountBuffer state0
           fixture_NoDup).
Defined.

(** The unmount of id 3 on an empty cache logs the failure of its delete. *)
Lemma handleEvent_umount_logs_witness :
  NoDup supportedEventTypes ∧
  (handleEvent 0 umountBuffer state0).1 = Val tt ∧
  errorLogs (trace (handleEvent 0 umountBuffer state0).2)
  = [("failed to delete mount point %d from cache: %s",
      [ArgZ 3; ArgS "mount not found"])].
Proof.
  split; [exact fixture_NoDup|].
  exact (handleEvent_logs_one_error_per_dropped_buffer 0 umountBuffer state0
           fixture_NoDup).
Defined.
